(** * The PE directory parsers of pe.cpp, embedded in Rocq

    The development follows [src/pe.cpp]: the address translator
    ([PE::_rva_to_offset], [PE::_va_to_offset]), the directory dispatcher
    ([PE::_reach_directory]) and the four directory parsers
    ([PE::_parse_exports], [PE::_parse_relocations], [PE::_parse_tls],
    [PE::_parse_certificates]).

    Integers of the program are [Z] with the wrap-around of their C type
    written out, the file is a list of bytes with a read position, and the
    parsed object is a record that every parser receives and returns. *)

From Stdlib Require Import ZArith List Bool Lia String.
From Stdlib.Strings Require Import Byte.
From stdpp Require Import base list.
Import ListNotations.
Local Open Scope Z_scope.

(** ** Outcomes of a member function *)

(** A call returns, leaves through a C++ exception, reads an array outside
    its bounds, or (in the model only) exhausts the budget of loop
    iterations it was given.  [Throws] is the std::out_of_range of
    [vector::at], [BadAlloc] the std::bad_alloc of an array [new]. *)
Inductive outcome (A : Type) : Type :=
| Returns (a : A)
| Throws
| OutOfBounds
| OutOfFuel
| BadAlloc.
Arguments Returns {A} a.
Arguments Throws {A}.
Arguments OutOfBounds {A}.
Arguments OutOfFuel {A}.
Arguments BadAlloc {A}.

#[global] Instance outcome_bind : MBind outcome := fun A B k m =>
  match m with
  | Returns a => k a
  | Throws => Throws
  | OutOfBounds => OutOfBounds
  | OutOfFuel => OutOfFuel
  | BadAlloc => BadAlloc
  end.

#[global] Instance outcome_ret : MRet outcome := fun A a => Returns a.

(** A [while] loop: [body] either continues with a new state ([inl]) or
    leaves the loop ([inr]), by [break] or by [return]. *)
Fixpoint loop {S R : Type} (body : S -> S + outcome R) (fuel : nat) (s : S)
  : outcome R :=
  match fuel with
  | O => OutOfFuel
  | Datatypes.S fuel' =>
      match body s with
      | inl s' => loop body fuel' s'
      | inr r => r
      end
  end.

(** ** Machine integers *)

Definition u16 (z : Z) : Z := z mod 2 ^ 16.
Definition u32 (z : Z) : Z := z mod 2 ^ 32.
Definition u64 (z : Z) : Z := z mod 2 ^ 64.

(** ** Bytes on disk, little endian *)

Definition byte_val (b : byte) : Z := Z.of_N (Byte.to_N b).

Definition byte_of (z : Z) : byte :=
  match Byte.of_N (Z.to_N (z mod 256)) with
  | Some b => b
  | None => x00
  end.

(** The value of a little-endian field.  A buffer that was zeroed and then
    filled by a short read is the bytes read: the missing ones count 0. *)
Fixpoint le_decode (bs : list byte) : Z :=
  match bs with
  | [] => 0
  | b :: rest => byte_val b + 256 * le_decode rest
  end.

Fixpoint le_encode (w : nat) (v : Z) : list byte :=
  match w with
  | O => []
  | Datatypes.S w' => byte_of v :: le_encode w' (v / 256)
  end.

(** The [w]-byte field at byte offset [off] of a structure image. *)
Definition field (buf : list byte) (off w : nat) : Z :=
  le_decode (take w (drop off buf)).

(** ** The stdio stream *)

Inductive whence := SEEK_SET | SEEK_CUR.

(** [seek_limit] is the largest offset the stream lets itself be
    positioned at ([LONG_MAX] for a regular file). *)
Record FILE := mkFILE {
  contents : list byte;
  position : N;
  eof : bool;
  seek_limit : Z
}.

(** The bytes from the read position to the end of the file. *)
Definition stream (f : FILE) : list byte :=
  if (N.of_nat (length (contents f)) <=? position f)%N then []
  else drop (N.to_nat (position f)) (contents f).

(** [fread(buf, 1, n, f)]: the bytes stored and the stream afterwards; the
    count returned by C is the length of the bytes stored. *)
Definition fread (n : Z) (f : FILE) : list byte * FILE :=
  let avail := stream f in
  let got := take (Z.to_nat (Z.min n (Z.of_nat (length avail)))) avail in
  (got,
   {| contents := contents f;
      position := position f + N.of_nat (length got);
      eof := eof f || (Z.of_nat (length got) <? n);
      seek_limit := seek_limit f |}).

(** [n != fread(buf, 1, n, f)] *)
Definition short (n : Z) (got : list byte) : bool :=
  negb (Z.of_nat (length got) =? n).

(** [fseek]: 0 on success, -1 on failure (the stream is then unchanged). *)
Definition fseek (f : FILE) (offset : Z) (w : whence) : Z * FILE :=
  let target :=
    match w with
    | SEEK_SET => offset
    | SEEK_CUR => Z.of_N (position f) + offset
    end in
  if (target <? 0) || (seek_limit f <? target) then (-1, f)
  else (0,
        {| contents := contents f;
           position := Z.to_N target;
           eof := false;
           seek_limit := seek_limit f |}).

Definition feof (f : FILE) : bool := eof f.

(** No read of the model fails for a reason other than the end of the
    file. *)
Definition ferror (f : FILE) : bool := false.

(** Bytes left before the end of the file. *)
Definition bytes_left (f : FILE) : nat := length (stream f).

(** ** The data model of pe.h

    pe.h and the structures it declares are not part of the source at
    hand: the records below carry the fields that pe.cpp reads, with the
    names it reads them by. *)

(** Modelled from the spec: a section is
    [{VirtualAddress, VirtualSize, PointerToRawData, SizeOfRawData, ...}];
    pe.cpp reads it through its getters. *)
Record Section := mkSection {
  get_virtual_address : Z;
  get_virtual_size : Z;
  get_pointer_to_raw_data : Z;
  get_size_of_raw_data : Z
}.

(** Modelled from the spec: a data directory is [{VirtualAddress, Size}],
    two 32-bit fields. *)
Record image_data_directory := mkDir {
  VirtualAddress : Z;
  Size : Z
}.

(** Modelled from the spec: the fields of the optional header that the
    directory parsers read.  [directories] holds the entries read from the file; the array of the
    program has 16 slots and was zeroed before, so a slot that was not
    read is [{0, 0}]. *)
Record image_optional_header := mkIoh {
  Magic : Z;
  ImageBase : Z;
  directories : list image_data_directory
}.

(** Modelled from the spec: the fixed-size export-directory header, nine
    32-bit and two 16-bit fields (the [ied_size] of [_parse_exports]) in
    the order of the PE format, and the module name resolved from
    [Name]. *)
Record image_export_directory := mkIed {
  ied_Characteristics : Z;
  ied_TimeDateStamp : Z;
  ied_MajorVersion : Z;
  ied_MinorVersion : Z;
  ied_Name : Z;
  Base : Z;
  NumberOfFunctions : Z;
  NumberOfNames : Z;
  AddressOfFunctions : Z;
  AddressOfNames : Z;
  AddressOfNameOrdinals : Z;
  NameStr : string
}.

(** Modelled from the spec: an exported function is
    [{Address, Ordinal, Name, ForwardName}]; address and ordinal are 32-bit
    fields. *)
Record exported_function := mkExport {
  Address : Z;
  Ordinal : Z;
  Name : string;
  ForwardName : string
}.

(** Modelled from the spec: a relocation block is
    [{PageRVA, BlockSize, TypeOffsets}], two 32-bit fields and 16-bit
    entries. *)
Record image_base_relocation := mkReloc {
  PageRVA : Z;
  BlockSize : Z;
  TypesOffsets : list Z
}.

(** Modelled from the spec: the TLS record, four 64-bit and two 32-bit
    fields (the [size] of [_parse_tls]), and the callbacks. *)
Record image_tls_directory := mkTls {
  StartAddressOfRawData : Z;
  EndAddressOfRawData : Z;
  AddressOfIndex : Z;
  AddressOfCallbacks : Z;
  SizeOfZeroFill : Z;
  tls_Characteristics : Z;
  Callbacks : list Z
}.

(** Modelled from the spec: a certificate is
    [{Length, Revision, CertificateType, Certificate}], a 32-bit and two
    16-bit fields and the blob. *)
Record win_certificate := mkCert {
  Length : Z;
  Revision : Z;
  CertificateType : Z;
  Certificate : list byte
}.

(** The members of the [PE] object that the directory parsers use. *)
Record PE := mkPE {
  _ioh : image_optional_header;
  _sections : list Section;
  _ied : image_export_directory;
  _exports : list exported_function;
  _relocations : list image_base_relocation;
  _tls : image_tls_directory;
  _certificates : list win_certificate
}.

Definition with_ied (pe : PE) (x : image_export_directory) : PE :=
  mkPE (_ioh pe) (_sections pe) x (_exports pe) (_relocations pe) (_tls pe)
       (_certificates pe).
Definition with_exports (pe : PE) (x : list exported_function) : PE :=
  mkPE (_ioh pe) (_sections pe) (_ied pe) x (_relocations pe) (_tls pe)
       (_certificates pe).
Definition with_relocations (pe : PE) (x : list image_base_relocation) : PE :=
  mkPE (_ioh pe) (_sections pe) (_ied pe) (_exports pe) x (_tls pe)
       (_certificates pe).
Definition with_tls (pe : PE) (x : image_tls_directory) : PE :=
  mkPE (_ioh pe) (_sections pe) (_ied pe) (_exports pe) (_relocations pe) x
       (_certificates pe).
Definition with_certificates (pe : PE) (x : list win_certificate) : PE :=
  mkPE (_ioh pe) (_sections pe) (_ied pe) (_exports pe) (_relocations pe)
       (_tls pe) x.

Definition zero_directory : image_data_directory := mkDir 0 0.

(** [_ioh.directories[i]]: the array has 16 slots; a read outside them is
    not a value of the program. *)
Definition directory_at (ioh : image_optional_header) (i : Z)
  : outcome image_data_directory :=
  if (i <? 0) || (0x10 <=? i) then OutOfBounds
  else Returns (default zero_directory (directories ioh !! Z.to_nat i)).

(** Modelled from the spec: the slot numbers and the magic values are
    named in pe.h and nt_values.h, outside the source at hand; they are
    those of the PE format (export 0, security 4, base relocation 5,
    TLS 9; PE32 0x10b, PE32+ 0x20b). *)
Definition IMAGE_DIRECTORY_ENTRY_EXPORT : Z := 0.
Definition IMAGE_DIRECTORY_ENTRY_SECURITY : Z := 4.
Definition IMAGE_DIRECTORY_ENTRY_BASERELOC : Z := 5.
Definition IMAGE_DIRECTORY_ENTRY_TLS : Z := 9.
Definition IMAGE_OPTIONAL_HEADER_MAGIC_PE32 : Z := 0x10b.
Definition IMAGE_OPTIONAL_HEADER_MAGIC_PE32plus : Z := 0x20b.

(** ** What pe.cpp calls and does not define

    [utils::is_address_in_section], [utils::read_string_at_offset] and the
    tables of certificate types and revisions live in other files.  The
    parsers are written over any implementation of them.
    [read_string_at_offset f offset out] gives the returned flag, the
    string left in [out] and the stream afterwards.

    The array form of [new] is the runtime's: [allocates bytes] tells
    whether an array of that many bytes is obtained; when it is not,
    [new] throws std::bad_alloc. *)
Class Externals := {
  is_address_in_section : Z -> Section -> bool -> bool;
  read_string_at_offset : FILE -> Z -> string -> bool * string * FILE;
  WIN_CERTIFICATE_TYPES : list (string * Z);
  WIN_CERTIFICATE_REVISIONS : list (string * Z);
  allocates : Z -> bool
}.

(** Modelled from the spec: [nt::translate_to_flag] is defined outside
    pe.cpp; it names a value by the table, and a value that matches no
    known enumerated value is "UNKNOWN". *)
Definition translate_to_flag (value : Z) (table : list (string * Z)) : string :=
  match List.find (fun entry => snd entry =? value) table with
  | Some entry => fst entry
  | None => "UNKNOWN"%string
  end.

(** ** Address translator *)

Section Translator.
Context {E : Externals}.

(** [PE::_rva_to_offset], lines 280-316.  [rva] is a [uint64]. *)
Definition _rva_to_offset (pe : PE) (rva : Z) : Z :=
  if (length (_sections pe) =? 0)%nat then Z.land rva 0xFFFFFFFF
  else
    match List.find (fun s => is_address_in_section rva s false) (_sections pe) with
    | None =>
        (* the second scan assigns [section], and line 310 returns 0 *)
        let section :=
          List.find (fun s => is_address_in_section rva s true) (_sections pe) in
        0
    | Some section =>
        Z.land
          (u64 (u64 (rva - get_virtual_address section)
                + get_pointer_to_raw_data section))
          0xFFFFFFFF
    end.

(** [PE::_va_to_offset], lines 320-322. *)
Definition _va_to_offset (pe : PE) (va : Z) : Z :=
  if ImageBase (_ioh pe) <? va
  then _rva_to_offset pe (u64 (va - ImageBase (_ioh pe)))
  else 0.

(** ** Directory dispatcher *)

(** What [PRINT_WARNING] and [PRINT_ERROR] report in [_reach_directory]. *)
Inductive diagnostic :=
| warn_size_zero
| error_rva_zero
| error_unreachable.

(** Lines 343-349: translate the address and seek to it. *)
Definition translate_and_seek (pe : PE) (f : FILE) (d : image_data_directory)
    (log : list diagnostic) : bool * FILE * list diagnostic :=
  let offset := _rva_to_offset pe (VirtualAddress d) in
  if offset =? 0 then (false, f, log ++ [error_unreachable])
  else
    let '(r, f') := fseek f offset SEEK_SET in
    if r =? 0 then (true, f', log)
    else (false, f', log ++ [error_unreachable]).

(** [PE::_reach_directory], lines 326-350.  [directory] is an [int]. *)
Definition _reach_directory (pe : PE) (f : FILE) (directory : Z)
  : outcome (bool * FILE * list diagnostic) :=
  if 0x10 <? directory then Returns (false, f, [])
  else
    d ← directory_at (_ioh pe) directory;
    if (VirtualAddress d =? 0) && (Size d =? 0) then Returns (false, f, [])
    else if Size d =? 0 then
      Returns (translate_and_seek pe f d [warn_size_zero])
    else if VirtualAddress d =? 0 then Returns (false, f, [error_rva_zero])
    else Returns (translate_and_seek pe f d []).

End Translator.

(** ** Directory parsers *)

Section Parsers.
Context {E : Externals}.

(** A directory slot read with a constant index below 16. *)
Definition directory_slot (pe : PE) (slot : Z) : image_data_directory :=
  default zero_directory (directories (_ioh pe) !! Z.to_nat slot).

(** *** Exports *)

(** [9*sizeof(uint32) + 2*sizeof(uint16)]: the structure without its
    trailing [NameStr]. *)
Definition ied_size : Z := 9 * 4 + 2 * 2.

(** The first [ied_size] bytes of [_ied] seen as its fields. *)
Definition decode_ied (buf : list byte) (name_str : string)
  : image_export_directory :=
  mkIed (field buf 0 4) (field buf 4 4) (field buf 8 2) (field buf 10 2)
        (field buf 12 4) (field buf 16 4) (field buf 20 4) (field buf 24 4)
        (field buf 28 4) (field buf 32 4) (field buf 36 4) name_str.

Definition set_NameStr (ied : image_export_directory) (s : string)
  : image_export_directory :=
  mkIed (ied_Characteristics ied) (ied_TimeDateStamp ied)
        (ied_MajorVersion ied) (ied_MinorVersion ied) (ied_Name ied)
        (Base ied) (NumberOfFunctions ied) (NumberOfNames ied)
        (AddressOfFunctions ied) (AddressOfNames ied)
        (AddressOfNameOrdinals ied) s.

Definition set_Name (ex : exported_function) (s : string) : exported_function :=
  mkExport (Address ex) (Ordinal ex) s (ForwardName ex).

(** Lines 399-422: the loop over the function-address table; [count]
    iterations are left and [i] is the loop index. *)
Fixpoint read_functions (count : nat) (i : Z) (f : FILE) (pe : PE)
  : bool * FILE * PE :=
  match count with
  | O => (true, f, pe)
  | Datatypes.S count' =>
      let '(buf, f) := fread 4 f in
      if short 4 buf then (false, f, pe)
      else
        let address := le_decode buf in
        let ordinal := u32 (Base (_ied pe) + i) in
        let export_dir := directory_slot pe IMAGE_DIRECTORY_ENTRY_EXPORT in
        if (VirtualAddress export_dir <? address)
           && (address <? u32 (VirtualAddress export_dir + Size export_dir))
        then
          let offset := _rva_to_offset pe address in
          if offset =? 0 then (false, f, pe)
          else
            let '(ok, forward, f) := read_string_at_offset f offset EmptyString in
            if negb ok then (false, f, pe)
            else
              read_functions count' (i + 1) f
                (with_exports pe
                   (_exports pe ++ [mkExport address ordinal EmptyString forward]))
        else
          read_functions count' (i + 1) f
            (with_exports pe
               (_exports pe ++ [mkExport address ordinal EmptyString EmptyString]))
  end.

(** An array of [count] little-endian values of [w] bytes. *)
Fixpoint decode_table (w count : nat) (buf : list byte) : list Z :=
  match count with
  | O => []
  | Datatypes.S count' => le_decode (take w buf) :: decode_table w count' (drop w buf)
  end.

(** Lines 453-461: the loop that matches names with addresses, over the
    pairs [(names[i], ords[i])]. *)
Fixpoint match_names (table : list (Z * Z)) (f : FILE) (pe : PE)
  : outcome (bool * FILE * PE) :=
  match table with
  | [] => Returns (true, f, pe)
  | (name, ord) :: table' =>
      let offset := _rva_to_offset pe name in
      if (offset =? 0) || (Z.of_nat (length (_exports pe)) <? ord)
      then Returns (false, f, pe)
      else
        match _exports pe !! Z.to_nat ord with
        | None => Throws (* [_exports.at(ords[i])]: std::out_of_range *)
        | Some ex =>
            let '(ok, str, f) := read_string_at_offset f offset (Name ex) in
            let pe :=
              with_exports pe (<[Z.to_nat ord := set_Name ex str]> (_exports pe)) in
            if negb ok then Returns (false, f, pe)
            else match_names table' f pe
        end
  end.

(** [PE::_parse_exports], lines 367-464. *)
Definition _parse_exports (f : FILE) (pe : PE) : outcome (bool * FILE * PE) :=
  let pe := with_ied pe (decode_ied [] (NameStr (_ied pe))) in
  '(reached, f, _) ← _reach_directory pe f IMAGE_DIRECTORY_ENTRY_EXPORT;
  if negb reached then Returns (true, f, pe)
  else
    let '(buf, f) := fread ied_size f in
    let pe := with_ied pe (decode_ied buf (NameStr (_ied pe))) in
    if short ied_size buf then Returns (false, f, pe)
    else
      let offset := _rva_to_offset pe (ied_Name (_ied pe)) in
      if offset =? 0 then Returns (false, f, pe)
      else
        let '(ok, str, f) := read_string_at_offset f offset (NameStr (_ied pe)) in
        let pe := with_ied pe (set_NameStr (_ied pe) str) in
        if negb ok then Returns (false, f, pe)
        else
          let offset := _rva_to_offset pe (AddressOfFunctions (_ied pe)) in
          if offset =? 0 then Returns (false, f, pe)
          else
            let '(r, f) := fseek f offset SEEK_SET in
            if negb (r =? 0) then Returns (false, f, pe)
            else
              let '(ok, f, pe) :=
                read_functions (Z.to_nat (NumberOfFunctions (_ied pe))) 0 f pe in
              if negb ok then Returns (false, f, pe)
              else
                let count := NumberOfNames (_ied pe) in
                (* [new uint32_t[NumberOfNames]] and
                   [new uint16_t[NumberOfNames]]: std::bad_alloc *)
                if negb (allocates (count * 4)) || negb (allocates (count * 2))
                then BadAlloc
                else
                let offset := _rva_to_offset pe (AddressOfNames (_ied pe)) in
                if offset =? 0 then Returns (false, f, pe)
                else
                  let '(r, f) := fseek f offset SEEK_SET in
                  if negb (r =? 0) then Returns (false, f, pe)
                  else
                    let '(names, f) := fread (count * 4) f in
                    if short (count * 4) names then Returns (false, f, pe)
                    else
                      let offset :=
                        _rva_to_offset pe (AddressOfNameOrdinals (_ied pe)) in
                      if offset =? 0 then Returns (false, f, pe)
                      else
                        let '(r, f) := fseek f offset SEEK_SET in
                        if negb (r =? 0) then Returns (false, f, pe)
                        else
                          let '(ords, f) := fread (count * 2) f in
                          if short (count * 2) ords then Returns (false, f, pe)
                          else
                            match_names
                              (zip (decode_table 4 (Z.to_nat count) names)
                                   (decode_table 2 (Z.to_nat count) ords))
                              f pe.

(** *** Base relocations *)

Definition reloc_header_size : Z := 2 * 4.

(** Lines 487-496: the loop over the 16-bit entries of one block. *)
Fixpoint read_types_offsets (count : nat) (f : FILE) (acc : list Z)
  : bool * FILE * list Z :=
  match count with
  | O => (true, f, acc)
  | Datatypes.S count' =>
      let '(buf, f) := fread 2 f in
      if short 2 buf then (false, f, acc)
      else read_types_offsets count' f (acc ++ [le_decode buf])
  end.

(** [(reloc->BlockSize - header_size) / sizeof(uint16_t)]: the
    subtraction is on [unsigned int]. *)
Definition entry_count (block_size : Z) : Z :=
  u32 (block_size - reloc_header_size) / 2.

(** Lines 476-500: the test and the body of the [while] loop, on
    [(remaining_size, f, this)]. *)
Definition relocations_body (st : Z * FILE * PE)
  : (Z * FILE * PE) + outcome (bool * FILE * PE) :=
  let '(remaining_size, f, pe) := st in
  if negb (0 <? remaining_size) then inr (Returns (true, f, pe))
  else
    let '(buf, f) := fread reloc_header_size f in
    let page_rva := field buf 0 4 in
    let block_size := field buf 4 4 in
    if short reloc_header_size buf || (remaining_size <? block_size)
    then inr (Returns (false, f, pe))
    else
      let '(ok, f, entries) :=
        read_types_offsets (Z.to_nat (entry_count block_size)) f [] in
      if negb ok then inr (Returns (false, f, pe))
      else
        inl (u32 (remaining_size - block_size), f,
             with_relocations pe
               (_relocations pe ++ [mkReloc page_rva block_size entries])).

(** [PE::_parse_relocations], lines 468-502. *)
Definition _parse_relocations (fuel : nat) (f : FILE) (pe : PE)
  : outcome (bool * FILE * PE) :=
  '(reached, f, _) ← _reach_directory pe f IMAGE_DIRECTORY_ENTRY_BASERELOC;
  if negb reached then Returns (true, f, pe)
  else
    let remaining_size := Size (directory_slot pe IMAGE_DIRECTORY_ENTRY_BASERELOC) in
    loop relocations_body fuel (remaining_size, f, pe).

(** *** Thread local storage *)

(** [4*sizeof(uint64) + 2*sizeof(uint32)]: the structure without its
    trailing [Callbacks]. *)
Definition tls_size : Z := 4 * 8 + 2 * 4.

Definition is_pe32plus (pe : PE) : bool :=
  Magic (_ioh pe) =? IMAGE_OPTIONAL_HEADER_MAGIC_PE32plus.

(** Lines 515-525: the record is zeroed, then read in one pass (PE32+) or
    field by field at 4-byte width (PE32); no read is checked here. *)
Definition read_tls_record (f : FILE) (pe : PE) : FILE * PE :=
  let callbacks := Callbacks (_tls pe) in
  if is_pe32plus pe then
    let '(buf, f) := fread tls_size f in
    (f, with_tls pe
          (mkTls (field buf 0 8) (field buf 8 8) (field buf 16 8)
                 (field buf 24 8) (field buf 32 4) (field buf 36 4) callbacks))
  else
    let '(b1, f) := fread 4 f in
    let '(b2, f) := fread 4 f in
    let '(b3, f) := fread 4 f in
    let '(b4, f) := fread 4 f in
    let '(b5, f) := fread (2 * 4) f in
    (f, with_tls pe
          (mkTls (le_decode b1) (le_decode b2) (le_decode b3) (le_decode b4)
                 (field b5 0 4) (field b5 4 4) callbacks)).

Definition callback_size (pe : PE) : Z :=
  if is_pe32plus pe then 8 else 4.

(** [callback_address] after a read of [buf] into its low bytes. *)
Definition overlay (old : Z) (buf : list byte) : Z :=
  le_decode buf + 2 ^ (8 * Z.of_nat (length buf)) * (old / 2 ^ (8 * Z.of_nat (length buf))).

Definition with_callbacks (pe : PE) (callbacks : list Z) : PE :=
  let t := _tls pe in
  with_tls pe
    (mkTls (StartAddressOfRawData t) (EndAddressOfRawData t) (AddressOfIndex t)
           (AddressOfCallbacks t) (SizeOfZeroFill t) (tls_Characteristics t)
           callbacks).

(** [_tls.Callbacks.push_back(callback_address)] *)
Definition push_callback (pe : PE) (callback_address : Z) : PE :=
  with_callbacks pe (Callbacks (_tls pe) ++ [callback_address]).

(** Lines 543-549: the body of the [while (true)] loop, on
    [(callback_address, f, this)]; the [break] is followed by
    [return true]. *)
Definition callbacks_body (st : Z * FILE * PE)
  : (Z * FILE * PE) + outcome (bool * FILE * PE) :=
  let '(callback_address, f, pe) := st in
  let '(buf, f) := fread (callback_size pe) f in
  let callback_address := overlay callback_address buf in
  if short (callback_size pe) buf || (callback_address =? 0)
  then inr (Returns (true, f, pe))
  else inl (callback_address, f, push_callback pe callback_address).

(** [PE::_parse_tls], lines 506-551. *)
Definition _parse_tls (fuel : nat) (f : FILE) (pe : PE)
  : outcome (bool * FILE * PE) :=
  '(reached, f, _) ← _reach_directory pe f IMAGE_DIRECTORY_ENTRY_TLS;
  if negb reached then Returns (true, f, pe)
  else
    let '(f, pe) := read_tls_record f pe in
    if feof f || ferror f then Returns (false, f, pe)
    else
      let offset := _va_to_offset pe (AddressOfCallbacks (_tls pe)) in
      if offset =? 0 then Returns (false, f, pe)
      else
        let '(r, f) := fseek f offset SEEK_SET in
        if negb (r =? 0) then Returns (false, f, pe)
        else loop callbacks_body fuel (0, f, pe).

(** *** Attribute certificates *)

(** [sizeof(uint32) + 2*sizeof(uint16)] *)
Definition cert_header_size : Z := 4 + 2 * 2.

Definition unknown (value : Z) (table : list (string * Z)) : bool :=
  String.eqb (translate_to_flag value table) "UNKNOWN".

(** Lines 564-602: the test and the body of the [while] loop, on
    [(remaining_bytes, f, this)].  [Certificate] is resized to [Length]
    and filled from its start with the [Length - header_size] bytes
    read. *)
Definition certificates_body (st : Z * FILE * PE)
  : (Z * FILE * PE) + outcome (bool * FILE * PE) :=
  let '(remaining_bytes, f, pe) := st in
  if negb (cert_header_size <? remaining_bytes) then inr (Returns (true, f, pe))
  else
    let '(buf, f) := fread cert_header_size f in
    if short cert_header_size buf then inr (Returns (true, f, pe))
    else
      let cert_length := field buf 0 4 in
      let revision := field buf 4 2 in
      let certificate_type := field buf 6 2 in
      if unknown certificate_type WIN_CERTIFICATE_TYPES
         && unknown revision WIN_CERTIFICATE_REVISIONS
      then inr (Returns (true, f, pe))
      else if cert_length <? remaining_bytes then inr (Returns (false, f, pe))
      else
        let '(data, f) := fread (u32 (cert_length - cert_header_size)) f in
        if short (u32 (cert_length - cert_header_size)) data
        then inr (Returns (false, f, pe))
        else
          let remaining_bytes := u32 (remaining_bytes - cert_length) in
          let blob :=
            data ++ replicate (Z.to_nat (cert_length - Z.of_nat (length data))) x00 in
          let pe :=
            with_certificates pe
              (_certificates pe ++ [mkCert cert_length revision certificate_type blob]) in
          let padding := cert_length mod 8 in
          if negb (padding =? 0) && negb (remaining_bytes =? 0)
          then inl (u32 (remaining_bytes - padding), (fseek f padding SEEK_CUR).2, pe)
          else inl (remaining_bytes, f, pe).

(** [PE::_parse_certificates], lines 555-605.  The "VirtualAddress" of
    this slot is used as a file offset. *)
Definition _parse_certificates (fuel : nat) (f : FILE) (pe : PE)
  : outcome (bool * FILE * PE) :=
  let d := directory_slot pe IMAGE_DIRECTORY_ENTRY_SECURITY in
  if VirtualAddress d =? 0 then Returns (true, f, pe)
  else
    let '(r, f) := fseek f (VirtualAddress d) SEEK_SET in
    if negb (r =? 0) then Returns (true, f, pe)
    else loop certificates_body fuel (Size d, f, pe).

End Parsers.

(** ** The address translator as the specification words it *)

Section TranslatorSpec.
Context {E : Externals}.

Definition section_offset (section : Section) (rva : Z) : Z :=
  Z.land
    (u64 (u64 (rva - get_virtual_address section)
          + get_pointer_to_raw_data section))
    0xFFFFFFFF.

(** No sections: the address truncated to 32 bits.  Otherwise the first
    section that contains the address by its virtual size; if there is
    none, the first one that contains it by its raw-data size; if there
    is none either, 0. *)
Definition rva_to_offset_spec (pe : PE) (rva : Z) : Z :=
  match _sections pe with
  | [] => Z.land rva 0xFFFFFFFF
  | _ =>
      match List.find (fun s => is_address_in_section rva s false) (_sections pe) with
      | Some section => section_offset section rva
      | None =>
          match List.find (fun s => is_address_in_section rva s true) (_sections pe) with
          | Some section => section_offset section rva
          | None => 0
          end
      end
  end.

End TranslatorSpec.

(** ** An implementation of the external functions *)

(** Modelled from the spec: [utils::is_address_in_section] is not in
    pe.cpp; a section contains an address when the address lies in the
    range that starts at the section's virtual address and spans its
    virtual size, or its raw-data size in the second scan. *)
Definition modelled_is_address_in_section (rva : Z) (section : Section)
    (check_raw_size : bool) : bool :=
  let size :=
    if check_raw_size then get_size_of_raw_data section
    else get_virtual_size section in
  (get_virtual_address section <=? rva)
  && (rva <? get_virtual_address section + size).

Fixpoint read_ascii_string (bs : list byte) : list byte :=
  match bs with
  | [] => []
  | b :: rest =>
      if Byte.eqb b x00 then [] else b :: read_ascii_string rest
  end.

(** Modelled from the spec: [utils::read_string_at_offset] is not in
    pe.cpp; it resolves the string stored at a file offset and fails when
    the offset cannot be reached.  The read position is put back. *)
Definition modelled_read_string_at_offset (f : FILE) (offset : Z) (out : string)
  : bool * string * FILE :=
  let '(r, f') := fseek f offset SEEK_SET in
  if r =? 0 then
    (true, string_of_list_byte (read_ascii_string (stream f')),
     (fseek f' (Z.of_N (position f)) SEEK_SET).2)
  else (false, out, f).

(** Modelled from the spec: the tables of nt_values are not in pe.cpp;
    the known certificate types and revisions are those of the PE
    format. *)
Definition modelled_certificate_types : list (string * Z) :=
  [("WIN_CERT_TYPE_X509"%string, 1);
   ("WIN_CERT_TYPE_PKCS_SIGNED_DATA"%string, 2);
   ("WIN_CERT_TYPE_RESERVED_1"%string, 3);
   ("WIN_CERT_TYPE_TS_STACK_SIGNED"%string, 4)].

Definition modelled_certificate_revisions : list (string * Z) :=
  [("WIN_CERT_REVISION_1_0"%string, 0x0100);
   ("WIN_CERT_REVISION_2_0"%string, 0x0200)].

(** A runtime that gives every array of less than 4 GiB and no larger
    one. *)
Definition modelled_allocates (bytes : Z) : bool := bytes <? 2 ^ 32.

Definition modelled : Externals :=
  {| is_address_in_section := modelled_is_address_in_section;
     read_string_at_offset := modelled_read_string_at_offset;
     WIN_CERTIFICATE_TYPES := modelled_certificate_types;
     WIN_CERTIFICATE_REVISIONS := modelled_certificate_revisions;
     allocates := modelled_allocates |}.

(** ** Directory images, as their fields lay them out on disk *)

Definition encode_values (w : nat) (values : list Z) : list byte :=
  concat (map (le_encode w) values).

Definition encode_block (b : image_base_relocation) : list byte :=
  le_encode 4 (PageRVA b) ++ le_encode 4 (BlockSize b)
  ++ encode_values 2 (TypesOffsets b).

Definition encode_blocks (blocks : list image_base_relocation) : list byte :=
  concat (map encode_block blocks).

(** A block as a well-formed file declares it: its fields fit their
    width and it carries the entries its size announces. *)
Definition wf_block (b : image_base_relocation) : Prop :=
  0 <= PageRVA b < 2 ^ 32
  /\ 0 < BlockSize b < 2 ^ 32
  /\ Z.of_nat (length (TypesOffsets b)) = entry_count (BlockSize b)
  /\ Forall (fun e => 0 <= e < 2 ^ 16) (TypesOffsets b).

Definition sum_sizes (blocks : list image_base_relocation) : Z :=
  foldr (fun b acc => BlockSize b + acc) 0 blocks.

(** A block whose entries are as many as its size announces. *)
Definition complete_block (b : image_base_relocation) : Prop :=
  Z.of_nat (length (TypesOffsets b)) = entry_count (BlockSize b).

Definition named (ex : exported_function) : bool :=
  negb (String.eqb (Name ex) EmptyString).

(** The number of exported functions with a non-empty [Name]. *)
Definition count_named (exports : list exported_function) : nat :=
  length (filter (fun ex => named ex = true) exports).

Definition encode_ied (ied : image_export_directory) : list byte :=
  le_encode 4 (ied_Characteristics ied) ++ le_encode 4 (ied_TimeDateStamp ied)
  ++ le_encode 2 (ied_MajorVersion ied) ++ le_encode 2 (ied_MinorVersion ied)
  ++ le_encode 4 (ied_Name ied) ++ le_encode 4 (Base ied)
  ++ le_encode 4 (NumberOfFunctions ied) ++ le_encode 4 (NumberOfNames ied)
  ++ le_encode 4 (AddressOfFunctions ied) ++ le_encode 4 (AddressOfNames ied)
  ++ le_encode 4 (AddressOfNameOrdinals ied).

Definition encode_certificate (c : win_certificate) : list byte :=
  le_encode 4 (Length c) ++ le_encode 2 (Revision c)
  ++ le_encode 2 (CertificateType c) ++ Certificate c.

(** [bs] followed by zeros up to [n] bytes. *)
Definition pad_to (n : nat) (bs : list byte) : list byte :=
  bs ++ replicate (n - length bs) x00.

(** What makes an iteration fail: the stream ends inside the 8-byte
    header, or the header declares more than the remaining size, or the
    stream ends before the last entry of the block. *)
Definition bad_block (remaining : Z) (tail : list byte) : Prop :=
  (length tail < 8)%nat
  \/ exists page block_size rest,
      tail = le_encode 4 page ++ le_encode 4 block_size ++ rest
      /\ 0 <= page < 2 ^ 32 /\ 0 <= block_size < 2 ^ 32
      /\ (remaining < block_size
          \/ Z.of_nat (length rest) < 2 * entry_count block_size).

(** Entry [i] of the list carries the ordinal [base + i], on 32 bits. *)
Definition ordinals_from (base : Z) (exports : list exported_function) : Prop :=
  forall (i : nat) (ex : exported_function),
    exports !! i = Some ex -> Ordinal ex = u32 (base + Z.of_nat i).

(** The name-ordinal table of the export directory that [pe] holds, as
    the file stores it. *)
Definition name_ordinals {E : Externals} (f : FILE) (pe : PE) : list Z :=
  decode_table 2 (Z.to_nat (NumberOfNames (_ied pe)))
    (drop (Z.to_nat (_rva_to_offset pe (AddressOfNameOrdinals (_ied pe))))
          (contents f)).

(** The file is opened for reading: resolving a string does not write
    to it. *)
Definition keeps_contents (E : Externals) : Prop :=
  forall (f : FILE) (offset : Z) (out : string),
    contents (read_string_at_offset f offset out).2 = contents f.

(** ** Sample images

    The samples have no section, so that an RVA is its own file offset,
    and their directory starts at offset 0x10. *)

Definition zero_ied : image_export_directory :=
  mkIed 0 0 0 0 0 0 0 0 0 0 0 EmptyString.
Definition zero_tls : image_tls_directory := mkTls 0 0 0 0 0 0 [].

Definition sample_pe (magic : Z) (sections : list Section)
    (dirs : list image_data_directory) : PE :=
  mkPE (mkIoh magic 0x400000 dirs) sections zero_ied [] [] zero_tls [].

Definition sample_file (image : list byte) : FILE :=
  mkFILE image 0 false (2 ^ 63 - 1).

(** An export directory at 0x10 with its module name at 0x38, the function
    addresses at 0x40, the name RVAs at 0x50, the name ordinals at 0x60 and
    the names in 8-byte cells from 0x68 on. *)
Definition export_image (base : Z) (functions ords : list Z)
    (names : list string) : list byte :=
  replicate 16 x00
  ++ encode_ied
       (mkIed 0 0 0 0 0x38 base (Z.of_nat (length functions))
              (Z.of_nat (length names)) 0x40 0x50 0x60 EmptyString)
  ++ pad_to 8 (list_byte_of_string "a.dll")
  ++ pad_to 16 (encode_values 4 functions)
  ++ pad_to 16 (encode_values 4 (imap (fun i _ => 0x68 + 8 * Z.of_nat i) names))
  ++ pad_to 8 (encode_values 2 ords)
  ++ concat (map (fun s => pad_to 8 (list_byte_of_string s)) names).

Definition export_pe : PE :=
  sample_pe IMAGE_OPTIONAL_HEADER_MAGIC_PE32 [] [mkDir 0x10 40].

(** Two functions, two names, both name ordinals 0. *)
Definition shared_ordinal_file : FILE :=
  sample_file (export_image 1 [0x1000; 0x2000] [0; 0] ["f"; "g"]%string).

(** Two functions, one name for the second one. *)
Definition one_name_file : FILE :=
  sample_file (export_image 1 [0x1000; 0x2000] [1] ["g"]%string).

(** One function, one name whose ordinal entry is 1: one past the last
    index of the function list. *)
Definition ordinal_past_end_file : FILE :=
  sample_file (export_image 1 [0x1000] [1] ["f"]%string).

(** One section whose virtual size (0x10) undershoots its raw size
    (0x200). *)
Definition undershoot_pe : PE :=
  sample_pe IMAGE_OPTIONAL_HEADER_MAGIC_PE32
            [mkSection 0x1000 0x10 0x400 0x200] [].

Definition sample_blocks : list image_base_relocation :=
  [mkReloc 0x1000 12 [0x3001; 0x3004]; mkReloc 0x2000 10 [0x3008]].

Definition reloc_file : FILE :=
  sample_file (replicate 16 x00 ++ encode_blocks sample_blocks).

(** The relocation directory at 0x10, of declared size [size]. *)
Definition reloc_pe (size : Z) : PE :=
  sample_pe IMAGE_OPTIONAL_HEADER_MAGIC_PE32 []
            (replicate 5 zero_directory ++ [mkDir 0x10 size]).

(** A PE32 TLS directory at 0x10 whose callback table is at 0x30. *)
Definition tls_image (callbacks : list byte) : list byte :=
  replicate 16 x00
  ++ encode_values 4 [0x401000; 0x401100; 0x402000; 0x400030; 0; 0]
  ++ pad_to 8 []
  ++ callbacks.

Definition tls_pe : PE :=
  sample_pe IMAGE_OPTIONAL_HEADER_MAGIC_PE32 []
            (replicate 9 zero_directory ++ [mkDir 0x10 24]).

Definition tls_file : FILE :=
  sample_file (tls_image (encode_values 4 [0x401000; 0x402000; 0; 0x403000])).

(** The same table cut in the middle of its second value. *)
Definition tls_truncated_file : FILE :=
  sample_file (tls_image (encode_values 4 [0x401000] ++ [x00; x20])).

(** Two certificates back to back at file offset 0x10: 12 bytes, 4 bytes
    of padding, 10 bytes, 6 bytes of padding; the directory declares the
    32 bytes. *)
Definition first_certificate : win_certificate :=
  mkCert 12 0x0200 2 [x01; x02; x03; x04].
Definition second_certificate : win_certificate :=
  mkCert 10 0x0200 2 [x05; x06].

Definition two_certificates_file : FILE :=
  sample_file
    (replicate 16 x00
     ++ pad_to 16 (encode_certificate first_certificate)
     ++ pad_to 16 (encode_certificate second_certificate)).

Definition two_certificates_pe : PE :=
  sample_pe IMAGE_OPTIONAL_HEADER_MAGIC_PE32 []
            (replicate 4 zero_directory ++ [mkDir 0x10 32]).

(** One certificate of 24 bytes in a directory that declares 16. *)
Definition oversized_certificate_file : FILE :=
  sample_file
    (replicate 16 x00
     ++ encode_certificate (mkCert 24 0x0200 2 (replicate 16 x07))).

Definition oversized_certificate_pe : PE :=
  sample_pe IMAGE_OPTIONAL_HEADER_MAGIC_PE32 []
            (replicate 4 zero_directory ++ [mkDir 0x10 16]).

(** One certificate of 24 bytes that fills the directory. *)
Definition single_certificate_file : FILE :=
  sample_file
    (replicate 16 x00
     ++ encode_certificate (mkCert 24 0x0200 2 (replicate 16 x07))).

Definition single_certificate_pe : PE :=
  sample_pe IMAGE_OPTIONAL_HEADER_MAGIC_PE32 []
            (replicate 4 zero_directory ++ [mkDir 0x10 24]).

(** A PE32+ TLS directory at 0x10 whose callback table is at 0x40. *)
Definition tls64_file : FILE :=
  sample_file
    (replicate 16 x00
     ++ encode_values 8 [0x401000; 0x401100; 0x402000; 0x400040]
     ++ encode_values 4 [0; 0]
     ++ pad_to 8 []
     ++ encode_values 8 [0x100401000; 0; 0x403000]).

Definition tls64_pe : PE :=
  sample_pe IMAGE_OPTIONAL_HEADER_MAGIC_PE32plus []
            (replicate 9 zero_directory ++ [mkDir 0x10 40]).

(** The parts of what a call returned; [pe] and [f] stand in when it did
    not return. *)
Definition returned_object (o : outcome (bool * FILE * PE)) (pe : PE) : PE :=
  match o with
  | Returns (_, _, pe') => pe'
  | _ => pe
  end.

Definition returned_file (o : outcome (bool * FILE * PE)) (f : FILE) : FILE :=
  match o with
  | Returns (_, f', _) => f'
  | _ => f
  end.

(** Introduces the equation of two returned triples and replaces the
    right-hand side by the left one. *)
Ltac returned :=
  let H := fresh "Hret" in
  intros H; injection H as <- <- <-.

(** ** The headers and the section table

    The structures [dos_header], [pe_header] and [image_section_header]
    are held as the bytes read into them: a structure that was zeroed and
    then filled by a short read is the bytes read, and a byte that was
    not read counts 0. *)

(** Modelled from the spec: [sizeof(_h_dos)]; the DOS header has 64
    bytes. *)
Definition dos_header_size : Z := 64.

(** Modelled from the spec: [sizeof(pe_header)]; the record that starts
    with the 4-byte signature has the 24 bytes of the PE format. *)
Definition pe_header_size : Z := 24.

(** Modelled from the spec: [sizeof(image_section_header)]; a section
    record has the 40 bytes of the PE format. *)
Definition section_header_size : Z := 40.

(** [h.e_magic[i]], [h.Signature[i]]: a byte of a structure. *)
Definition byte_at (h : list byte) (i : nat) : byte := default x00 (h !! i).

(** Modelled from the spec: [e_lfanew], the offset of the PE header, is
    the last field of the DOS header, 32 bits wide and unsigned. *)
Definition e_lfanew (h_dos : list byte) : Z := field h_dos 60 4.

(** Modelled from the spec: the section count and the optional-header
    size of the PE header, 16-bit fields at the offsets of the PE
    format. *)
Definition NumberofSections (h_pe : list byte) : Z := field h_pe 6 2.
Definition SizeOfOptionalHeader (h_pe : list byte) : Z := field h_pe 20 2.

(** [PE::get_filesize], lines 87-103.  [disk] is what [fopen(_path)]
    finds, [size] is the member [_size], -1 until a size is known; the
    result is the size returned and the member afterwards. *)
Definition get_filesize (disk : option (list byte)) (size : Z) : Z * Z :=
  if negb (size =? -1) then (size, size)
  else
    match disk with
    | None => (0, size)
    | Some image =>
        let res := Z.of_nat (length image) in
        (res, res)
    end.

(** [PE::_parse_dos_header], lines 107-127: the flag, the stream, [_h_dos]
    and [_size] afterwards. *)
Definition _parse_dos_header (disk : option (list byte)) (f : FILE) (size : Z)
  : bool * FILE * list byte * Z :=
  let '(filesize, size) := get_filesize disk size in
  if filesize <? dos_header_size then (false, f, [], size)
  else
    let '(buf, f) := fread dos_header_size f in
    if short dos_header_size buf then (false, f, buf, size)
    else if negb (Byte.eqb (byte_at buf 0) x4d) || negb (Byte.eqb (byte_at buf 1) x5a)
    then (false, f, buf, size)
    else (true, f, buf, size).

(** [PE::_parse_pe_header], lines 131-150: the flag, the stream and
    [_h_pe] afterwards. *)
Definition _parse_pe_header (h_dos : list byte) (f : FILE)
  : bool * FILE * list byte :=
  let '(r, f) := fseek f (e_lfanew h_dos) SEEK_SET in
  if negb (r =? 0) then (false, f, [])
  else
    let '(buf, f) := fread pe_header_size f in
    if short pe_header_size buf then (false, f, buf)
    else if negb (Byte.eqb (byte_at buf 0) x50) || negb (Byte.eqb (byte_at buf 1) x45)
            || negb (Byte.eqb (byte_at buf 2) x00) || negb (Byte.eqb (byte_at buf 3) x00)
    then (false, f, buf)
    else (true, f, buf).

(** Modelled from the spec: the members of [image_optional_header] that
    [image_optional_header] above does not carry.  The first 0x18 bytes
    (from [Magic] on) and the 0x28 bytes from [SectionAlignment] on are
    kept as they are read; the four sizes are 64-bit members, the two
    fields after them 32-bit ones. *)
Record optional_header_fields := mkFields {
  ioh_prefix : list byte;
  BaseOfData : Z;
  ioh_common : list byte;
  SizeofStackReserve : Z;
  SizeofStackCommit : Z;
  SizeofHeapReserve : Z;
  SizeofHeapCommit : Z;
  LoaderFlags : Z;
  NumberOfRvaAndSizes : Z
}.

Definition zero_fields : optional_header_fields := mkFields [] 0 [] 0 0 0 0 0 0.
Definition zero_ioh : image_optional_header := mkIoh 0 0 [].

(** Lines 183-199: [BaseOfData] and [ImageBase], by the shape. *)
Definition read_image_base (magic : Z) (f : FILE) : bool * FILE * Z * Z :=
  if magic =? IMAGE_OPTIONAL_HEADER_MAGIC_PE32 then
    let '(b1, f) := fread 4 f in
    if short 4 b1 then (false, f, le_decode b1, 0)
    else
      let '(b2, f) := fread 4 f in
      (negb (short 4 b2), f, le_decode b1, le_decode b2)
  else
    let '(b, f) := fread 8 f in
    (negb (short 8 b), f, 0, le_decode b).

(** Lines 210-231: the four sizes, [LoaderFlags] and
    [NumberOfRvaAndSizes]; one checked read of 40 bytes for PE32+, six
    unchecked reads of 4 bytes and a test of the stream for PE32. *)
Definition read_sizes (magic : Z) (f : FILE)
  : bool * FILE * (Z * Z * Z * Z * Z * Z) :=
  if magic =? IMAGE_OPTIONAL_HEADER_MAGIC_PE32plus then
    let '(b, f) := fread 40 f in
    (negb (short 40 b), f,
     (field b 0 8, field b 8 8, field b 16 8, field b 24 8,
      field b 32 4, field b 36 4))
  else
    let '(b1, f) := fread 4 f in
    let '(b2, f) := fread 4 f in
    let '(b3, f) := fread 4 f in
    let '(b4, f) := fread 4 f in
    let '(b5, f) := fread 4 f in
    let '(b6, f) := fread 4 f in
    (negb (feof f || ferror f), f,
     (le_decode b1, le_decode b2, le_decode b3, le_decode b4,
      le_decode b5, le_decode b6)).

(** Lines 240-247: the loop over the directory entries. *)
Fixpoint read_directories (count : nat) (f : FILE)
    (dirs : list image_data_directory)
  : bool * FILE * list image_data_directory :=
  match count with
  | O => (true, f, dirs)
  | Datatypes.S count' =>
      let '(buf, f) := fread 8 f in
      let dirs := dirs ++ [mkDir (field buf 0 4) (field buf 4 4)] in
      if short 8 buf then (false, f, dirs)
      else read_directories count' f dirs
  end.

(** [PE::_parse_image_optional_header], lines 154-250: the flag, the
    stream and [_ioh] afterwards, in its two records. *)
Definition _parse_image_optional_header (h_dos h_pe : list byte) (f : FILE)
  : bool * FILE * image_optional_header * optional_header_fields :=
  if SizeOfOptionalHeader h_pe =? 0 then (true, f, zero_ioh, zero_fields)
  else
    let '(r, f) := fseek f (e_lfanew h_dos + pe_header_size) SEEK_SET in
    if negb (r =? 0) then (false, f, zero_ioh, zero_fields)
    else
      let '(prefix, f) := fread 0x18 f in
      let magic := field prefix 0 2 in
      if short 0x18 prefix
      then (false, f, mkIoh magic 0 [], mkFields prefix 0 [] 0 0 0 0 0 0)
      else if negb (magic =? IMAGE_OPTIONAL_HEADER_MAGIC_PE32)
              && negb (magic =? IMAGE_OPTIONAL_HEADER_MAGIC_PE32plus)
      then (false, f, mkIoh magic 0 [], mkFields prefix 0 [] 0 0 0 0 0 0)
      else
        let '(ok, f, base_of_data, image_base) := read_image_base magic f in
        if negb ok
        then (false, f, mkIoh magic image_base [],
              mkFields prefix base_of_data [] 0 0 0 0 0 0)
        else
          let '(common, f) := fread 0x28 f in
          if short 0x28 common
          then (false, f, mkIoh magic image_base [],
                mkFields prefix base_of_data common 0 0 0 0 0 0)
          else
            let '(ok, f, (s1, s2, s3, s4, flags, count)) := read_sizes magic f in
            let fields := mkFields prefix base_of_data common s1 s2 s3 s4 flags count in
            if negb ok then (false, f, mkIoh magic image_base [], fields)
            else
              let '(ok, f, dirs) :=
                read_directories (Z.to_nat (Z.min count 0x10)) f [] in
              (ok, f, mkIoh magic image_base dirs, fields).

(** The constructor of [Section] is not in pe.cpp: the section table is
    loaded over any constructor, given the 40 bytes of a record. *)
Class SectionConstructor := {
  new_Section : list byte -> Section
}.

Definition with_sections (pe : PE) (x : list Section) : PE :=
  mkPE (_ioh pe) x (_ied pe) (_exports pe) (_relocations pe) (_tls pe)
       (_certificates pe).
Definition with_ioh (pe : PE) (x : image_optional_header) : PE :=
  mkPE x (_sections pe) (_ied pe) (_exports pe) (_relocations pe) (_tls pe)
       (_certificates pe).

(** Lines 263-273: the loop over the section records. *)
Fixpoint read_sections {S : SectionConstructor} (count : nat) (f : FILE) (pe : PE)
  : bool * FILE * PE :=
  match count with
  | O => (true, f, pe)
  | Datatypes.S count' =>
      let '(buf, f) := fread section_header_size f in
      if short section_header_size buf then (false, f, pe)
      else
        read_sections count' f
          (with_sections pe (_sections pe ++ [new_Section buf]))
  end.

(** [PE::_parse_section_table], lines 254-276. *)
Definition _parse_section_table {S : SectionConstructor} (h_dos h_pe : list byte)
    (f : FILE) (pe : PE) : bool * FILE * PE :=
  let '(r, f) :=
    fseek f (e_lfanew h_dos + pe_header_size + SizeOfOptionalHeader h_pe) SEEK_SET in
  if negb (r =? 0) then (false, f, pe)
  else read_sections (Z.to_nat (NumberofSections h_pe)) f pe.

(** The import, resource and debug parsers are defined in other files:
    [_parse_directories] is written over any implementation of them.
    They fill members that [PE] above does not carry, and give their
    flag and the stream afterwards. *)
Class Collaborators := {
  _parse_imports : FILE -> PE -> outcome (bool * FILE);
  _parse_resources : FILE -> PE -> outcome (bool * FILE);
  _parse_debug : FILE -> PE -> outcome (bool * FILE)
}.

(** [PE::_parse_directories], lines 354-363: the conjunction stops at the
    first parser that returns false. *)
Definition _parse_directories {E : Externals} {C : Collaborators}
    (fuel : nat) (f : FILE) (pe : PE) : outcome (bool * FILE * PE) :=
  '(ok, f) ← _parse_imports f pe;
  if negb ok then Returns (false, f, pe)
  else
    '(ok, f, pe) ← _parse_exports f pe;
    if negb ok then Returns (false, f, pe)
    else
      '(ok, f) ← _parse_resources f pe;
      if negb ok then Returns (false, f, pe)
      else
        '(ok, f) ← _parse_debug f pe;
        if negb ok then Returns (false, f, pe)
        else
          '(ok, f, pe) ← _parse_relocations fuel f pe;
          if negb ok then Returns (false, f, pe)
          else
            '(ok, f, pe) ← _parse_tls fuel f pe;
            if negb ok then Returns (false, f, pe)
            else _parse_certificates fuel f pe.

(** The object after construction: the headers, the cached size, the
    flag, and the members of [PE]. *)
Record image := mkImage {
  _h_dos : list byte;
  _h_pe : list byte;
  _ioh_fields : optional_header_fields;
  _size : Z;
  _initialized : bool;
  members : PE
}.

(** The members before any parser has run: the containers are empty (the
    structures are not initialized by the constructor; they read as
    zero here). *)
Definition fresh_PE : PE := mkPE zero_ioh [] zero_ied [] [] zero_tls [].

(** [PE::PE], lines 22-57.  [disk] is what [fopen(_path)] finds and
    [limit] the largest offset its stream accepts. *)
Definition PE_new {E : Externals} {S : SectionConstructor} {C : Collaborators}
    (disk : option (list byte)) (limit : Z) (fuel : nat) : outcome image :=
  match disk with
  | None => Returns (mkImage [] [] zero_fields (-1) false fresh_PE)
  | Some bytes =>
      let f := mkFILE bytes 0 false limit in
      let '(ok, f, h_dos, size) := _parse_dos_header disk f (-1) in
      if negb ok then Returns (mkImage h_dos [] zero_fields size false fresh_PE)
      else
        let '(ok, f, h_pe) := _parse_pe_header h_dos f in
        if negb ok then Returns (mkImage h_dos h_pe zero_fields size false fresh_PE)
        else
          let '(ok, f, ioh, fields) := _parse_image_optional_header h_dos h_pe f in
          let pe := with_ioh fresh_PE ioh in
          if negb ok then Returns (mkImage h_dos h_pe fields size false pe)
          else
            let '(ok, f, pe) := _parse_section_table h_dos h_pe f pe in
            if negb ok then Returns (mkImage h_dos h_pe fields size false pe)
            else
              '(ok, f, pe) ← _parse_directories fuel f pe;
              Returns (mkImage h_dos h_pe fields size ok pe)
  end.

(** ** Header images, as their fields lay them out on disk *)

Definition encode_directory (d : image_data_directory) : list byte :=
  le_encode 4 (VirtualAddress d) ++ le_encode 4 (Size d).

(** The width of [ImageBase] and of the four sizes, by the shape. *)
Definition shape_width (magic : Z) : nat :=
  if magic =? IMAGE_OPTIONAL_HEADER_MAGIC_PE32plus then 8%nat else 4%nat.

(** An optional header on disk: the 0x18 bytes that start with [Magic],
    [BaseOfData] (PE32 only), [ImageBase], the 0x28 common bytes, the
    four sizes, [LoaderFlags], [NumberOfRvaAndSizes] and the directory
    entries. *)
Definition encode_optional_header (ioh : image_optional_header)
    (x : optional_header_fields) : list byte :=
  ioh_prefix x
  ++ (if Magic ioh =? IMAGE_OPTIONAL_HEADER_MAGIC_PE32
      then le_encode 4 (BaseOfData x) else [])
  ++ le_encode (shape_width (Magic ioh)) (ImageBase ioh)
  ++ ioh_common x
  ++ encode_values (shape_width (Magic ioh))
       [SizeofStackReserve x; SizeofStackCommit x; SizeofHeapReserve x;
        SizeofHeapCommit x]
  ++ le_encode 4 (LoaderFlags x)
  ++ le_encode 4 (NumberOfRvaAndSizes x)
  ++ concat (map encode_directory (directories ioh)).

(** An optional header whose fields fit their width and that carries as
    many directory entries as it declares, 16 at most. *)
Definition wf_optional_header (ioh : image_optional_header)
    (x : optional_header_fields) : Prop :=
  length (ioh_prefix x) = 24%nat
  /\ field (ioh_prefix x) 0 2 = Magic ioh
  /\ (Magic ioh = IMAGE_OPTIONAL_HEADER_MAGIC_PE32
      \/ Magic ioh = IMAGE_OPTIONAL_HEADER_MAGIC_PE32plus)
  /\ length (ioh_common x) = 40%nat
  /\ Forall (fun v => 0 <= v < 256 ^ Z.of_nat (shape_width (Magic ioh)))
       [ImageBase ioh; SizeofStackReserve x; SizeofStackCommit x;
        SizeofHeapReserve x; SizeofHeapCommit x]
  /\ (if Magic ioh =? IMAGE_OPTIONAL_HEADER_MAGIC_PE32
      then 0 <= BaseOfData x < 2 ^ 32 else BaseOfData x = 0)
  /\ 0 <= LoaderFlags x < 2 ^ 32
  /\ 0 <= NumberOfRvaAndSizes x < 2 ^ 32
  /\ Z.of_nat (length (directories ioh)) = Z.min (NumberOfRvaAndSizes x) 0x10
  /\ Forall (fun d => 0 <= VirtualAddress d < 2 ^ 32 /\ 0 <= Size d < 2 ^ 32)
       (directories ioh).

(** ** Conditions on a directory and on what a parser appends *)

(** A directory that [_reach_directory] does not reach: its address is
    0, or the address translates to the sentinel 0, or the translated
    offset lies beyond what the stream accepts. *)
Definition unreachable {E : Externals} (pe : PE) (f : FILE) (slot : Z) : Prop :=
  let d := directory_slot pe slot in
  VirtualAddress d = 0
  \/ _rva_to_offset pe (VirtualAddress d) = 0
  \/ seek_limit f < _rva_to_offset pe (VirtualAddress d).

(** An exported function whose address is a 32-bit value and that has a
    forward name only when its address lies strictly inside the export
    directory [d]. *)
Definition forwarder_in_directory (d : image_data_directory)
    (ex : exported_function) : Prop :=
  0 <= Address ex < 2 ^ 32
  /\ (ForwardName ex <> EmptyString ->
      VirtualAddress d < Address ex < u32 (VirtualAddress d + Size d)).

(** A certificate as the loop stores it: [Certificate] has [Length]
    bytes, of which the last 8 (the size of the header, which is not
    part of the payload read) are 0. *)
Definition stored_certificate (c : win_certificate) : Prop :=
  cert_header_size < Length c < 2 ^ 32
  /\ length (Certificate c) = Z.to_nat (Length c)
  /\ drop (Z.to_nat (Length c - cert_header_size)) (Certificate c)
     = replicate 8 x00
  /\ 0 <= Revision c < 2 ^ 16
  /\ 0 <= CertificateType c < 2 ^ 16.

(** A TLS directory on disk: four addresses of the pointer width [w],
    then two 32-bit fields. *)
Definition encode_tls (w : nat) (t : image_tls_directory) : list byte :=
  encode_values w
    [StartAddressOfRawData t; EndAddressOfRawData t; AddressOfIndex t;
     AddressOfCallbacks t]
  ++ le_encode 4 (SizeOfZeroFill t) ++ le_encode 4 (tls_Characteristics t).

Definition wf_tls (w : nat) (t : image_tls_directory) : Prop :=
  Forall (fun v => 0 <= v < 256 ^ Z.of_nat w)
    [StartAddressOfRawData t; EndAddressOfRawData t; AddressOfIndex t;
     AddressOfCallbacks t]
  /\ 0 <= SizeOfZeroFill t < 2 ^ 32
  /\ 0 <= tls_Characteristics t < 2 ^ 32.

(** The pointer width of the image, in bytes. *)
Definition pointer_width (pe : PE) : nat :=
  if is_pe32plus pe then 8%nat else 4%nat.

(** [t] with the callback list of [pe]: what [read_tls_record] stores. *)
Definition keep_callbacks (pe : PE) (t : image_tls_directory)
  : image_tls_directory :=
  mkTls (StartAddressOfRawData t) (EndAddressOfRawData t) (AddressOfIndex t)
        (AddressOfCallbacks t) (SizeOfZeroFill t) (tls_Characteristics t)
        (Callbacks (_tls pe)).

(** An address that the function loop does not take for a forwarder:
    it is not strictly inside the export directory [d]. *)
Definition plain_address (d : image_data_directory) (a : Z) : Prop :=
  0 <= a < 2 ^ 32
  /\ ~ (VirtualAddress d < a < u32 (VirtualAddress d + Size d)).

(** The functions that the loop appends for a table of plain addresses,
    numbered from [base + i] on. *)
Definition plain_exports (base i : Z) (addresses : list Z)
  : list exported_function :=
  imap (fun k a => mkExport a (u32 (base + (i + Z.of_nat k))) EmptyString EmptyString)
       addresses.

(** What [_parse_directories] needs of the parsers of the other files:
    each returns, and does not write to the file. *)
Definition return_and_keep_contents (C : Collaborators) : Prop :=
  forall (f : FILE) (pe : PE),
    (exists ok f', _parse_imports f pe = Returns (ok, f') /\ contents f' = contents f)
    /\ (exists ok f', _parse_resources f pe = Returns (ok, f') /\ contents f' = contents f)
    /\ (exists ok f', _parse_debug f pe = Returns (ok, f') /\ contents f' = contents f).

(** The contract of the parsers of the other files on an image without
    directories: the absence of a directory is a success. *)
Definition succeed_without_directory (C : Collaborators) : Prop :=
  forall (f : FILE) (pe : PE),
    directories (_ioh pe) = [] ->
    (exists f', _parse_imports f pe = Returns (true, f'))
    /\ (exists f', _parse_resources f pe = Returns (true, f'))
    /\ (exists f', _parse_debug f pe = Returns (true, f')).

(** ** Sample headers and images *)

(** A DOS header whose [e_lfanew] is [lfanew]. *)
Definition sample_dos_header (lfanew : Z) : list byte :=
  [x4d; x5a] ++ replicate 58 x00 ++ le_encode 4 lfanew.

(** A PE header that declares [sections] sections and an optional header
    of [optional] bytes. *)
Definition sample_pe_header (sections optional : Z) : list byte :=
  [x50; x45; x00; x00] ++ le_encode 2 0x14c ++ le_encode 2 sections
  ++ replicate 12 x00 ++ le_encode 2 optional ++ le_encode 2 0x102.

(** A PE32 optional header of 112 bytes with two directory entries. *)
Definition sample_ioh : image_optional_header :=
  mkIoh IMAGE_OPTIONAL_HEADER_MAGIC_PE32 0x400000 [mkDir 0 0; mkDir 0x2000 0x40].

Definition sample_fields : optional_header_fields :=
  mkFields (le_encode 2 IMAGE_OPTIONAL_HEADER_MAGIC_PE32 ++ replicate 22 x00)
           0x3000 (replicate 40 x00) 0x100000 0x1000 0x100000 0x1000 0 2.

(** A PE32+ optional header of 120 bytes with one directory entry; its
    image base does not fit 32 bits. *)
Definition sample_ioh64 : image_optional_header :=
  mkIoh IMAGE_OPTIONAL_HEADER_MAGIC_PE32plus 0x140000000 [mkDir 0 0].

Definition sample_fields64 : optional_header_fields :=
  mkFields (le_encode 2 IMAGE_OPTIONAL_HEADER_MAGIC_PE32plus ++ replicate 22 x00)
           0 (replicate 40 x00) 0x100000 0x1000 0x100000 0x1000 0 1.

(** A section record of the PE format: the name, then the virtual size,
    the virtual address, the raw size and the raw pointer, then 16 bytes
    that the translator does not read. *)
Definition sample_section_record (va vsize ptr rsize : Z) : list byte :=
  replicate 8 x00 ++ le_encode 4 vsize ++ le_encode 4 va
  ++ le_encode 4 rsize ++ le_encode 4 ptr ++ replicate 16 x00.

(** Modelled from the spec: the constructor of [Section] is not in
    pe.cpp; a section carries the four fields that the translator reads,
    taken at their offsets in the record of the PE format. *)
Definition section_of_record : SectionConstructor :=
  {| new_Section buf :=
       mkSection (field buf 12 4) (field buf 8 4) (field buf 20 4) (field buf 16 4) |}.

(** Modelled from the spec: the import, resource and debug parsers are
    not in pe.cpp; on an image that has none of their directories they
    succeed and leave the stream where it is. *)
Definition absent_collaborators : Collaborators :=
  {| _parse_imports f pe := Returns (true, f);
     _parse_resources f pe := Returns (true, f);
     _parse_debug f pe := Returns (true, f) |}.

(** A PE32 image: the DOS header, the PE header at 64, the optional
    header at 88 and one section record at 200. *)
Definition sample_image : list byte :=
  sample_dos_header 64 ++ sample_pe_header 1 112
  ++ encode_optional_header sample_ioh sample_fields
  ++ sample_section_record 0x1000 0x100 0x200 0x100.

(** A PE32+ image without sections. *)
Definition sample_image64 : list byte :=
  sample_dos_header 64 ++ sample_pe_header 0 120
  ++ encode_optional_header sample_ioh64 sample_fields64.

(** The same image as [sample_image], cut inside its section record. *)
Definition truncated_image : list byte := take 220 sample_image.

(** An image of headers only: no optional header, no section. *)
Definition headers_only_image : list byte :=
  sample_dos_header 64 ++ sample_pe_header 0 0.

(** What the constructor returned; the object without a file stands in
    when it did not return. *)
Definition returned_image (o : outcome image) : image :=
  match o with
  | Returns img => img
  | _ => mkImage [] [] zero_fields (-1) false fresh_PE
  end.

(** A TLS directory at 0x10 that declares no callback table. *)
Definition tls_without_callbacks : image_tls_directory :=
  mkTls 0x401000 0x401100 0x402000 0 0 0 [].

Definition tls_without_callbacks_file : FILE :=
  sample_file (replicate 16 x00 ++ encode_tls 4 tls_without_callbacks).

(** A TLS directory at 0x10 in a file of 0x20 bytes. *)
Definition tls_short_file : FILE :=
  sample_file (replicate 16 x00 ++ encode_values 4 [0x401000; 0x401100; 0x402000; 0x400030]).

(** A relocation block at 0x10 whose [BlockSize] is 4. *)
Definition small_block_file : FILE :=
  sample_file (replicate 16 x00 ++ le_encode 4 0x1000 ++ le_encode 4 4
               ++ encode_values 2 [0x3001; 0x3004]).

(** An export directory from 0x10 to 0x90 with three functions: the
    second address, 0x68, lies inside the directory and is the offset of
    the forward string "g". *)
Definition forwarder_pe : PE :=
  sample_pe IMAGE_OPTIONAL_HEADER_MAGIC_PE32 [] [mkDir 0x10 0x80].

Definition forwarder_file : FILE :=
  sample_file (export_image 1 [0x1000; 0x68; 0x2000] [0] ["g"]%string).

(** The bytes of an optional header before its directory entries: the
    0x18-byte prefix, [BaseOfData] and [ImageBase] (4 + 4 bytes, or 8),
    the 0x28 common bytes, and the four sizes with [LoaderFlags] and
    [NumberOfRvaAndSizes] (6 * 4 bytes, or 40). *)
Definition optional_header_fixed_size (magic : Z) : Z :=
  if magic =? IMAGE_OPTIONAL_HEADER_MAGIC_PE32plus then 112 else 96.

(** Two sections whose virtual ranges overlap on 0x1800..0x1fff. *)
Definition overlapping_pe : PE :=
  sample_pe IMAGE_OPTIONAL_HEADER_MAGIC_PE32
            [mkSection 0x1000 0x1000 0x400 0x1000;
             mkSection 0x1800 0x1000 0x2000 0x1000] [].

(** An export directory at 0x10 that declares no function and
    [2^32 - 1] names; the module name is at 0x38 and the file ends at
    0x40, where the three tables are said to be. *)
Definition many_names_file : FILE :=
  sample_file
    (replicate 16 x00
     ++ encode_ied (mkIed 0 0 0 0 0x38 1 0 0xFFFFFFFF 0x40 0x40 0x40 EmptyString)
     ++ pad_to 8 (list_byte_of_string "a.dll")).

(** Three functions are declared; the file ends inside the third
    address of the table at 0x40. *)
Definition cut_functions_file : FILE :=
  sample_file (take 0x4a (export_image 1 [0x1000; 0x2000; 0x3000] [] [])).

(** A section table of two records at 200, in a file that ends 20 bytes
    into the second. *)
Definition cut_table_image : list byte :=
  take 260
    (sample_dos_header 64 ++ sample_pe_header 2 112
     ++ encode_optional_header sample_ioh sample_fields
     ++ sample_section_record 0x1000 0x100 0x200 0x100
     ++ sample_section_record 0x2000 0x100 0x300 0x100).

(** Two functions, the second a forwarder, before the name loop. *)
Definition two_functions_pe : PE :=
  with_exports forwarder_pe
    [mkExport 0x1000 1 EmptyString EmptyString;
     mkExport 0x68 2 EmptyString "g"].

(** * Properties *)

(** ** Little-endian fields *)

Lemma byte_val_range (b : byte) : 0 <= byte_val b < 256.
Proof.
  unfold byte_val. pose proof (Byte.to_N_bounded b). lia.
Qed.

Lemma byte_val_of (z : Z) : byte_val (byte_of z) = z mod 256.
Proof.
  unfold byte_val, byte_of.
  assert (Hr : 0 <= z mod 256 < 256) by (apply Z.mod_pos_bound; lia).
  destruct (Byte.of_N (Z.to_N (z mod 256))) as [b|] eqn:Hb.
  - apply Byte.to_of_N in Hb. rewrite Hb. lia.
  - apply Byte.of_N_None_iff in Hb. lia.
Qed.

Lemma length_le_encode (w : nat) (v : Z) : length (le_encode w v) = w.
Proof.
  revert v. induction w as [|w IH]; intros v; simpl; [reflexivity|].
  now rewrite IH.
Qed.

Lemma le_decode_range (bs : list byte) :
  0 <= le_decode bs < 256 ^ Z.of_nat (length bs).
Proof.
  induction bs as [|b bs IH]; simpl le_decode; simpl length.
  - simpl. lia.
  - pose proof (byte_val_range b).
    rewrite Nat2Z.inj_succ, Z.pow_succ_r by lia. lia.
Qed.

Lemma le_decode_encode (w : nat) (v : Z) :
  0 <= v < 256 ^ Z.of_nat w -> le_decode (le_encode w v) = v.
Proof.
  revert v. induction w as [|w IH]; intros v Hv.
  - simpl in *. lia.
  - simpl le_encode. simpl le_decode.
    rewrite Nat2Z.inj_succ, Z.pow_succ_r in Hv by lia.
    rewrite byte_val_of, IH.
    + pose proof (Z.div_mod v 256). lia.
    + split; [apply Z.div_pos; lia|].
      apply Z.div_lt_upper_bound; lia.
Qed.

Lemma le_decode_app (xs ys : list byte) :
  le_decode (xs ++ ys) = le_decode xs + 256 ^ Z.of_nat (length xs) * le_decode ys.
Proof.
  induction xs as [|x xs IH]; simpl le_decode; simpl length.
  - simpl. lia.
  - rewrite IH, Nat2Z.inj_succ, Z.pow_succ_r by lia. lia.
Qed.

Lemma length_encode_values (w : nat) (values : list Z) :
  length (encode_values w values) = (w * length values)%nat.
Proof.
  unfold encode_values.
  induction values as [|v values IH]; simpl; [lia|].
  rewrite length_app, length_le_encode, IH. lia.
Qed.

(** ** The stream seen from the read position *)

Lemma fread_got (n : Z) (f : FILE) :
  (fread n f).1 = take (Z.to_nat n) (stream f).
Proof.
  unfold fread. simpl.
  destruct (Z.le_gt_cases n (Z.of_nat (length (stream f)))) as [Hle|Hgt].
  - now rewrite Z.min_l.
  - rewrite Z.min_r, Nat2Z.id by lia.
    rewrite !take_ge; [reflexivity|lia|lia].
Qed.

Lemma fread_stream (n : Z) (f : FILE) :
  stream (fread n f).2 = drop (Z.to_nat n) (stream f).
Proof.
  pose proof (fread_got n f) as Hgot.
  unfold fread in *. simpl in *. rewrite Hgot. clear Hgot.
  unfold stream at 1. simpl.
  rewrite length_take.
  unfold stream.
  destruct (N.leb_spec (N.of_nat (length (contents f))) (position f)) as [Hout|Hin].
  - simpl. rewrite Nat.min_0_r, N.add_0_r.
    destruct (N.leb_spec (N.of_nat (length (contents f))) (position f)); [|lia].
    now rewrite drop_nil.
  - rewrite length_drop, drop_drop.
    destruct (N.leb_spec (N.of_nat (length (contents f)))
                (position f
                 + N.of_nat (Z.to_nat n `min` (length (contents f) - N.to_nat (position f)))))
      as [Hend|Hmid].
    + symmetry. apply drop_ge. lia.
    + f_equal. lia.
Qed.

Lemma fread_contents (n : Z) (f : FILE) : contents (fread n f).2 = contents f.
Proof. reflexivity. Qed.

(** A read that finds its bytes at the head of the stream takes them. *)
Lemma fread_app (bs rest : list byte) (n : Z) (f : FILE) :
  stream f = bs ++ rest -> n = Z.of_nat (length bs) ->
  exists f', fread n f = (bs, f') /\ stream f' = rest.
Proof.
  intros Hs Hn. exists (fread n f).2. split.
  - rewrite (surjective_pairing (fread n f)). f_equal.
    rewrite fread_got, Hs, Hn, Nat2Z.id. apply take_app_length.
  - rewrite fread_stream, Hs, Hn, Nat2Z.id. apply drop_app_length.
Qed.

(** A read of more bytes than the stream holds is short. *)
Lemma fread_short (n : Z) (f : FILE) :
  Z.of_nat (length (stream f)) < n -> short n (fread n f).1 = true.
Proof.
  intros Hlt. unfold short. rewrite fread_got, length_take.
  apply negb_true_iff, Z.eqb_neq. lia.
Qed.

Lemma short_false (n : Z) (got : list byte) :
  short n got = false <-> Z.of_nat (length got) = n.
Proof.
  unfold short. rewrite negb_false_iff. apply Z.eqb_eq.
Qed.

(** A read that is not short moves the position by its size. *)
Lemma fread_full_bytes_left (n : Z) (f : FILE) :
  short n (fread n f).1 = false ->
  Z.of_nat (bytes_left (fread n f).2) = Z.of_nat (bytes_left f) - n.
Proof.
  intros Hfull. apply short_false in Hfull.
  unfold bytes_left. rewrite fread_stream, length_drop.
  rewrite fread_got, length_take in Hfull. lia.
Qed.

Lemma fread_bytes_left (n : Z) (f : FILE) :
  (bytes_left (fread n f).2 <= bytes_left f)%nat.
Proof.
  unfold bytes_left. rewrite fread_stream, length_drop. lia.
Qed.

Lemma fseek_cur_bytes_left (f : FILE) (d : Z) :
  0 <= d -> (bytes_left (fseek f d SEEK_CUR).2 <= bytes_left f)%nat.
Proof.
  intros Hd. unfold fseek.
  destruct ((Z.of_N (position f) + d <? 0) || (seek_limit f <? Z.of_N (position f) + d));
    simpl; [lia|].
  unfold bytes_left, stream. simpl.
  destruct (N.leb_spec (N.of_nat (length (contents f))) (Z.to_N (Z.of_N (position f) + d)));
    destruct (N.leb_spec (N.of_nat (length (contents f))) (position f));
    simpl; rewrite ?length_drop; lia.
Qed.

Lemma bytes_left_contents (f : FILE) : (bytes_left f <= length (contents f))%nat.
Proof.
  unfold bytes_left, stream.
  destruct (N.of_nat (length (contents f)) <=? position f)%N; simpl;
    rewrite ?length_drop; lia.
Qed.

Lemma fseek_contents (f : FILE) (off : Z) (w : whence) :
  contents (fseek f off w).2 = contents f.
Proof.
  unfold fseek. now destruct (_ || _).
Qed.

(** After a seek from the start, the stream is the file from the offset
    on. *)
Lemma fseek_set_stream (f f' : FILE) (offset : Z) :
  fseek f offset SEEK_SET = (0, f') ->
  stream f' = drop (Z.to_nat offset) (contents f).
Proof.
  unfold fseek.
  destruct (Z.ltb_spec offset 0) as [Hneg|Hpos]; [discriminate|].
  destruct (seek_limit f <? offset); [discriminate|].
  simpl. intros [= <-]. unfold stream. simpl.
  destruct (N.leb_spec (N.of_nat (length (contents f))) (Z.to_N offset)).
  - symmetry. apply drop_ge. lia.
  - now rewrite Z_N_nat.
Qed.

#[global] Opaque fread fseek stream.

(** ** Loops and their budget *)

Lemma loop_step {S R : Type} (body : S -> S + outcome R) (fuel : nat) (s : S) :
  loop body (Datatypes.S fuel) s =
  match body s with
  | inl s' => loop body fuel s'
  | inr r => r
  end.
Proof. reflexivity. Qed.

(** More budget does not change a result. *)
Lemma loop_mono {S R : Type} (body : S -> S + outcome R) (fuel fuel' : nat)
    (s : S) (r : R) :
  loop body fuel s = Returns r -> (fuel <= fuel')%nat ->
  loop body fuel' s = Returns r.
Proof.
  revert fuel' s. induction fuel as [|fuel IH]; intros fuel' s Hrun Hle.
  - discriminate.
  - destruct fuel' as [|fuel']; [lia|].
    rewrite loop_step in *.
    destruct (body s) as [s'|o]; [|assumption].
    apply IH; [assumption|lia].
Qed.

(** A loop whose continuing iterations decrease a measure, and whose
    exits return, returns once the budget exceeds the measure. *)
Lemma loop_terminates {S R : Type} (body : S -> S + outcome R)
    (measure : S -> nat) :
  (forall s s', body s = inl s' -> (measure s' < measure s)%nat) ->
  (forall s o, body s = inr o -> exists r, o = Returns r) ->
  forall fuel s, (measure s < fuel)%nat -> exists r, loop body fuel s = Returns r.
Proof.
  intros Hdec Hexit fuel.
  induction fuel as [|fuel IH]; intros s Hm; [lia|].
  rewrite loop_step.
  destruct (body s) as [s'|o] eqn:Hb.
  - apply IH. specialize (Hdec _ _ Hb). lia.
  - exact (Hexit _ _ Hb).
Qed.

(** ** Directory dispatcher *)

Section Dispatcher.
Context {E : Externals}.

Lemma directory_at_in_range (ioh : image_optional_header) (slot : Z) :
  0 <= slot <= 15 ->
  directory_at ioh slot
  = Returns (default zero_directory (directories ioh !! Z.to_nat slot)).
Proof.
  intros Hs. unfold directory_at.
  destruct (Z.ltb_spec slot 0); [lia|].
  destruct (Z.leb_spec 0x10 slot); [lia|]. reflexivity.
Qed.

Lemma translate_and_seek_contents (pe : PE) (f : FILE)
    (d : image_data_directory) (log : list diagnostic) :
  contents (translate_and_seek pe f d log).1.2 = contents f.
Proof.
  unfold translate_and_seek.
  destruct (_ =? 0); [reflexivity|].
  pose proof (fseek_contents f (_rva_to_offset pe (VirtualAddress d)) SEEK_SET) as Hc.
  destruct (fseek f _ SEEK_SET) as [r f']. simpl in Hc.
  now destruct (r =? 0).
Qed.

(** The body of [_reach_directory] below its range test, for a slot of
    the array. *)
Lemma reach_directory_in_range (pe : PE) (f : FILE) (slot : Z) :
  0 <= slot <= 15 ->
  let d := directory_slot pe slot in
  _reach_directory pe f slot =
  Returns
    (if (VirtualAddress d =? 0) && (Size d =? 0) then (false, f, [])
     else if Size d =? 0 then translate_and_seek pe f d [warn_size_zero]
     else if VirtualAddress d =? 0 then (false, f, [error_rva_zero])
     else translate_and_seek pe f d []).
Proof.
  intros Hs d. unfold _reach_directory.
  destruct (Z.ltb_spec 0x10 slot); [lia|].
  rewrite directory_at_in_range by assumption.
  change (default zero_directory (directories (_ioh pe) !! Z.to_nat slot)) with d.
  simpl.
  destruct (_ && _); [reflexivity|].
  destruct (Size d =? 0); [reflexivity|].
  now destruct (VirtualAddress d =? 0).
Qed.

Lemma reach_directory_returns (pe : PE) (f : FILE) (slot : Z) :
  0 <= slot <= 15 ->
  exists ok f' log,
    _reach_directory pe f slot = Returns (ok, f', log)
    /\ contents f' = contents f.
Proof.
  intros Hs. rewrite reach_directory_in_range by assumption.
  set (d := directory_slot pe slot).
  destruct (_ && _); [now eexists _, _, _|].
  destruct (Size d =? 0).
  - pose proof (translate_and_seek_contents pe f d [warn_size_zero]).
    destruct (translate_and_seek pe f d [warn_size_zero]) as [[ok f'] log].
    now eexists _, _, _.
  - destruct (VirtualAddress d =? 0); [now eexists _, _, _|].
    pose proof (translate_and_seek_contents pe f d []).
    destruct (translate_and_seek pe f d []) as [[ok f'] log].
    now eexists _, _, _.
Qed.

End Dispatcher.

(** ** Address translator *)

Section TranslatorFacts.
Context {E : Externals}.

Lemma rva_to_offset_no_sections (pe : PE) (rva : Z) :
  _sections pe = [] -> _rva_to_offset pe rva = Z.land rva 0xFFFFFFFF.
Proof.
  intros Hs. unfold _rva_to_offset. now rewrite Hs.
Qed.

Lemma rva_to_offset_virtual_match (pe : PE) (rva : Z) (section : Section) :
  List.find (fun s => is_address_in_section rva s false) (_sections pe)
  = Some section ->
  _rva_to_offset pe rva = section_offset section rva.
Proof.
  intros Hf. unfold _rva_to_offset. rewrite Hf.
  destruct (_sections pe); [discriminate|]. reflexivity.
Qed.

(** Without a match by virtual size the result is 0, whatever the scan
    by raw-data size finds. *)
Lemma rva_to_offset_no_virtual_match (pe : PE) (rva : Z) :
  _sections pe <> [] ->
  List.find (fun s => is_address_in_section rva s false) (_sections pe) = None ->
  _rva_to_offset pe rva = 0.
Proof.
  intros Hne Hf. unfold _rva_to_offset. rewrite Hf.
  destruct (_sections pe); [contradiction|]. reflexivity.
Qed.

(** The code and the specification differ only where the second scan
    finds a section. *)
Lemma rva_to_offset_spec_agrees (pe : PE) (rva : Z) :
  (List.find (fun s => is_address_in_section rva s false) (_sections pe) = None ->
   List.find (fun s => is_address_in_section rva s true) (_sections pe) = None) ->
  _rva_to_offset pe rva = rva_to_offset_spec pe rva.
Proof.
  intros Hraw. unfold _rva_to_offset, rva_to_offset_spec.
  destruct (_sections pe) as [|s l] eqn:Hs; [reflexivity|].
  simpl length. simpl Nat.eqb. cbv iota.
  destruct (List.find _ (s :: l)) eqn:Hv in |- *; [reflexivity|].
  now rewrite Hraw.
Qed.

(** Slots above 16 are reported absent before the array is read. *)
Lemma reach_directory_above_16 (pe : PE) (f : FILE) (slot : Z) :
  16 < slot -> _reach_directory pe f slot = Returns (false, f, []).
Proof.
  intros Hs. unfold _reach_directory.
  destruct (Z.ltb_spec 0x10 slot); [reflexivity|lia].
Qed.

End TranslatorFacts.

(** C1, on the code as it is: with one section whose virtual size (0x10)
    undershoots its raw size (0x200), the address 0x1100 lies in the
    section by raw size only.  The specification's three-stage algorithm
    gives [0x1100 - 0x1000 + 0x400 = 0x500]; [_rva_to_offset] runs the
    second scan and then returns 0. *)
Theorem rva_to_offset_drops_raw_size_match :
  is_address_in_section (Externals := modelled) 0x1100
    (mkSection 0x1000 0x10 0x400 0x200) true = true
  /\ rva_to_offset_spec (E := modelled) undershoot_pe 0x1100 = 0x500
  /\ _rva_to_offset (E := modelled) undershoot_pe 0x1100 = 0.
Proof.
  repeat split; vm_compute; reflexivity.
Qed.

(** C3, on the code as it is: slot 16 is greater than 15, it passes the
    test [directory > 0x10], and [_ioh.directories[16]] is read, one
    past the 16 slots of the array: the call does not report the
    directory absent.  Only the slots above 16 are reported absent
    without a read of the array. *)
Theorem reach_directory_slot_16_out_of_bounds
    (E : Externals) (pe : PE) (f : FILE) :
  directory_at (_ioh pe) 16 = OutOfBounds
  /\ _reach_directory pe f 16 = OutOfBounds
  /\ (forall slot, 16 < slot ->
      _reach_directory pe f slot = Returns (false, f, [])).
Proof.
  split; [reflexivity|]. split; [reflexivity|].
  intros slot Hslot. now apply reach_directory_above_16.
Qed.

(** C9: for a slot of the directory array, [_reach_directory] reports a
    directory whose address and size are both zero absent, without a
    diagnostic; it fails with an error when the address is zero and the
    size is not; otherwise it translates the address and seeks, after a
    warning when the size is zero, and succeeds exactly when the
    translated offset is not 0 and the seek to it succeeds. *)
Theorem reach_directory_zero_field_cases
    (E : Externals) (pe : PE) (f : FILE) (slot : Z) :
  0 <= slot <= 15 ->
  let d := directory_slot pe slot in
  let offset := _rva_to_offset pe (VirtualAddress d) in
  (VirtualAddress d = 0 -> Size d = 0 ->
   _reach_directory pe f slot = Returns (false, f, []))
  /\ (VirtualAddress d = 0 -> Size d <> 0 ->
      _reach_directory pe f slot = Returns (false, f, [error_rva_zero]))
  /\ (VirtualAddress d <> 0 ->
      exists ok f' log,
        _reach_directory pe f slot
        = Returns (ok, f', (if Size d =? 0 then [warn_size_zero] else []) ++ log)
        /\ (ok = true <-> offset <> 0 /\ (fseek f offset SEEK_SET).1 = 0)
        /\ (ok = true -> f' = (fseek f offset SEEK_SET).2 /\ log = [])
        /\ (ok = false -> log = [error_unreachable])).
Proof.
  intros Hs d offset.
  rewrite reach_directory_in_range by assumption. fold d.
  split; [|split].
  - intros Hva Hsz. rewrite Hva, Hsz. reflexivity.
  - intros Hva Hsz. rewrite Hva.
    destruct (Z.eqb_spec (Size d) 0); [contradiction|]. reflexivity.
  - intros Hva.
    destruct (Z.eqb_spec (VirtualAddress d) 0); [contradiction|].
    simpl andb. cbv iota.
    assert (Hts : forall log0,
      exists ok f' log,
        translate_and_seek pe f d log0 = (ok, f', log0 ++ log)
        /\ (ok = true <-> offset <> 0 /\ (fseek f offset SEEK_SET).1 = 0)
        /\ (ok = true -> f' = (fseek f offset SEEK_SET).2 /\ log = [])
        /\ (ok = false -> log = [error_unreachable])).
    { intros log0. unfold translate_and_seek. fold offset.
      destruct (Z.eqb_spec offset 0) as [H0|H0].
      - exists false, f, [error_unreachable].
        repeat split; try discriminate; try reflexivity. intros [? _]. contradiction.
      - destruct (fseek f offset SEEK_SET) as [r f'] eqn:Hseek. simpl.
        destruct (Z.eqb_spec r 0) as [Hr|Hr].
        + exists true, f', []. rewrite app_nil_r.
          repeat split; try discriminate; try assumption.
        + exists false, f', [error_unreachable].
          repeat split; try discriminate; try reflexivity.
          intros [_ ?]. contradiction. }
    destruct (Size d =? 0).
    + destruct (Hts [warn_size_zero]) as (ok & f' & log & Heq & Hrest).
      exists ok, f', log. now rewrite Heq.
    + destruct (Hts []) as (ok & f' & log & Heq & Hrest).
      exists ok, f', log. now rewrite Heq.
Qed.

(** ** Termination of the block-reading loops *)

Section Termination.
Context {E : Externals}.

Lemma read_types_offsets_bytes_left (count : nat) (f f' : FILE)
    (acc entries : list Z) (ok : bool) :
  read_types_offsets count f acc = (ok, f', entries) ->
  (bytes_left f' <= bytes_left f)%nat /\ contents f' = contents f.
Proof.
  revert f acc. induction count as [|count IH]; intros f acc Hr; simpl in Hr.
  - injection Hr as _ <- _. split; [lia|reflexivity].
  - pose proof (fread_bytes_left 2 f) as Hle.
    pose proof (fread_contents 2 f) as Hc.
    destruct (fread 2 f) as [buf f1]. simpl in Hle, Hc.
    destruct (short 2 buf).
    + injection Hr as _ <- _. split; [lia|assumption].
    + apply IH in Hr. destruct Hr as [Hle' Hc']. split; [lia|congruence].
Qed.

(** An iteration of the relocation loop that does not return has read a
    whole block header: 8 bytes. *)
Lemma relocations_body_consumes (st st' : Z * FILE * PE) :
  relocations_body st = inl st' ->
  (bytes_left st'.1.2 + 8 <= bytes_left st.1.2)%nat
  /\ contents st'.1.2 = contents st.1.2.
Proof.
  destruct st as [[remaining f] pe]. unfold relocations_body.
  destruct (negb (0 <? remaining)); [discriminate|].
  pose proof (fread_full_bytes_left reloc_header_size f) as Hfull.
  pose proof (fread_contents reloc_header_size f) as Hc1.
  destruct (fread reloc_header_size f) as [buf f1]. simpl in Hfull, Hc1.
  destruct (short reloc_header_size buf); [discriminate|]. simpl orb.
  destruct (remaining <? field buf 4 4); [discriminate|].
  destruct (read_types_offsets _ f1 []) as [[ok f2] entries] eqn:Hr.
  apply read_types_offsets_bytes_left in Hr. destruct Hr as [Hle Hc].
  destruct ok; [|discriminate]. simpl.
  intros [= <-]. simpl.
  specialize (Hfull eq_refl). unfold reloc_header_size in Hfull.
  split; [lia|congruence].
Qed.

Lemma callback_size_cases (pe : PE) :
  callback_size pe = (if is_pe32plus pe then 8 else 4)
  /\ 4 <= callback_size pe <= 8.
Proof.
  unfold callback_size. destruct (is_pe32plus pe); lia.
Qed.

(** An iteration of the callback loop that does not leave it has read a
    whole pointer-width value. *)
Lemma callbacks_body_consumes (st st' : Z * FILE * PE) :
  callbacks_body st = inl st' ->
  (bytes_left st'.1.2 + 4 <= bytes_left st.1.2)%nat
  /\ contents st'.1.2 = contents st.1.2.
Proof.
  destruct st as [[address f] pe]. unfold callbacks_body.
  pose proof (fread_full_bytes_left (callback_size pe) f) as Hfull.
  pose proof (fread_contents (callback_size pe) f) as Hc.
  destruct (fread (callback_size pe) f) as [buf f1]. simpl in Hfull, Hc.
  destruct (short (callback_size pe) buf); [discriminate|]. simpl orb.
  destruct (overlay address buf =? 0); [discriminate|].
  intros [= <-]. simpl.
  specialize (Hfull eq_refl).
  pose proof (callback_size_cases pe) as [_ Hw].
  split; [lia|assumption].
Qed.

(** An iteration of the certificate loop that does not return has read
    a whole certificate header: 8 bytes.  Neither the payload read nor
    the forward seek over the padding brings the position back, whatever
    the remaining-byte counter has become. *)
Lemma certificates_body_consumes (st st' : Z * FILE * PE) :
  certificates_body st = inl st' ->
  (bytes_left st'.1.2 + 8 <= bytes_left st.1.2)%nat
  /\ contents st'.1.2 = contents st.1.2.
Proof.
  destruct st as [[remaining f] pe]. unfold certificates_body.
  destruct (negb (cert_header_size <? remaining)); [discriminate|].
  pose proof (fread_full_bytes_left cert_header_size f) as Hfull.
  pose proof (fread_contents cert_header_size f) as Hc1.
  destruct (fread cert_header_size f) as [buf f1]. simpl in Hfull, Hc1.
  destruct (short cert_header_size buf); [discriminate|].
  destruct (_ && _); [discriminate|].
  destruct (field buf 0 4 <? remaining); [discriminate|].
  set (n := u32 (field buf 0 4 - cert_header_size)).
  pose proof (fread_bytes_left n f1) as Hle.
  pose proof (fread_contents n f1) as Hc2.
  destruct (fread n f1) as [data f2]. simpl in Hle, Hc2.
  destruct (short n data); [discriminate|].
  specialize (Hfull eq_refl). unfold cert_header_size in Hfull.
  assert (Hpad : 0 <= field buf 0 4 mod 8) by (apply Z.mod_pos_bound; lia).
  pose proof (fseek_cur_bytes_left f2 _ Hpad) as Hseek.
  pose proof (fseek_contents f2 (field buf 0 4 mod 8) SEEK_CUR) as Hc3.
  destruct (_ && _); intros [= <-]; simpl; split; try lia; congruence.
Qed.

Lemma relocations_body_exit (st : Z * FILE * PE) (o : outcome (bool * FILE * PE)) :
  relocations_body st = inr o -> exists r, o = Returns r.
Proof.
  destruct st as [[remaining f] pe]. unfold relocations_body.
  destruct (negb _); [intros [= <-]; eauto|].
  destruct (fread reloc_header_size f) as [buf f1].
  destruct (_ || _); [intros [= <-]; eauto|].
  destruct (read_types_offsets _ f1 []) as [[ok f2] entries].
  destruct ok; simpl; [discriminate|intros [= <-]; eauto].
Qed.

Lemma callbacks_body_exit (st : Z * FILE * PE) (o : outcome (bool * FILE * PE)) :
  callbacks_body st = inr o -> exists r, o = Returns r.
Proof.
  destruct st as [[address f] pe]. unfold callbacks_body.
  destruct (fread (callback_size pe) f) as [buf f1].
  destruct (_ || _); [intros [= <-]; eauto|discriminate].
Qed.

Lemma certificates_body_exit (st : Z * FILE * PE) (o : outcome (bool * FILE * PE)) :
  certificates_body st = inr o -> exists r, o = Returns r.
Proof.
  destruct st as [[remaining f] pe]. unfold certificates_body.
  destruct (negb _); [intros [= <-]; eauto|].
  destruct (fread cert_header_size f) as [buf f1].
  destruct (short cert_header_size buf); [intros [= <-]; eauto|].
  destruct (_ && _); [intros [= <-]; eauto|].
  destruct (_ <? remaining); [intros [= <-]; eauto|].
  destruct (fread _ f1) as [data f2].
  destruct (short _ data); [intros [= <-]; eauto|].
  destruct (_ && _); discriminate.
Qed.

(** A loop on [(counter, stream, object)] whose continuing iterations
    consume bytes returns within a budget above the bytes left, and the
    result does not depend on the budget. *)
Lemma stream_loop_returns
    (body : Z * FILE * PE -> Z * FILE * PE + outcome (bool * FILE * PE))
    (st : Z * FILE * PE) :
  (forall s s', body s = inl s' -> (bytes_left s'.1.2 < bytes_left s.1.2)%nat) ->
  (forall s o, body s = inr o -> exists r, o = Returns r) ->
  exists r, forall fuel, (bytes_left st.1.2 < fuel)%nat ->
    loop body fuel st = Returns r.
Proof.
  intros Hdec Hexit.
  destruct (loop_terminates body (fun s => bytes_left s.1.2) Hdec Hexit
              (Datatypes.S (bytes_left st.1.2)) st) as [r Hr]; [lia|].
  exists r. intros fuel Hfuel.
  apply (loop_mono _ _ _ _ _ Hr). lia.
Qed.

Lemma read_tls_record_contents (f : FILE) (pe : PE) :
  contents (read_tls_record f pe).1 = contents f.
Proof.
  unfold read_tls_record. destruct (is_pe32plus pe).
  - pose proof (fread_contents tls_size f).
    now destruct (fread tls_size f).
  - pose proof (fread_contents 4 f) as H1.
    destruct (fread 4 f) as [b1 f1].
    pose proof (fread_contents 4 f1) as H2.
    destruct (fread 4 f1) as [b2 f2].
    pose proof (fread_contents 4 f2) as H3.
    destruct (fread 4 f2) as [b3 f3].
    pose proof (fread_contents 4 f3) as H4.
    destruct (fread 4 f3) as [b4 f4].
    pose proof (fread_contents (2 * 4) f4) as H5.
    destruct (fread (2 * 4) f4) as [b5 f5].
    simpl in *. congruence.
Qed.

Lemma parse_relocations_returns (f : FILE) (pe : PE) :
  exists r, forall fuel, (length (contents f) < fuel)%nat ->
    _parse_relocations fuel f pe = Returns r.
Proof.
  unfold _parse_relocations.
  destruct (reach_directory_returns pe f IMAGE_DIRECTORY_ENTRY_BASERELOC)
    as (ok & f1 & log & Hreach & Hc); [unfold IMAGE_DIRECTORY_ENTRY_BASERELOC; lia|].
  rewrite Hreach. simpl.
  destruct ok; simpl; [|now eexists].
  set (st := (Size (directory_slot pe IMAGE_DIRECTORY_ENTRY_BASERELOC), f1, pe)).
  destruct (stream_loop_returns relocations_body st) as [r Hr].
  - intros s s' Hb. apply relocations_body_consumes in Hb. lia.
  - apply relocations_body_exit.
  - exists r. intros fuel Hfuel. apply Hr. simpl.
    pose proof (bytes_left_contents f1). rewrite Hc in *. lia.
Qed.

Lemma parse_tls_returns (f : FILE) (pe : PE) :
  exists r, forall fuel, (length (contents f) < fuel)%nat ->
    _parse_tls fuel f pe = Returns r.
Proof.
  unfold _parse_tls.
  destruct (reach_directory_returns pe f IMAGE_DIRECTORY_ENTRY_TLS)
    as (ok & f1 & log & Hreach & Hc); [unfold IMAGE_DIRECTORY_ENTRY_TLS; lia|].
  rewrite Hreach. simpl.
  destruct ok; simpl; [|now eexists].
  pose proof (read_tls_record_contents f1 pe) as Hc2.
  destruct (read_tls_record f1 pe) as [f2 pe2]. simpl in Hc2.
  destruct (_ || _); [now eexists|].
  destruct (_ =? 0); [now eexists|].
  pose proof (fseek_contents f2 (_va_to_offset pe2 (AddressOfCallbacks (_tls pe2))) SEEK_SET) as Hc3.
  destruct (fseek f2 _ SEEK_SET) as [r f3]. simpl in Hc3.
  destruct (negb _); [now eexists|].
  destruct (stream_loop_returns callbacks_body (0, f3, pe2)) as [res Hres].
  - intros s s' Hb. apply callbacks_body_consumes in Hb. lia.
  - apply callbacks_body_exit.
  - exists res. intros fuel Hfuel. apply Hres. simpl.
    pose proof (bytes_left_contents f3). rewrite Hc3, Hc2, Hc in *. lia.
Qed.

Lemma parse_certificates_returns (f : FILE) (pe : PE) :
  exists r, forall fuel, (length (contents f) < fuel)%nat ->
    _parse_certificates fuel f pe = Returns r.
Proof.
  unfold _parse_certificates.
  set (d := directory_slot pe IMAGE_DIRECTORY_ENTRY_SECURITY).
  destruct (_ =? 0); [now eexists|].
  pose proof (fseek_contents f (VirtualAddress d) SEEK_SET) as Hc.
  destruct (fseek f _ SEEK_SET) as [r f1]. simpl in Hc.
  destruct (negb _); [now eexists|].
  destruct (stream_loop_returns certificates_body (Size d, f1, pe)) as [res Hres].
  - intros s s' Hb. apply certificates_body_consumes in Hb. lia.
  - apply certificates_body_exit.
  - exists res. intros fuel Hfuel. apply Hres. simpl.
    pose proof (bytes_left_contents f1). rewrite Hc in *. lia.
Qed.

End Termination.

(** C10: in the relocation, TLS-callback and certificate loops an
    iteration that does not return consumes at least one byte of the
    stream (8, 4 and 8 at least), for every value of the remaining-byte
    counter; hence on every finite file each of the three parsers
    returns, with the same result for every budget of iterations above
    the size of the file. *)
Theorem block_loops_terminate (E : Externals) :
  (forall st st',
      relocations_body st = inl st' \/ callbacks_body st = inl st'
      \/ certificates_body st = inl st' ->
      (bytes_left st'.1.2 < bytes_left st.1.2)%nat)
  /\ (forall f pe,
        exists r1 r2 r3, forall fuel, (length (contents f) < fuel)%nat ->
          _parse_relocations fuel f pe = Returns r1
          /\ _parse_tls fuel f pe = Returns r2
          /\ _parse_certificates fuel f pe = Returns r3).
Proof.
  split.
  - intros st st' [Hb|[Hb|Hb]].
    + apply relocations_body_consumes in Hb. lia.
    + apply callbacks_body_consumes in Hb. lia.
    + apply certificates_body_consumes in Hb. lia.
  - intros f pe.
    destruct (parse_relocations_returns f pe) as [r1 H1].
    destruct (parse_tls_returns f pe) as [r2 H2].
    destruct (parse_certificates_returns f pe) as [r3 H3].
    exists r1, r2, r3. intros fuel Hfuel. auto.
Qed.

(** ** The TLS callback table *)

Section TlsCallbacks.
Context {E : Externals}.

Lemma overlay_encode (w : nat) (old v : Z) :
  0 <= old < 256 ^ Z.of_nat w -> 0 <= v < 256 ^ Z.of_nat w ->
  overlay old (le_encode w v) = v.
Proof.
  intros Hold Hv. unfold overlay.
  rewrite length_le_encode, le_decode_encode by assumption.
  replace (2 ^ (8 * Z.of_nat w)) with (256 ^ Z.of_nat w)
    by (rewrite Z.pow_mul_r by lia; reflexivity).
  rewrite Z.div_small by assumption. lia.
Qed.

Lemma read_tls_record_keeps (f : FILE) (pe : PE) :
  _ioh (read_tls_record f pe).2 = _ioh pe
  /\ _sections (read_tls_record f pe).2 = _sections pe
  /\ Callbacks (_tls (read_tls_record f pe).2) = Callbacks (_tls pe).
Proof.
  unfold read_tls_record. destruct (is_pe32plus pe).
  - now destruct (fread tls_size f).
  - destruct (fread 4 f) as [b1 f1]. destruct (fread 4 f1) as [b2 f2].
    destruct (fread 4 f2) as [b3 f3]. destruct (fread 4 f3) as [b4 f4].
    now destruct (fread (2 * 4) f4).
Qed.

Lemma with_callbacks_app (pe : PE) (xs ys : list Z) :
  with_callbacks (with_callbacks pe xs) ys = with_callbacks pe ys.
Proof. reflexivity. Qed.

(** The loop appends the values that precede the end of the table, and
    stops there, on a zero value or on a short read. *)
Lemma callbacks_loop_values (values : list Z) (tail : list byte) :
  forall (w : nat) (address : Z) (f : FILE) (pe : PE) (fuel : nat),
    callback_size pe = Z.of_nat w ->
    0 <= address < 256 ^ Z.of_nat w ->
    Forall (fun v => 0 < v < 256 ^ Z.of_nat w) values ->
    stream f = encode_values w values ++ tail ->
    (exists rest, tail = le_encode w 0 ++ rest) \/ (length tail < w)%nat ->
    (length values < fuel)%nat ->
    exists f',
      loop callbacks_body fuel (address, f, pe)
      = Returns (true, f', with_callbacks pe (Callbacks (_tls pe) ++ values)).
Proof.
  induction values as [|v values IH];
    intros w address f pe fuel Hw Haddr Hvals Hs Htail Hfuel;
    (destruct fuel as [|fuel]; [simpl in Hfuel; lia|]);
    rewrite loop_step; unfold callbacks_body at 1; rewrite Hw.
  - simpl in Hs. rewrite app_nil_r.
    destruct Htail as [[rest ->]|Hshort].
    + destruct (fread_app (le_encode w 0) rest (Z.of_nat w) f Hs) as (f' & Hr & _);
        [now rewrite length_le_encode|].
      rewrite Hr. rewrite overlay_encode by lia.
      rewrite orb_true_r. exists f'. now destruct pe as [? ? ? ? ? [] ?].
    + pose proof (fread_short (Z.of_nat w) f) as Hsh.
      destruct (fread (Z.of_nat w) f) as [buf f']. simpl in Hsh.
      rewrite Hsh by (rewrite Hs; lia). simpl.
      exists f'. now destruct pe as [? ? ? ? ? [] ?].
  - inversion Hvals as [|? ? Hv Hvals']; subst.
    unfold encode_values in Hs. simpl in Hs. rewrite <- app_assoc in Hs.
    destruct (fread_app _ _ (Z.of_nat w) f Hs) as (f' & Hr & Hs');
      [now rewrite length_le_encode|].
    rewrite Hr. rewrite overlay_encode by lia.
    replace (short (Z.of_nat w) (le_encode w v)) with false
      by (symmetry; apply short_false; now rewrite length_le_encode).
    destruct (Z.eqb_spec v 0); [lia|]. simpl orb. cbv iota.
    assert (Hfuel' : (length values < fuel)%nat) by (simpl in Hfuel; lia).
    assert (Hv' : 0 <= v < 256 ^ Z.of_nat w) by lia.
    destruct (IH w v f' (push_callback pe v) fuel Hw Hv' Hvals' Hs' Htail Hfuel')
      as [f'' Hloop].
    exists f''. rewrite Hloop. unfold push_callback.
    rewrite with_callbacks_app. simpl. now rewrite <- app_assoc.
Qed.

End TlsCallbacks.

(** C8: once [_parse_tls] has reached the callback table, it reads values
    of the pointer width (8 bytes for PE32+, else 4), appends the
    non-zero values that come first, and stops at the first zero value
    without appending it, or at a short read; in both cases it returns
    true.  With no value before the zero the callback list is left as it
    was. *)
Theorem parse_tls_callbacks
    (E : Externals) (pe pe2 : PE) (f f1 f2 f3 : FILE) (log : list diagnostic)
    (values : list Z) (tail : list byte) (fuel : nat) :
  let w := Z.to_nat (callback_size pe) in
  let offset := _va_to_offset pe2 (AddressOfCallbacks (_tls pe2)) in
  _reach_directory pe f IMAGE_DIRECTORY_ENTRY_TLS = Returns (true, f1, log) ->
  read_tls_record f1 pe = (f2, pe2) ->
  feof f2 = false ->
  offset <> 0 ->
  fseek f2 offset SEEK_SET = (0, f3) ->
  Forall (fun v => 0 < v < 256 ^ Z.of_nat w) values ->
  stream f3 = encode_values w values ++ tail ->
  (exists rest, tail = le_encode w 0 ++ rest) \/ (length tail < w)%nat ->
  (length values < fuel)%nat ->
  callback_size pe = (if is_pe32plus pe then 8 else 4)
  /\ exists f',
      _parse_tls fuel f pe
      = Returns (true, f', with_callbacks pe2 (Callbacks (_tls pe) ++ values)).
Proof.
  intros w offset Hreach Hrec Heof Hoff Hseek Hvals Hs Htail Hfuel.
  pose proof (callback_size_cases pe) as [Hsize Hrange].
  split; [exact Hsize|].
  pose proof (read_tls_record_keeps f1 pe) as (Hioh & _ & Hcb).
  rewrite Hrec in Hioh, Hcb. simpl in Hioh, Hcb.
  assert (Hw : callback_size pe2 = Z.of_nat w).
  { unfold w, callback_size, is_pe32plus. rewrite Hioh. 
    fold (is_pe32plus pe). fold (callback_size pe). lia. }
  assert (H0 : 0 <= 0 < 256 ^ Z.of_nat w)
    by (split; [lia|apply Z.pow_pos_nonneg; lia]).
  destruct (callbacks_loop_values values tail w 0 f3 pe2 fuel Hw H0 Hvals Hs Htail Hfuel)
    as [f' Hloop].
  exists f'. unfold _parse_tls. rewrite Hreach. simpl.
  rewrite Hrec, Heof. unfold ferror. simpl orb. cbv iota.
  fold offset. destruct (Z.eqb_spec offset 0); [contradiction|].
  rewrite Hseek. simpl. rewrite Hloop, Hcb. reflexivity.
Qed.

(** ** The relocation table *)

Section Relocations.
Context {E : Externals}.

Lemma field_head (w : nat) (v : Z) (rest : list byte) :
  0 <= v < 256 ^ Z.of_nat w -> field (le_encode w v ++ rest) 0 w = v.
Proof.
  intros Hv. unfold field. rewrite drop_0.
  rewrite take_app_length' by (symmetry; apply length_le_encode).
  now apply le_decode_encode.
Qed.

Lemma field_after (xs rest : list byte) (off w : nat) (v : Z) :
  length xs = off -> 0 <= v < 256 ^ Z.of_nat w ->
  field (xs ++ le_encode w v ++ rest) off w = v.
Proof.
  intros Hoff Hv. unfold field.
  rewrite drop_app_length' by (symmetry; assumption).
  rewrite take_app_length' by (symmetry; apply length_le_encode).
  now apply le_decode_encode.
Qed.

Lemma encode_values_cons (w : nat) (v : Z) (values : list Z) :
  encode_values w (v :: values) = le_encode w v ++ encode_values w values.
Proof. reflexivity. Qed.

Lemma encode_blocks_cons (b : image_base_relocation)
    (blocks : list image_base_relocation) :
  encode_blocks (b :: blocks) = encode_block b ++ encode_blocks blocks.
Proof. reflexivity. Qed.

(** The entry loop reads the entries that the stream holds. *)
Lemma read_types_offsets_entries (entries : list Z) :
  forall (f : FILE) (acc : list Z) (rest : list byte),
    Forall (fun e => 0 <= e < 2 ^ 16) entries ->
    stream f = encode_values 2 entries ++ rest ->
    exists f',
      read_types_offsets (length entries) f acc = (true, f', acc ++ entries)
      /\ stream f' = rest.
Proof.
  induction entries as [|e entries IH]; intros f acc rest Hwf Hs.
  - exists f. simpl. now rewrite app_nil_r.
  - inversion Hwf as [|? ? He Hwf']; subst.
    rewrite encode_values_cons, <- app_assoc in Hs.
    destruct (fread_app _ _ 2 f Hs) as (f1 & Hr & Hs1);
      [now rewrite length_le_encode|].
    destruct (IH f1 (acc ++ [e]) rest Hwf' Hs1) as (f' & Hrest & Hs').
    exists f'. split; [|assumption].
    cbn [read_types_offsets length]. rewrite Hr.
    replace (short 2 (le_encode 2 e)) with false
      by (symmetry; now apply short_false).
    rewrite le_decode_encode by (simpl; lia).
    rewrite Hrest. now rewrite <- app_assoc.
Qed.

(** The entry loop fails when the stream ends before the last entry. *)
Lemma read_types_offsets_short (count : nat) :
  forall (f : FILE) (acc : list Z),
    (length (stream f) < 2 * count)%nat ->
    exists f' entries, read_types_offsets count f acc = (false, f', entries).
Proof.
  induction count as [|count IH]; intros f acc Hlen; [lia|].
  cbn [read_types_offsets].
  pose proof (fread_stream 2 f) as Hs.
  pose proof (fread_got 2 f) as Hgot.
  destruct (fread 2 f) as [buf f1]. simpl in Hs, Hgot.
  destruct (short 2 buf) eqn:Hshort; [now eexists _, _|].
  apply short_false in Hshort. rewrite Hgot, length_take in Hshort.
  apply IH. rewrite Hs, length_drop. lia.
Qed.

Lemma u32_small (z : Z) : 0 <= z < 2 ^ 32 -> u32 z = z.
Proof. intros Hz. unfold u32. now apply Z.mod_small. Qed.

(** On a well-formed block that fits the remaining size, an iteration
    appends the block and decrements the remaining size. *)
Lemma relocations_body_block (b : image_base_relocation) (rest : list byte)
    (remaining : Z) (f : FILE) (pe : PE) :
  wf_block b ->
  stream f = encode_block b ++ rest ->
  BlockSize b <= remaining < 2 ^ 32 ->
  exists f',
    relocations_body (remaining, f, pe)
    = inl (remaining - BlockSize b, f',
           with_relocations pe (_relocations pe ++ [b]))
    /\ stream f' = rest.
Proof.
  intros (Hpage & Hsize & Hcount & Hentries) Hs Hrem.
  destruct b as [page size entries].
  unfold encode_block in Hs. cbn [PageRVA BlockSize TypesOffsets] in *.
  rewrite <- !app_assoc in Hs.
  rewrite (app_assoc (le_encode 4 page)) in Hs.
  destruct (fread_app _ _ reloc_header_size f Hs) as (f1 & Hr & Hs1);
    [now rewrite length_app, !length_le_encode|].
  destruct (read_types_offsets_entries entries f1 [] rest Hentries Hs1)
    as (f' & Hread & Hs').
  exists f'. split; [|assumption].
  unfold relocations_body.
  destruct (Z.ltb_spec 0 remaining); [|lia]. simpl negb. cbv iota.
  rewrite Hr.
  replace (short reloc_header_size (le_encode 4 page ++ le_encode 4 size))
    with false
    by (symmetry; apply short_false; now rewrite length_app, !length_le_encode).
  rewrite field_head by (simpl; lia).
  rewrite <- (app_nil_r (le_encode 4 size)).
  rewrite field_after by (simpl; first [apply length_le_encode|lia]).
  destruct (Z.ltb_spec remaining size); [lia|]. simpl orb. cbv iota.
  rewrite <- Hcount, Nat2Z.id, Hread. simpl.
  rewrite u32_small by lia. reflexivity.
Qed.

Lemma sum_sizes_nonneg (blocks : list image_base_relocation) :
  Forall wf_block blocks -> 0 <= sum_sizes blocks.
Proof.
  induction 1 as [|b blocks (_ & Hsize & _) _ IH]; simpl; lia.
Qed.

Lemma with_relocations_same (pe : PE) :
  with_relocations pe (_relocations pe ++ []) = pe.
Proof. rewrite app_nil_r. now destruct pe. Qed.

(** The loop over a sequence of well-formed blocks that fit. *)
Lemma relocations_loop_blocks (blocks : list image_base_relocation) :
  forall (remaining : Z) (f : FILE) (pe : PE) (fuel : nat) (tail : list byte),
    Forall wf_block blocks ->
    stream f = encode_blocks blocks ++ tail ->
    sum_sizes blocks <= remaining < 2 ^ 32 ->
    exists f',
      stream f' = tail
      /\ loop relocations_body (length blocks + fuel) (remaining, f, pe)
         = loop relocations_body fuel
             (remaining - sum_sizes blocks, f',
              with_relocations pe (_relocations pe ++ blocks)).
Proof.
  induction blocks as [|b blocks IH]; intros remaining f pe fuel tail Hwf Hs Hrem.
  - exists f. split; [assumption|]. simpl.
    rewrite with_relocations_same. now rewrite Z.sub_0_r.
  - inversion Hwf as [|? ? Hb Hwf']; subst.
    pose proof (sum_sizes_nonneg blocks Hwf') as Hnn.
    simpl in Hrem.
    rewrite encode_blocks_cons, <- app_assoc in Hs.
    destruct (relocations_body_block b _ remaining f pe Hb Hs) as (f1 & Hbody & Hs1);
      [lia|].
    destruct (IH (remaining - BlockSize b) f1
                (with_relocations pe (_relocations pe ++ [b])) fuel tail Hwf' Hs1)
      as (f' & Hs' & Hloop); [destruct Hb as (_ & ? & _); lia|].
    exists f'. split; [assumption|].
    cbn [length Nat.add]. rewrite loop_step, Hbody, Hloop. simpl.
    rewrite <- app_assoc. simpl. do 3 f_equal. lia.
Qed.

Lemma relocations_body_fails (remaining : Z) (f : FILE) (pe : PE) :
  0 < remaining -> bad_block remaining (stream f) ->
  exists f', relocations_body (remaining, f, pe) = inr (Returns (false, f', pe)).
Proof.
  intros Hrem Hbad. unfold relocations_body.
  destruct (Z.ltb_spec 0 remaining); [|lia]. simpl negb. cbv iota.
  destruct Hbad as [Hshort|(page & size & rest & Hs & Hpage & Hsize & Hcause)].
  - pose proof (fread_short reloc_header_size f) as Hsh.
    destruct (fread reloc_header_size f) as [buf f1]. simpl in Hsh.
    rewrite Hsh by (unfold reloc_header_size; lia). now eexists.
  - rewrite (app_assoc (le_encode 4 page)) in Hs.
    destruct (fread_app _ _ reloc_header_size f Hs) as (f1 & Hr & Hs1);
      [now rewrite length_app, !length_le_encode|].
    rewrite Hr.
    replace (short reloc_header_size (le_encode 4 page ++ le_encode 4 size))
      with false
      by (symmetry; apply short_false; now rewrite length_app, !length_le_encode).
    rewrite <- (app_nil_r (le_encode 4 size)).
    rewrite field_after by (simpl; first [apply length_le_encode|lia]).
    destruct (Z.ltb_spec remaining size) as [Hover|Hfit]; [now eexists|].
    simpl orb. cbv iota.
    destruct Hcause as [Hover|Hentries]; [lia|].
    destruct (read_types_offsets_short (Z.to_nat (entry_count size)) f1 [])
      as (f2 & entries & Hread).
    { rewrite Hs1. lia. }
    rewrite Hread. now eexists.
Qed.

End Relocations.

(** C7: once the relocation directory is reached, [_parse_relocations]
    succeeds when well-formed blocks whose sizes sum up to the declared
    size follow each other in the stream, and produces these blocks, each
    with its [(BlockSize - 8) / 2] entries; and it fails, after the
    blocks read so far, when the next block header declares more than
    the remaining size or when a read of a header or of an entry is
    short. *)
Theorem parse_relocations_blocks
    (E : Externals) (pe : PE) (f f1 : FILE) (log : list diagnostic)
    (blocks : list image_base_relocation) (tail : list byte) (fuel : nat) :
  let size := Size (directory_slot pe IMAGE_DIRECTORY_ENTRY_BASERELOC) in
  _reach_directory pe f IMAGE_DIRECTORY_ENTRY_BASERELOC = Returns (true, f1, log) ->
  size < 2 ^ 32 ->
  Forall wf_block blocks ->
  stream f1 = encode_blocks blocks ++ tail ->
  (length blocks < fuel)%nat ->
  Forall complete_block blocks
  /\ (sum_sizes blocks = size ->
      exists f',
        _parse_relocations fuel f pe
        = Returns (true, f', with_relocations pe (_relocations pe ++ blocks)))
  /\ (sum_sizes blocks < size ->
      bad_block (size - sum_sizes blocks) tail ->
      exists f',
        _parse_relocations fuel f pe
        = Returns (false, f', with_relocations pe (_relocations pe ++ blocks))).
Proof.
  intros size Hreach Hsize Hwf Hs Hfuel.
  split; [|split].
  - eapply Forall_impl; [exact Hwf|]. intros b (_ & _ & Hcount & _). exact Hcount.
  - intros Hsum.
    destruct (relocations_loop_blocks blocks size f1 pe (fuel - length blocks) tail Hwf Hs)
      as (f' & Hs' & Hloop); [lia|].
    exists f'. unfold _parse_relocations. rewrite Hreach. simpl. fold size.
    replace fuel with (length blocks + (fuel - length blocks))%nat at 1 by lia.
    rewrite Hloop.
    destruct (fuel - length blocks)%nat as [|k] eqn:Hk; [lia|].
    rewrite loop_step. unfold relocations_body.
    replace (size - sum_sizes blocks) with 0 by lia. reflexivity.
  - intros Hsum Hbad.
    destruct (relocations_loop_blocks blocks size f1 pe (fuel - length blocks) tail Hwf Hs)
      as (f' & Hs' & Hloop); [lia|].
    destruct (relocations_body_fails (size - sum_sizes blocks) f'
                (with_relocations pe (_relocations pe ++ blocks)))
      as (f'' & Hbody); [lia|now rewrite Hs'|].
    exists f''. unfold _parse_relocations. rewrite Hreach. simpl. fold size.
    replace fuel with (length blocks + (fuel - length blocks))%nat at 1 by lia.
    rewrite Hloop.
    destruct (fuel - length blocks)%nat as [|k] eqn:Hk; [lia|].
    now rewrite loop_step, Hbody.
Qed.

(** ** The exported-function list *)

Section Exports.
Context {E : Externals}.

Lemma count_named_app (xs ys : list exported_function) :
  count_named (xs ++ ys) = (count_named xs + count_named ys)%nat.
Proof.
  unfold count_named. now rewrite filter_app, length_app.
Qed.

Lemma count_named_cons (x : exported_function) (xs : list exported_function) :
  count_named (x :: xs) = ((if named x then 1 else 0) + count_named xs)%nat.
Proof.
  unfold count_named. rewrite filter_cons.
  destruct (decide (named x = true)) as [->|Hn]; [reflexivity|].
  now destruct (named x).
Qed.

(** Writing one entry names at most one more function. *)
Lemma count_named_insert (exports : list exported_function) (i : nat)
    (ex : exported_function) :
  (count_named (<[i := ex]> exports) <= Datatypes.S (count_named exports))%nat.
Proof.
  revert i. induction exports as [|x exports IH]; intros i;
    [destruct i; cbv; lia|].
  destruct i as [|i]; simpl; rewrite !count_named_cons.
  - destruct (named ex), (named x); lia.
  - specialize (IH i). lia.
Qed.

(** The function loop appends at most [count] entries, [count] when it
    succeeds, numbered from the loop index on and without a name. *)
Lemma read_functions_shape (count : nat) :
  forall (i : Z) (f f' : FILE) (pe pe' : PE) (ok : bool),
    read_functions count i f pe = (ok, f', pe') ->
    _ied pe' = _ied pe
    /\ exists new,
        _exports pe' = _exports pe ++ new
        /\ (length new <= count)%nat
        /\ (ok = true -> length new = count)
        /\ (forall k ex, new !! k = Some ex ->
              Ordinal ex = u32 (Base (_ied pe) + (i + Z.of_nat k))
              /\ Name ex = EmptyString).
Proof.
  induction count as [|count IH]; intros i f f' pe pe' ok Hrun;
    cbn [read_functions] in Hrun.
  - injection Hrun as <- <- <-. split; [reflexivity|].
    exists []. rewrite app_nil_r.
    split; [reflexivity|]. split; [simpl; lia|]. split; [reflexivity|].
    intros k ex Hk. discriminate.
  - assert (Hfail : forall g, (false, g, pe) = (ok, f', pe') ->
              _ied pe' = _ied pe
              /\ exists new,
                  _exports pe' = _exports pe ++ new
                  /\ (length new <= Datatypes.S count)%nat
                  /\ (ok = true -> length new = Datatypes.S count)
                  /\ (forall k ex, new !! k = Some ex ->
                        Ordinal ex = u32 (Base (_ied pe) + (i + Z.of_nat k))
                        /\ Name ex = EmptyString)).
    { intros g [= <- <- <-]. split; [reflexivity|].
      exists []. rewrite app_nil_r.
      split; [reflexivity|]. split; [simpl; lia|]. split; [discriminate|].
      intros k ex Hk. discriminate. }
    assert (Hpush : forall g e,
              Ordinal e = u32 (Base (_ied pe) + i) -> Name e = EmptyString ->
              read_functions count (i + 1) g
                (with_exports pe (_exports pe ++ [e])) = (ok, f', pe') ->
              _ied pe' = _ied pe
              /\ exists new,
                  _exports pe' = _exports pe ++ new
                  /\ (length new <= Datatypes.S count)%nat
                  /\ (ok = true -> length new = Datatypes.S count)
                  /\ (forall k ex, new !! k = Some ex ->
                        Ordinal ex = u32 (Base (_ied pe) + (i + Z.of_nat k))
                        /\ Name ex = EmptyString)).
    { intros g e Hord Hname Hrec.
      apply IH in Hrec. destruct Hrec as (Hied & new & Hnew & Hlen & Hok & Hentries).
      split; [exact Hied|].
      exists (e :: new). simpl in Hnew. rewrite <- app_assoc in Hnew.
      split; [exact Hnew|]. split; [simpl; lia|].
      split; [intros Ht; simpl; now rewrite Hok|].
      intros [|k] ex Hk; simpl in Hk.
      - injection Hk as <-. rewrite Z.add_0_r. now split.
      - apply Hentries in Hk. simpl in Hk.
        replace (i + Z.of_nat (Datatypes.S k)) with (i + 1 + Z.of_nat k) by lia.
        exact Hk. }
    destruct (fread 4 f) as [buf f1].
    destruct (short 4 buf); [now apply (Hfail f1)|].
    destruct (_ && _).
    + destruct (_ =? 0); [now apply (Hfail f1)|].
      destruct (read_string_at_offset f1 _ EmptyString) as [[okf forward] f2].
      destruct okf; simpl in Hrun; [|now apply (Hfail f2)].
      eapply Hpush; [| |exact Hrun]; reflexivity.
    + eapply Hpush; [| |exact Hrun]; reflexivity.
Qed.

Lemma ordinals_insert_name (exports : list exported_function) (n : nat)
    (ex : exported_function) (str : string) :
  exports !! n = Some ex ->
  Ordinal <$> <[n := set_Name ex str]> exports = Ordinal <$> exports.
Proof.
  intros Hl. rewrite list_fmap_insert. apply list_insert_id.
  rewrite list_lookup_fmap, Hl. reflexivity.
Qed.

(** The name loop keeps the length and the ordinals of the list, and
    names at most one more function per table entry. *)
Lemma match_names_shape (table : list (Z * Z)) :
  forall (f f' : FILE) (pe pe' : PE) (ok : bool),
    match_names table f pe = Returns (ok, f', pe') ->
    _ied pe' = _ied pe
    /\ length (_exports pe') = length (_exports pe)
    /\ Ordinal <$> _exports pe' = Ordinal <$> _exports pe
    /\ (count_named (_exports pe') <= count_named (_exports pe) + length table)%nat.
Proof.
  induction table as [|[name ord] table IH]; intros f f' pe pe' ok Hrun;
    cbn [match_names] in Hrun.
  - injection Hrun as <- <- <-. repeat split; lia.
  - destruct (_ || _).
    { injection Hrun as <- <- <-. repeat split; lia. }
    destruct (_exports pe !! Z.to_nat ord) as [ex|] eqn:Hl; [|discriminate].
    destruct (read_string_at_offset f _ (Name ex)) as [[oks str] f1].
    set (pe1 := with_exports pe (<[Z.to_nat ord := set_Name ex str]> (_exports pe))) in *.
    assert (H1 : _ied pe1 = _ied pe
                 /\ length (_exports pe1) = length (_exports pe)
                 /\ Ordinal <$> _exports pe1 = Ordinal <$> _exports pe
                 /\ (count_named (_exports pe1) <= Datatypes.S (count_named (_exports pe)))%nat).
    { unfold pe1. simpl. split; [reflexivity|].
      split; [apply length_insert|].
      split; [now apply ordinals_insert_name|apply count_named_insert]. }
    destruct H1 as (Hied & Hlen & Hord & Hcount).
    destruct oks; simpl in Hrun.
    + apply IH in Hrun. destruct Hrun as (Hied' & Hlen' & Hord' & Hcount').
      repeat split; try congruence. cbn [length]. lia.
    + injection Hrun as <- <- <-. repeat split; try assumption. cbn [length]. lia.
Qed.

Lemma ordinals_from_fmap (base : Z) (xs ys : list exported_function) :
  Ordinal <$> xs = Ordinal <$> ys -> ordinals_from base ys -> ordinals_from base xs.
Proof.
  intros Heq Hys i ex Hl.
  assert (Hm : (Ordinal <$> ys) !! i = Some (Ordinal ex))
    by (rewrite <- Heq, list_lookup_fmap, Hl; reflexivity).
  rewrite list_lookup_fmap in Hm.
  destruct (ys !! i) as [ey|] eqn:Hy; [|discriminate].
  injection Hm as <-. now apply Hys.
Qed.

Lemma count_named_unnamed (exports : list exported_function) :
  (forall k ex, exports !! k = Some ex -> Name ex = EmptyString) ->
  count_named exports = 0%nat.
Proof.
  induction exports as [|x exports IH]; intros Hall; [reflexivity|].
  rewrite count_named_cons, IH.
  - unfold named. now rewrite (Hall 0%nat x eq_refl).
  - intros k ex Hk. exact (Hall (Datatypes.S k) ex Hk).
Qed.

Lemma length_decode_table (w count : nat) (buf : list byte) :
  length (decode_table w count buf) = count.
Proof.
  revert buf. induction count as [|count IH]; intros buf; simpl; [reflexivity|].
  now rewrite IH.
Qed.

(** What [_parse_exports] leaves in a list that was empty: at most
    [NumberOfFunctions] entries numbered from [Base] on; when it returns
    true, exactly [NumberOfFunctions] entries, of which at most
    [NumberOfNames] carry a name. *)
Lemma parse_exports_shape (f f' : FILE) (pe pe' : PE) (ok : bool) :
  _exports pe = [] ->
  _parse_exports f pe = Returns (ok, f', pe') ->
  (length (_exports pe') <= Z.to_nat (NumberOfFunctions (_ied pe')))%nat
  /\ ordinals_from (Base (_ied pe')) (_exports pe')
  /\ (ok = true ->
      length (_exports pe') = Z.to_nat (NumberOfFunctions (_ied pe'))
      /\ (count_named (_exports pe') <= Z.to_nat (NumberOfNames (_ied pe')))%nat).
Proof.
  intros Hempty.
  assert (Hearly : forall pe'' : PE,
            _exports pe'' = [] ->
            (ok = true -> NumberOfFunctions (_ied pe'') = 0) ->
            (length (_exports pe'') <= Z.to_nat (NumberOfFunctions (_ied pe'')))%nat
            /\ ordinals_from (Base (_ied pe'')) (_exports pe'')
            /\ (ok = true ->
                length (_exports pe'') = Z.to_nat (NumberOfFunctions (_ied pe''))
                /\ (count_named (_exports pe'')
                    <= Z.to_nat (NumberOfNames (_ied pe'')))%nat)).
  { intros pe'' He H0. rewrite He. split; [simpl; lia|].
    split; [intros i ex Hl; discriminate|].
    intros Hok. rewrite (H0 Hok). split; [reflexivity|]. cbv. lia. }
  unfold _parse_exports.
  match goal with
  | |- context [_reach_directory ?p f ?slot] =>
      destruct (reach_directory_returns p f slot)
        as (reached & f1 & log & Hreach & _);
        [unfold IMAGE_DIRECTORY_ENTRY_EXPORT; lia|]
  end.
  rewrite Hreach. simpl mbind.
  destruct reached; simpl negb; cbv iota.
  2: { returned. apply Hearly; [exact Hempty|reflexivity]. }
  destruct (fread ied_size f1) as [buf f2].
  destruct (short ied_size buf).
  { returned. apply Hearly; [exact Hempty|discriminate]. }
  destruct (_ =? 0).
  { returned. apply Hearly; [exact Hempty|discriminate]. }
  destruct (read_string_at_offset f2 _ _) as [[ok1 str] f3].
  destruct ok1; simpl negb; cbv iota.
  2: { returned. apply Hearly; [exact Hempty|discriminate]. }
  destruct (_ =? 0).
  { returned. apply Hearly; [exact Hempty|discriminate]. }
  destruct (fseek f3 _ SEEK_SET) as [r f4].
  destruct (negb (r =? 0)).
  { returned. apply Hearly; [exact Hempty|discriminate]. }
  destruct (read_functions _ 0 f4 _) as [[ok2 f5] pe4] eqn:Hfun.
  apply read_functions_shape in Hfun.
  destruct Hfun as (Hied & new & Hnew & Hlen & Hok & Hentries).
  cbn [_exports with_ied] in Hnew.
  rewrite Hempty in Hnew. simpl in Hnew.
  cbn [_ied with_ied] in Hied, Hentries.
  assert (HN : NumberOfFunctions (_ied pe4) = field buf 20 4)
    by (rewrite Hied; reflexivity).
  assert (HB : Base (_ied pe4) = field buf 16 4) by (rewrite Hied; reflexivity).
  cbn [Base set_NameStr decode_ied] in Hentries.
  rewrite <- HN in Hlen, Hok. rewrite <- HB in Hentries.
  assert (Hord : ordinals_from (Base (_ied pe4)) (_exports pe4)).
  { rewrite Hnew. intros i ex Hl. now apply Hentries in Hl. }
  assert (Hunnamed : forall k ex, _exports pe4 !! k = Some ex -> Name ex = EmptyString)
    by (rewrite Hnew; intros k ex Hk; now apply Hentries in Hk).
  clear Hied Hentries HN HB.
  assert (Hmid : forall g : FILE,
            Returns (false, g, pe4) = Returns (ok, f', pe') ->
            (length (_exports pe') <= Z.to_nat (NumberOfFunctions (_ied pe')))%nat
            /\ ordinals_from (Base (_ied pe')) (_exports pe')
            /\ (ok = true ->
                length (_exports pe') = Z.to_nat (NumberOfFunctions (_ied pe'))
                /\ (count_named (_exports pe')
                    <= Z.to_nat (NumberOfNames (_ied pe')))%nat)).
  { intros g. returned.
    split; [rewrite Hnew; exact Hlen|]. split; [exact Hord|discriminate]. }
  destruct ok2; simpl negb; cbv iota; [|apply Hmid].
  destruct (negb (allocates _) || negb (allocates _)); [discriminate|].
  destruct (_rva_to_offset pe4 (AddressOfNames (_ied pe4)) =? 0); [apply Hmid|].
  destruct (fseek f5 _ SEEK_SET) as [r2 f6].
  destruct (negb (r2 =? 0)); [apply Hmid|].
  destruct (fread (NumberOfNames (_ied pe4) * 4) f6) as [names f7].
  destruct (short _ names); [apply Hmid|].
  destruct (_rva_to_offset pe4 (AddressOfNameOrdinals (_ied pe4)) =? 0); [apply Hmid|].
  destruct (fseek f7 _ SEEK_SET) as [r3 f8].
  destruct (negb (r3 =? 0)); [apply Hmid|].
  destruct (fread (NumberOfNames (_ied pe4) * 2) f8) as [ords f9].
  destruct (short _ ords); [apply Hmid|].
  intros Hnames. apply match_names_shape in Hnames.
  destruct Hnames as (Hied' & Hlen' & Hord' & Hcount').
  rewrite Hied', Hlen'.
  split; [rewrite Hnew; exact Hlen|].
  split; [exact (ordinals_from_fmap _ _ _ Hord' Hord)|].
  intros _. split; [rewrite Hnew; now apply Hok|].
  rewrite (count_named_unnamed (_exports pe4)) in Hcount' by exact Hunnamed.
  rewrite length_zip, !length_decode_table in Hcount'. lia.
Qed.

(** *** When the name ordinals are distinct *)

Lemma count_named_insert_new (exports : list exported_function) (n : nat)
    (old new : exported_function) :
  exports !! n = Some old -> named old = false -> named new = true ->
  count_named (<[n := new]> exports) = Datatypes.S (count_named exports).
Proof.
  revert n. induction exports as [|x exports IH]; intros n Hl Hold Hnew;
    [discriminate|].
  destruct n as [|n]; simpl in *; rewrite !count_named_cons.
  - injection Hl as ->. now rewrite Hold, Hnew.
  - now rewrite (IH n Hl Hold Hnew).
Qed.

(** The name loop writes only the entries that the table designates. *)
Lemma match_names_untouched (table : list (Z * Z)) :
  forall (f f' : FILE) (pe pe' : PE) (ok : bool) (m : nat),
    match_names table f pe = Returns (ok, f', pe') ->
    (forall p, p ∈ table -> Z.to_nat p.2 <> m) ->
    _exports pe' !! m = _exports pe !! m.
Proof.
  induction table as [|[name ord] table IH]; intros f f' pe pe' ok m Hrun Hm;
    cbn [match_names] in Hrun.
  - now injection Hrun as _ _ <-.
  - destruct (_ || _); [now injection Hrun as _ _ <-|].
    destruct (_exports pe !! Z.to_nat ord) as [ex|] eqn:Hl; [|discriminate].
    destruct (read_string_at_offset f _ (Name ex)) as [[oks str] f1].
    assert (Hne : Z.to_nat ord <> m) by (apply (Hm (name, ord)); left).
    destruct oks; simpl in Hrun.
    + apply (IH _ _ _ _ _ m) in Hrun.
      * rewrite Hrun. cbn [_exports with_exports].
        now apply list_lookup_insert_ne.
      * intros p Hp. apply Hm. now right.
    + injection Hrun as _ _ <-. cbn [_exports with_exports].
      now apply list_lookup_insert_ne.
Qed.

(** With distinct name ordinals, each table entry names one more
    function, provided the name it wrote is not empty. *)
Lemma match_names_exact (table : list (Z * Z)) :
  forall (f f' : FILE) (pe pe' : PE),
    (forall p, p ∈ table -> 0 <= p.2) ->
    NoDup (table.*2) ->
    (forall p ex, p ∈ table ->
       _exports pe !! Z.to_nat p.2 = Some ex -> named ex = false) ->
    match_names table f pe = Returns (true, f', pe') ->
    (forall p ex, p ∈ table ->
       _exports pe' !! Z.to_nat p.2 = Some ex -> named ex = true) ->
    count_named (_exports pe')
    = (count_named (_exports pe) + length table)%nat.
Proof.
  induction table as [|[name ord] table IH];
    intros f f' pe pe' Hpos Hnodup Hunnamed Hrun Hnamed;
    cbn [match_names] in Hrun.
  - injection Hrun as _ <-. simpl. lia.
  - destruct (_ || _); [discriminate|].
    destruct (_exports pe !! Z.to_nat ord) as [ex|] eqn:Hl; [|discriminate].
    destruct (read_string_at_offset f _ (Name ex)) as [[oks str] f1].
    destruct oks; simpl in Hrun; [|discriminate].
    rewrite fmap_cons in Hnodup. cbn [snd] in Hnodup.
    apply NoDup_cons in Hnodup. destruct Hnodup as [Hfresh Hnodup].
    assert (Hord : 0 <= ord) by (apply (Hpos (name, ord)); left).
    assert (Hother : forall p, p ∈ table -> Z.to_nat p.2 <> Z.to_nat ord).
    { intros p Hp Heq.
      assert (0 <= p.2) by (apply Hpos; now right).
      apply Hfresh. replace ord with p.2 by lia.
      apply list_elem_of_fmap. now exists p. }
    set (pe1 := with_exports pe (<[Z.to_nat ord := set_Name ex str]> (_exports pe))) in *.
    assert (Hwritten : _exports pe' !! Z.to_nat ord = Some (set_Name ex str)).
    { rewrite (match_names_untouched table _ _ _ _ _ (Z.to_nat ord) Hrun Hother).
      unfold pe1. cbn [_exports with_exports].
      apply list_lookup_insert_eq. now apply lookup_lt_Some in Hl. }
    rewrite (IH f1 f' pe1 pe').
    + unfold pe1 at 1. cbn [_exports with_exports].
      rewrite (count_named_insert_new _ _ ex).
      * cbn [length]. lia.
      * exact Hl.
      * apply (Hunnamed (name, ord)); [left|exact Hl].
      * apply (Hnamed (name, ord)); [left|exact Hwritten].
    + intros p Hp. apply Hpos. now right.
    + exact Hnodup.
    + intros p ex' Hp Hl'. unfold pe1 in Hl'. cbn [_exports with_exports] in Hl'.
      rewrite list_lookup_insert_ne in Hl' by (apply not_eq_sym; now apply Hother).
      apply (Hunnamed p); [now right|exact Hl'].
    + exact Hrun.
    + intros p ex' Hp. apply Hnamed. now right.
Qed.

Lemma decode_table_take (w count : nat) (buf : list byte) :
  decode_table w count (take (w * count) buf) = decode_table w count buf.
Proof.
  revert buf. induction count as [|count IH]; intros buf; [reflexivity|].
  cbn [decode_table].
  rewrite take_take.
  replace (w `min` (w * Datatypes.S count))%nat with w by lia.
  f_equal.
  replace (w * Datatypes.S count)%nat with (w + w * count)%nat by lia.
  rewrite <- take_drop_commute. apply IH.
Qed.

Lemma decode_table_nonneg (w count : nat) (buf : list byte) (v : Z) :
  v ∈ decode_table w count buf -> 0 <= v.
Proof.
  revert buf. induction count as [|count IH]; intros buf Hv; cbn [decode_table] in Hv.
  - now apply elem_of_nil in Hv.
  - apply elem_of_cons in Hv. destruct Hv as [->|Hv].
    + apply le_decode_range.
    + now apply IH in Hv.
Qed.

Lemma rva_to_offset_sections (pe1 pe2 : PE) (rva : Z) :
  _sections pe1 = _sections pe2 -> _rva_to_offset pe1 rva = _rva_to_offset pe2 rva.
Proof.
  intros Hs. unfold _rva_to_offset. now rewrite Hs.
Qed.

Lemma read_functions_keeps (count : nat) :
  keeps_contents E ->
  forall (i : Z) (f f' : FILE) (pe pe' : PE) (ok : bool),
    read_functions count i f pe = (ok, f', pe') ->
    contents f' = contents f /\ _sections pe' = _sections pe.
Proof.
  intros Hkeeps.
  induction count as [|count IH]; intros i f f' pe pe' ok Hrun;
    cbn [read_functions] in Hrun.
  - now injection Hrun as _ <- <-.
  - pose proof (fread_contents 4 f) as Hc1.
    destruct (fread 4 f) as [buf f1]. simpl in Hc1.
    destruct (short 4 buf); [now injection Hrun as _ <- <-|].
    destruct (_ && _).
    + destruct (_ =? 0); [now injection Hrun as _ <- <-|].
      pose proof (Hkeeps f1 (_rva_to_offset pe (le_decode buf)) EmptyString) as Hc2.
      destruct (read_string_at_offset f1 _ EmptyString) as [[okf forward] f2].
      simpl in Hc2.
      destruct okf; simpl in Hrun.
      * apply IH in Hrun. destruct Hrun as [Hc Hs]. split; [congruence|exact Hs].
      * injection Hrun as _ <- <-. split; [congruence|reflexivity].
    + apply IH in Hrun. destruct Hrun as [Hc Hs]. split; [congruence|exact Hs].
Qed.

Lemma match_names_sections (table : list (Z * Z)) :
  forall (f f' : FILE) (pe pe' : PE) (ok : bool),
    match_names table f pe = Returns (ok, f', pe') ->
    _sections pe' = _sections pe.
Proof.
  induction table as [|[name ord] table IH]; intros f f' pe pe' ok Hrun;
    cbn [match_names] in Hrun.
  - now injection Hrun as _ _ <-.
  - destruct (_ || _); [now injection Hrun as _ _ <-|].
    destruct (_exports pe !! Z.to_nat ord) as [ex|]; [|discriminate].
    destruct (read_string_at_offset f _ (Name ex)) as [[oks str] f1].
    destruct oks; simpl in Hrun.
    + now apply IH in Hrun.
    + now injection Hrun as _ _ <-.
Qed.

(** When [_parse_exports] succeeds on a fresh list and the name ordinals
    of the file are pairwise distinct, as many functions are named as
    the directory declares names, provided the names written are not
    empty. *)
Lemma parse_exports_names_exact (f f' : FILE) (pe pe' : PE) :
  keeps_contents E ->
  _exports pe = [] ->
  _parse_exports f pe = Returns (true, f', pe') ->
  NoDup (name_ordinals f pe') ->
  (forall ord ex, ord ∈ name_ordinals f pe' ->
     _exports pe' !! Z.to_nat ord = Some ex -> named ex = true) ->
  count_named (_exports pe') = Z.to_nat (NumberOfNames (_ied pe')).
Proof.
  intros Hkeeps Hempty. unfold _parse_exports.
  match goal with
  | |- context [_reach_directory ?p f ?slot] =>
      destruct (reach_directory_returns p f slot)
        as (reached & f1 & log & Hreach & Hc1);
        [unfold IMAGE_DIRECTORY_ENTRY_EXPORT; lia|]
  end.
  rewrite Hreach. simpl mbind.
  destruct reached; simpl negb; cbv iota.
  2: { intros Hret _ _. injection Hret as _ <-.
       cbn [_exports with_ied]. now rewrite Hempty. }
  pose proof (fread_contents ied_size f1) as Hc2.
  destruct (fread ied_size f1) as [buf f2]. simpl in Hc2.
  destruct (short ied_size buf); [discriminate|].
  destruct (_ =? 0); [discriminate|].
  match goal with
  | |- context [read_string_at_offset f2 ?o ?s] =>
      pose proof (Hkeeps f2 o s) as Hc3;
      destruct (read_string_at_offset f2 o s) as [[ok1 str] f3]
  end.
  simpl in Hc3.
  destruct ok1; simpl negb; cbv iota; [|discriminate].
  destruct (_ =? 0); [discriminate|].
  match goal with
  | |- context [fseek f3 ?o SEEK_SET] =>
      pose proof (fseek_contents f3 o SEEK_SET) as Hc4;
      destruct (fseek f3 o SEEK_SET) as [r f4]
  end.
  simpl in Hc4.
  destruct (negb (r =? 0)); [discriminate|].
  destruct (read_functions _ 0 f4 _) as [[ok2 f5] pe4] eqn:Hfun.
  pose proof (read_functions_keeps _ Hkeeps _ _ _ _ _ _ Hfun) as [Hc5 _].
  apply read_functions_shape in Hfun.
  destruct Hfun as (_ & new & Hnew & _ & _ & Hentries).
  cbn [_exports with_ied] in Hnew. rewrite Hempty in Hnew. simpl in Hnew.
  assert (Hunnamed : forall k ex, _exports pe4 !! k = Some ex -> named ex = false).
  { rewrite Hnew. intros k ex Hk. apply Hentries in Hk.
    unfold named. now rewrite (proj2 Hk). }
  clear Hentries Hnew new.
  destruct ok2; simpl negb; cbv iota; [|discriminate].
  destruct (negb (allocates _) || negb (allocates _)); [discriminate|].
  destruct (_ =? 0); [discriminate|].
  match goal with
  | |- context [fseek f5 ?o SEEK_SET] =>
      pose proof (fseek_contents f5 o SEEK_SET) as Hc6;
      destruct (fseek f5 o SEEK_SET) as [r2 f6]
  end.
  simpl in Hc6.
  destruct (negb (r2 =? 0)); [discriminate|].
  pose proof (fread_contents (NumberOfNames (_ied pe4) * 4) f6) as Hc7.
  destruct (fread (NumberOfNames (_ied pe4) * 4) f6) as [names f7]. simpl in Hc7.
  destruct (short _ names); [discriminate|].
  destruct (_ =? 0); [discriminate|].
  destruct (fseek f7 _ SEEK_SET) as [r3 f8] eqn:Hseek.
  destruct (Z.eqb_spec r3 0) as [->|]; simpl negb; cbv iota; [|discriminate].
  apply fseek_set_stream in Hseek.
  pose proof (fread_got (NumberOfNames (_ied pe4) * 2) f8) as Hgot.
  destruct (fread (NumberOfNames (_ied pe4) * 2) f8) as [ords f9]. simpl in Hgot.
  destruct (short _ ords); [discriminate|].
  set (n := Z.to_nat (NumberOfNames (_ied pe4))).
  set (table := zip (decode_table 4 n names) (decode_table 2 n ords)).
  intros Hrun.
  pose proof (match_names_shape _ _ _ _ _ _ Hrun) as (Hied & _ & _ & _).
  pose proof (match_names_sections _ _ _ _ _ _ Hrun) as Hsec.
  assert (Htable : table.*2 = name_ordinals f pe').
  { unfold table, name_ordinals.
    rewrite snd_zip by (rewrite !length_decode_table; lia).
    rewrite Hied, (rva_to_offset_sections pe' pe4) by exact Hsec.
    fold n. rewrite Hgot, Hseek.
    replace (Z.to_nat (NumberOfNames (_ied pe4) * 2)) with (2 * n)%nat
      by (unfold n; lia).
    rewrite decode_table_take. do 2 f_equal. congruence. }
  rewrite <- Htable. intros Hnodup Hnamed.
  rewrite (match_names_exact table f9 f' pe4 pe').
  - rewrite (count_named_unnamed (_exports pe4)).
    + unfold table. rewrite length_zip, !length_decode_table, Hied. fold n. lia.
    + intros k ex Hk. apply Hunnamed in Hk. unfold named in Hk.
      apply negb_false_iff, String.eqb_eq in Hk. exact Hk.
  - intros p Hp.
    apply (decode_table_nonneg 2 n ords).
    assert (Hin : p.2 ∈ table.*2) by (apply list_elem_of_fmap; now exists p).
    unfold table in Hin.
    now rewrite snd_zip in Hin by (rewrite !length_decode_table; lia).
  - exact Hnodup.
  - intros p ex _ Hl. now apply Hunnamed in Hl.
  - exact Hrun.
  - intros p ex Hp. apply Hnamed.
    apply list_elem_of_fmap. now exists p.
Qed.

End Exports.

(** ** What a parser leaves behind *)

Section Leftovers.
Context {E : Externals}.

Lemma read_types_offsets_length (count : nat) :
  forall (f f' : FILE) (acc entries : list Z),
    read_types_offsets count f acc = (true, f', entries) ->
    length entries = (length acc + count)%nat.
Proof.
  induction count as [|count IH]; intros f f' acc entries Hr;
    cbn [read_types_offsets] in Hr.
  - injection Hr as _ <-. lia.
  - destruct (fread 2 f) as [buf f1].
    destruct (short 2 buf); [discriminate|].
    apply IH in Hr. rewrite length_app in Hr. simpl in Hr. lia.
Qed.

Lemma entry_count_nonneg (block_size : Z) : 0 <= entry_count block_size.
Proof.
  unfold entry_count, u32. apply Z.div_pos; [|lia].
  apply Z.mod_pos_bound. lia.
Qed.

(** Whatever the relocation loop returns, the blocks it has appended are
    complete. *)
Lemma relocations_loop_complete (fuel : nat) :
  forall (remaining : Z) (f f' : FILE) (pe pe' : PE) (ok : bool),
    loop relocations_body fuel (remaining, f, pe) = Returns (ok, f', pe') ->
    exists blocks,
      _relocations pe' = _relocations pe ++ blocks
      /\ Forall complete_block blocks.
Proof.
  induction fuel as [|fuel IH]; intros remaining f f' pe pe' ok Hrun;
    [discriminate|].
  rewrite loop_step in Hrun. unfold relocations_body at 1 in Hrun.
  assert (Hstop : forall (b : bool) (g : FILE),
            Returns (b, g, pe) = Returns (ok, f', pe') ->
            exists blocks,
              _relocations pe' = _relocations pe ++ blocks
              /\ Forall complete_block blocks).
  { intros b g Hret. injection Hret as <- <- <-.
    exists []. now rewrite app_nil_r. }
  destruct (negb (0 <? remaining)); [now apply (Hstop true f)|].
  destruct (fread reloc_header_size f) as [buf f1].
  destruct (_ || _); [now apply (Hstop false f1)|].
  destruct (read_types_offsets _ f1 []) as [[oke f2] entries] eqn:Hread.
  destruct oke; simpl negb in Hrun; cbv iota in Hrun; [|now apply (Hstop false f2)].
  apply IH in Hrun. destruct Hrun as (blocks & Hblocks & Hcomplete).
  cbn [_relocations with_relocations] in Hblocks.
  rewrite <- app_assoc in Hblocks.
  eexists. split; [exact Hblocks|].
  constructor; [|exact Hcomplete].
  unfold complete_block. cbn [TypesOffsets BlockSize].
  apply read_types_offsets_length in Hread. simpl in Hread.
  pose proof (entry_count_nonneg (field buf 4 4)). lia.
Qed.

Lemma parse_relocations_complete (fuel : nat) (f f' : FILE) (pe pe' : PE)
    (ok : bool) :
  _parse_relocations fuel f pe = Returns (ok, f', pe') ->
  exists blocks,
    _relocations pe' = _relocations pe ++ blocks
    /\ Forall complete_block blocks.
Proof.
  unfold _parse_relocations.
  destruct (reach_directory_returns pe f IMAGE_DIRECTORY_ENTRY_BASERELOC)
    as (reached & f1 & log & Hreach & _);
    [unfold IMAGE_DIRECTORY_ENTRY_BASERELOC; lia|].
  rewrite Hreach. simpl mbind.
  destruct reached; simpl negb; cbv iota.
  - apply relocations_loop_complete.
  - intros Hret. injection Hret as <- <- <-.
    exists []. now rewrite app_nil_r.
Qed.

(** When the relocation loop returns true, the sizes of the blocks it
    has appended add up to the size it started from. *)
Lemma relocations_loop_success_sum (fuel : nat) :
  forall (remaining : Z) (f f' : FILE) (pe pe' : PE),
    0 <= remaining < 2 ^ 32 ->
    loop relocations_body fuel (remaining, f, pe) = Returns (true, f', pe') ->
    exists blocks,
      _relocations pe' = _relocations pe ++ blocks
      /\ sum_sizes blocks = remaining.
Proof.
  induction fuel as [|fuel IH]; intros remaining f f' pe pe' Hrem Hrun;
    [discriminate|].
  rewrite loop_step in Hrun. unfold relocations_body at 1 in Hrun.
  destruct (Z.ltb_spec 0 remaining) as [Hpos|Hzero]; simpl negb in Hrun;
    cbv iota in Hrun.
  2: { injection Hrun as _ <-. exists []. rewrite app_nil_r.
       split; [reflexivity|]. simpl. lia. }
  destruct (fread reloc_header_size f) as [buf f1].
  destruct (short reloc_header_size buf); [discriminate|]. simpl orb in Hrun.
  destruct (Z.ltb_spec remaining (field buf 4 4)) as [|Hfit]; [discriminate|].
  destruct (read_types_offsets _ f1 []) as [[oke f2] entries].
  destruct oke; simpl negb in Hrun; cbv iota in Hrun; [|discriminate].
  assert (Hsize : 0 <= field buf 4 4) by apply le_decode_range.
  rewrite u32_small in Hrun by lia.
  apply IH in Hrun; [|lia].
  destruct Hrun as (blocks & Hblocks & Hsum).
  cbn [_relocations with_relocations] in Hblocks.
  rewrite <- app_assoc in Hblocks.
  eexists. split; [exact Hblocks|].
  simpl. lia.
Qed.

Lemma parse_relocations_success_sum (fuel : nat) (f f1 f' : FILE) (pe pe' : PE)
    (log : list diagnostic) :
  let size := Size (directory_slot pe IMAGE_DIRECTORY_ENTRY_BASERELOC) in
  _reach_directory pe f IMAGE_DIRECTORY_ENTRY_BASERELOC = Returns (true, f1, log) ->
  0 <= size < 2 ^ 32 ->
  _parse_relocations fuel f pe = Returns (true, f', pe') ->
  exists blocks,
    _relocations pe' = _relocations pe ++ blocks
    /\ sum_sizes blocks = size.
Proof.
  intros size Hreach Hsize. unfold _parse_relocations.
  rewrite Hreach. simpl mbind. simpl negb. cbv iota.
  now apply relocations_loop_success_sum.
Qed.

(** The callback loop is left by [break] only: it returns true. *)
Lemma callbacks_loop_true (fuel : nat) :
  forall (st : Z * FILE * PE) (f' : FILE) (pe' : PE) (ok : bool),
    loop callbacks_body fuel st = Returns (ok, f', pe') -> ok = true.
Proof.
  induction fuel as [|fuel IH]; intros [[address f] pe] f' pe' ok Hrun;
    [discriminate|].
  rewrite loop_step in Hrun. unfold callbacks_body at 1 in Hrun.
  destruct (fread (callback_size pe) f) as [buf f1].
  destruct (_ || _).
  - now injection Hrun as <- _ _.
  - now apply IH in Hrun.
Qed.

(** A failure of [_parse_tls] precedes the callback loop: the callback
    list is as it was. *)
Lemma parse_tls_failure_callbacks (fuel : nat) (f f' : FILE) (pe pe' : PE) :
  _parse_tls fuel f pe = Returns (false, f', pe') ->
  Callbacks (_tls pe') = Callbacks (_tls pe).
Proof.
  unfold _parse_tls.
  destruct (reach_directory_returns pe f IMAGE_DIRECTORY_ENTRY_TLS)
    as (reached & f1 & log & Hreach & _);
    [unfold IMAGE_DIRECTORY_ENTRY_TLS; lia|].
  rewrite Hreach. simpl mbind.
  destruct reached; simpl negb; cbv iota; [|discriminate].
  pose proof (read_tls_record_keeps f1 pe) as (_ & _ & Hcb).
  destruct (read_tls_record f1 pe) as [f2 pe2]. simpl in Hcb.
  destruct (_ || _); [intros Hret; now injection Hret as <- <-|].
  destruct (_ =? 0); [intros Hret; now injection Hret as <- <-|].
  destruct (fseek f2 _ SEEK_SET) as [r f3].
  destruct (negb _); [intros Hret; now injection Hret as <- <-|].
  intros Hloop. apply callbacks_loop_true in Hloop. discriminate.
Qed.

End Leftovers.

(** ** Out-of-range name ordinals *)

Section NameOrdinals.
Context {E : Externals}.

(** The range test of the name loop lets through the ordinal that equals
    the size of the list, and [_exports.at] throws on it. *)
Lemma match_names_ordinal_at_size (name ord : Z) (table : list (Z * Z))
    (f : FILE) (pe : PE) :
  _rva_to_offset pe name <> 0 ->
  ord = Z.of_nat (length (_exports pe)) ->
  match_names ((name, ord) :: table) f pe = Throws.
Proof.
  intros Hoff ->. cbn [match_names].
  destruct (Z.eqb_spec (_rva_to_offset pe name) 0); [contradiction|].
  rewrite Z.ltb_irrefl. simpl orb. cbv iota.
  rewrite Nat2Z.id, lookup_ge_None_2 by lia. reflexivity.
Qed.

(** Above the size of the list the loop returns false. *)
Lemma match_names_ordinal_above_size (name ord : Z) (table : list (Z * Z))
    (f : FILE) (pe : PE) :
  Z.of_nat (length (_exports pe)) < ord ->
  match_names ((name, ord) :: table) f pe = Returns (false, f, pe).
Proof.
  intros Hord. cbn [match_names].
  destruct (Z.ltb_spec (Z.of_nat (length (_exports pe))) ord); [|lia].
  now rewrite orb_true_r.
Qed.

(** A recognized certificate that is shorter than the remaining size
    makes the certificate loop return false. *)
Lemma certificates_body_rejects_shorter (remaining : Z) (f : FILE) (pe : PE) 
    (c : win_certificate) (rest : list byte) :
  stream f = encode_certificate c ++ rest ->
  0 <= Length c < 2 ^ 32 -> 0 <= Revision c < 2 ^ 16 ->
  0 <= CertificateType c < 2 ^ 16 ->
  unknown (CertificateType c) WIN_CERTIFICATE_TYPES
  && unknown (Revision c) WIN_CERTIFICATE_REVISIONS = false ->
  cert_header_size < remaining -> Length c < remaining ->
  exists f', certificates_body (remaining, f, pe) = inr (Returns (false, f', pe)).
Proof.
  intros Hs Hlen Hrev Htype Hknown Hrem Hshorter.
  unfold encode_certificate in Hs.
  rewrite !app_assoc in Hs. rewrite <- app_assoc in Hs.
  destruct (fread_app _ _ cert_header_size f Hs) as (f1 & Hr & _);
    [now rewrite !length_app, !length_le_encode|].
  exists f1. unfold certificates_body.
  destruct (Z.ltb_spec cert_header_size remaining); [|lia]. simpl negb. cbv iota.
  rewrite Hr.
  replace (short cert_header_size _) with false
    by (symmetry; apply short_false; now rewrite !length_app, !length_le_encode).
  rewrite <- !app_assoc.
  rewrite field_head by (simpl; lia).
  rewrite (field_after (le_encode 4 (Length c)) _ 4 2 (Revision c))
    by (simpl; first [apply length_le_encode|lia]).
  rewrite (app_assoc (le_encode 4 (Length c))).
  rewrite <- (app_nil_r (le_encode 2 (CertificateType c))).
  rewrite (field_after _ [] 6 2 (CertificateType c))
    by (simpl; first [now rewrite length_app, !length_le_encode|lia]).
  rewrite Hknown.
  destruct (Z.ltb_spec (Length c) remaining); [reflexivity|lia].
Qed.

End NameOrdinals.

Section Certificates.
Context {E : Externals}.

(** [_parse_certificates] rejects a recognized first certificate that is
    shorter than the directory, and keeps nothing. *)
Lemma parse_certificates_rejects_shorter (pe : PE) (f f1 : FILE)
    (c : win_certificate) (rest : list byte) (fuel : nat) :
  let d := directory_slot pe IMAGE_DIRECTORY_ENTRY_SECURITY in
  VirtualAddress d <> 0 ->
  fseek f (VirtualAddress d) SEEK_SET = (0, f1) ->
  stream f1 = encode_certificate c ++ rest ->
  0 <= Length c < 2 ^ 32 -> 0 <= Revision c < 2 ^ 16 ->
  0 <= CertificateType c < 2 ^ 16 ->
  unknown (CertificateType c) WIN_CERTIFICATE_TYPES
  && unknown (Revision c) WIN_CERTIFICATE_REVISIONS = false ->
  cert_header_size < Size d -> Length c < Size d ->
  (0 < fuel)%nat ->
  exists f', _parse_certificates fuel f pe = Returns (false, f', pe).
Proof.
  intros d Hva Hseek Hs Hlen Hrev Htype Hknown Hsize Hshorter Hfuel.
  destruct (certificates_body_rejects_shorter (Size d) f1 pe c rest)
    as (f' & Hbody); try assumption.
  exists f'. unfold _parse_certificates. fold d.
  destruct (Z.eqb_spec (VirtualAddress d) 0); [contradiction|].
  rewrite Hseek. simpl negb. cbv iota.
  destruct fuel as [|fuel]; [lia|].
  now rewrite loop_step, Hbody.
Qed.

End Certificates.

(** The case the loop is written for: one certificate that fills the
    directory is kept, its blob resized to [Length]. *)
Example parse_certificates_single :
  exists f',
    _parse_certificates (E := modelled) 2 single_certificate_file
      single_certificate_pe
    = Returns (true, f',
               with_certificates single_certificate_pe
                 [mkCert 24 0x0200 2 (replicate 16 x07 ++ replicate 8 x00)]).
Proof.
  eexists. vm_compute. reflexivity.
Qed.

(** A certificate longer than the directory is read all the same: 24
    bytes are consumed where 16 are declared, and the remaining-byte
    counter wraps around. *)
Example parse_certificates_oversized :
  exists f' pe',
    _parse_certificates (E := modelled) 3 oversized_certificate_file
      oversized_certificate_pe
    = Returns (true, f', pe')
    /\ length (_certificates pe') = 1%nat
    /\ position f' = 40%N
    /\ u32 (16 - 24) = 2 ^ 32 - 8.
Proof.
  eexists _, _. split; [vm_compute; reflexivity|]. repeat split.
Qed.

(** The PE32+ path: 8-byte values, up to the zero value. *)
Example parse_tls_pe32plus :
  exists f' pe',
    _parse_tls (E := modelled) 3 tls64_file tls64_pe = Returns (true, f', pe')
    /\ Callbacks (_tls pe') = [0x100401000].
Proof.
  eexists _, _. split; [vm_compute; reflexivity|]. reflexivity.
Qed.

(** C2, on the code as it is: two recognized certificates of 12 and 10
    bytes stand back to back, 8-byte aligned, in a directory that
    declares 32 bytes.  The claim wants two parsed certificates; the test
    [cert->Length < remaining_bytes] of line 586 sends the first
    certificate, which is shorter than the directory, to [return false],
    and no certificate is kept. *)
Theorem parse_certificates_rejects_first_of_two :
  stream (fseek two_certificates_file 0x10 SEEK_SET).2
  = pad_to 16 (encode_certificate first_certificate)
    ++ pad_to 16 (encode_certificate second_certificate)
  /\ exists f',
      _parse_certificates (E := modelled) 10 two_certificates_file
        two_certificates_pe
      = Returns (false, f', two_certificates_pe)
      /\ _certificates two_certificates_pe = [].
Proof.
  split; [vm_compute; reflexivity|].
  eexists. split; [vm_compute; reflexivity|reflexivity].
Qed.

(** C4, on the code as it is: the export directory declares one function
    and one name whose ordinal entry is 1, out of the range of the
    one-entry function list.  The test [ords[i] > _exports.size()] lets
    1 through and [_exports.at(1)] throws [std::out_of_range]:
    [_parse_exports] does not return false. *)
Theorem parse_exports_ordinal_past_end_throws :
  _parse_exports (E := modelled) ordinal_past_end_file export_pe = Throws.
Proof.
  vm_compute. reflexivity.
Qed.



(** The modelled string reader only seeks. *)
Lemma modelled_keeps_contents : keeps_contents modelled.
Proof.
  intros f offset out. simpl. unfold modelled_read_string_at_offset.
  pose proof (fseek_contents f offset SEEK_SET) as Hc.
  destruct (fseek f offset SEEK_SET) as [r f1]. simpl in Hc.
  destruct (r =? 0); simpl; [|reflexivity].
  now rewrite fseek_contents.
Qed.

(** ** Runs on the sample images *)





(** The TLS slot of the sample image has an address and a size. *)
Lemma reach_directory_zero_field_cases_witness :
  0 <= 9 <= 15
  /\ exists ok f' log,
      _reach_directory (E := modelled) tls_pe tls_file 9
      = Returns (ok, f', [] ++ log)
      /\ (ok = true <->
          _rva_to_offset (E := modelled) tls_pe 0x10 <> 0
          /\ (fseek tls_file (_rva_to_offset (E := modelled) tls_pe 0x10) SEEK_SET).1 = 0).
Proof.
  assert (Hslot : 0 <= 9 <= 15) by lia.
  split; [exact Hslot|].
  destruct (proj2 (proj2 (reach_directory_zero_field_cases modelled tls_pe
                            tls_file 9 Hslot)))
    as (ok & f' & log & Hrun & Hok & _).
  - vm_compute. discriminate.
  - exists ok, f', log. split; [exact Hrun|exact Hok].
Defined.

(** Two blocks of 12 and 10 bytes in a directory of 22 bytes. *)
Lemma parse_relocations_blocks_witness :
  exists f',
    _parse_relocations (E := modelled) 3 reloc_file (reloc_pe 22)
    = Returns (true, f',
               with_relocations (reloc_pe 22)
                 (_relocations (reloc_pe 22) ++ sample_blocks)).
Proof.
  refine (proj1 (proj2 (parse_relocations_blocks modelled (reloc_pe 22)
                          reloc_file _ _ sample_blocks [] 3 _ _ _ _ _)) _).
  - vm_compute. reflexivity.
  - vm_compute. reflexivity.
  - repeat constructor; vm_compute; congruence.
  - vm_compute. reflexivity.
  - simpl. lia.
  - vm_compute. reflexivity.
Defined.

(** Two callbacks, the zero value, and a value that is not read. *)
Lemma parse_tls_callbacks_witness :
  exists f',
    _parse_tls (E := modelled) 3 tls_file tls_pe
    = Returns (true, f',
               with_callbacks (read_tls_record (fseek tls_file 0x10 SEEK_SET).2 tls_pe).2
                 (Callbacks (_tls tls_pe) ++ [0x401000; 0x402000])).
Proof.
  refine (proj2 (parse_tls_callbacks modelled tls_pe _ tls_file _ _ _ _
                   [0x401000; 0x402000] (le_encode 4 0 ++ le_encode 4 0x403000)
                   3 _ _ _ _ _ _ _ _ _)).
  - vm_compute. reflexivity.
  - vm_compute. reflexivity.
  - vm_compute. reflexivity.
  - vm_compute. discriminate.
  - vm_compute. reflexivity.
  - repeat constructor; vm_compute; congruence.
  - vm_compute. reflexivity.
  - left. eexists. reflexivity.
  - simpl. lia.
Defined.

(** The certificate whose length wraps the remaining-byte counter
    around. *)
Lemma block_loops_terminate_witness :
  exists r,
    _parse_certificates (E := modelled) 41 oversized_certificate_file
      oversized_certificate_pe
    = Returns r.
Proof.
  destruct (proj2 (block_loops_terminate modelled) oversized_certificate_file
              oversized_certificate_pe) as (r1 & r2 & r3 & Hrun).
  exists r3. apply (Hrun 41%nat). vm_compute. lia.
Defined.

(** * The rest of pe.cpp *)

(** ** More on the stream *)

#[global] Transparent fread fseek stream.

Lemma stream_start (bytes : list byte) (e : bool) (limit : Z) :
  stream (mkFILE bytes 0 e limit) = bytes.
Proof.
  unfold stream. simpl.
  destruct (N.leb_spec (N.of_nat (length bytes)) 0) as [Hempty|Hsome].
  - destruct bytes; [reflexivity|simpl in Hempty; lia].
  - reflexivity.
Qed.

Lemma fread_position (n : Z) (f : FILE) :
  position (fread n f).2 = (position f + N.of_nat (length (fread n f).1))%N.
Proof. reflexivity. Qed.

Lemma fread_eof (n : Z) (f : FILE) :
  eof (fread n f).2 = eof f || (Z.of_nat (length (fread n f).1) <? n).
Proof. reflexivity. Qed.

Lemma fread_seek_limit (n : Z) (f : FILE) :
  seek_limit (fread n f).2 = seek_limit f.
Proof. reflexivity. Qed.

(** A seek from the start succeeds exactly on the offsets from 0 to the
    limit of the stream. *)
Lemma fseek_set_cases (f : FILE) (offset : Z) :
  (0 <= offset <= seek_limit f
   /\ fseek f offset SEEK_SET
      = (0, mkFILE (contents f) (Z.to_N offset) false (seek_limit f)))
  \/ (~ 0 <= offset <= seek_limit f /\ fseek f offset SEEK_SET = (-1, f)).
Proof.
  unfold fseek.
  destruct (Z.ltb_spec offset 0); simpl.
  - right. split; [lia|reflexivity].
  - destruct (Z.ltb_spec (seek_limit f) offset); simpl.
    + right. split; [lia|reflexivity].
    + left. split; [lia|reflexivity].
Qed.

#[global] Opaque fread fseek stream le_encode.

(** A read that is not short keeps the end-of-file flag. *)
Lemma fread_full_eof (n : Z) (f : FILE) :
  short n (fread n f).1 = false -> eof (fread n f).2 = eof f.
Proof.
  intros Hfull. rewrite fread_eof.
  apply short_false in Hfull. rewrite Hfull, Z.ltb_irrefl.
  now rewrite orb_false_r.
Qed.

(** Once set, the end-of-file flag stays through reads. *)
Lemma fread_eof_sticky (n : Z) (f : FILE) :
  eof f = true -> eof (fread n f).2 = true.
Proof.
  intros He. now rewrite fread_eof, He.
Qed.

(** A short read sets the end-of-file flag. *)
Lemma fread_short_eof (n : Z) (f : FILE) :
  0 <= n -> short n (fread n f).1 = true -> eof (fread n f).2 = true.
Proof.
  intros Hn Hs. rewrite fread_eof.
  unfold short in Hs. apply negb_true_iff, Z.eqb_neq in Hs.
  rewrite fread_got, length_take in *.
  destruct (Z.ltb_spec (Z.of_nat (Z.to_nat n `min` length (stream f))) n);
    [now rewrite orb_true_r|lia].
Qed.

(** A read takes the first [n] bytes when the stream holds them. *)
Lemma fread_take (n : nat) (f : FILE) :
  (n <= length (stream f))%nat ->
  fread (Z.of_nat n) f = (take n (stream f), (fread (Z.of_nat n) f).2)
  /\ stream (fread (Z.of_nat n) f).2 = drop n (stream f)
  /\ short (Z.of_nat n) (take n (stream f)) = false.
Proof.
  intros Hlen. split; [|split].
  - rewrite (surjective_pairing (fread (Z.of_nat n) f)) at 1.
    now rewrite fread_got, Nat2Z.id.
  - now rewrite fread_stream, Nat2Z.id.
  - apply short_false. rewrite length_take. lia.
Qed.

(** ** The DOS header and the PE header *)

Lemma byte_differs (x y : byte) : negb (Byte.eqb x y) = false <-> x = y.
Proof.
  rewrite negb_false_iff. split; [apply byte_dec_bl|apply byte_dec_lb].
Qed.

Lemma byte_at_take (n i : nat) (bytes : list byte) :
  (i < n)%nat -> byte_at (take n bytes) i = byte_at bytes i.
Proof.
  intros Hi. unfold byte_at. now rewrite lookup_take_lt.
Qed.

Lemma byte_at_is (bytes : list byte) (i : nat) (b : byte) :
  b <> x00 -> (byte_at bytes i = b <-> bytes !! i = Some b).
Proof.
  intros Hb. unfold byte_at. destruct (bytes !! i) as [c|]; simpl.
  - split; [now intros ->|now intros [= ->]].
  - split; [intros <-; contradiction|discriminate].
Qed.

Lemma field_take (n off w : nat) (bytes : list byte) :
  (off + w <= n)%nat -> field (take n bytes) off w = field bytes off w.
Proof.
  intros Hn. unfold field.
  replace n with (off + (n - off))%nat by lia.
  rewrite <- take_drop_commute, take_take. f_equal. f_equal. lia.
Qed.

Lemma parse_dos_header_cases (bytes : list byte) (limit : Z) :
  let r := _parse_dos_header (Some bytes) (mkFILE bytes 0 false limit) (-1) in
  (r.1.1.1 = true <->
   (64 <= length bytes)%nat
   /\ bytes !! 0%nat = Some x4d /\ bytes !! 1%nat = Some x5a)
  /\ (r.1.1.1 = true ->
      r.1.2 = take 64 bytes
      /\ stream r.1.1.2 = drop 64 bytes
      /\ e_lfanew r.1.2 = field bytes 60 4)
  /\ r.2 = Z.of_nat (length bytes).
Proof.
  unfold _parse_dos_header, get_filesize. simpl negb. cbv iota.
  set (f := mkFILE bytes 0 false limit).
  assert (Hs : stream f = bytes) by apply stream_start.
  destruct (Z.ltb_spec (Z.of_nat (length bytes)) dos_header_size) as [Hsmall|Hbig];
    unfold dos_header_size in *.
  - simpl. split; [|split; [discriminate|reflexivity]].
    split; [discriminate|]. intros [Hlen _]. lia.
  - destruct (fread_take 64 f) as (Hread & Hrest & Hfull); [rewrite Hs; lia|].
    change (Z.of_nat 64) with 64 in *. rewrite Hs in *.
    rewrite Hread, Hfull.
    rewrite !byte_at_take by lia.
    destruct (negb (Byte.eqb (byte_at bytes 0) x4d)) eqn:HM; simpl.
    + split; [|split; [discriminate|reflexivity]].
      split; [discriminate|]. intros (_ & H0 & _).
      apply byte_at_is in H0; [|discriminate].
      apply byte_differs in H0. congruence.
    + destruct (negb (Byte.eqb (byte_at bytes 1) x5a)) eqn:HZ; simpl.
      * split; [|split; [discriminate|reflexivity]].
        split; [discriminate|]. intros (_ & _ & H1).
        apply byte_at_is in H1; [|discriminate].
        apply byte_differs in H1. congruence.
      * apply byte_differs, byte_at_is in HM; [|discriminate].
        apply byte_differs, byte_at_is in HZ; [|discriminate].
        split; [|split; [|reflexivity]].
        -- split; [intros _; repeat split; [lia|assumption..]|reflexivity].
        -- intros _. split; [reflexivity|]. split; [exact Hrest|].
           unfold e_lfanew. now apply field_take.
Qed.

Lemma parse_pe_header_cases (h_dos : list byte) (f : FILE) :
  let image := drop (Z.to_nat (e_lfanew h_dos)) (contents f) in
  let r := _parse_pe_header h_dos f in
  (r.1.1 = true <->
   e_lfanew h_dos <= seek_limit f
   /\ (24 <= length image)%nat
   /\ take 4 image = [x50; x45; x00; x00])
  /\ (r.1.1 = true -> r.2 = take 24 image /\ stream r.1.2 = drop 24 image).
Proof.
  intros image. unfold _parse_pe_header.
  assert (Hpos : 0 <= e_lfanew h_dos) by apply le_decode_range.
  destruct (fseek_set_cases f (e_lfanew h_dos)) as [[Hin Hseek]|[Hout Hseek]].
  2: { rewrite Hseek. simpl. split; [|discriminate].
       split; [discriminate|]. intros (Hlim & _). lia. }
  pose proof (fseek_set_stream _ _ _ Hseek) as Hs. fold image in Hs.
  rewrite Hseek. simpl negb. cbv iota.
  set (f1 := mkFILE _ _ _ _) in *.
  destruct (Nat.le_gt_cases 24 (length image)) as [Hlen|Hlen].
  - destruct (fread_take 24 f1) as (Hread & Hrest & Hfull); [rewrite Hs; lia|].
    change (Z.of_nat 24) with pe_header_size in *. rewrite Hs in *.
    rewrite Hread, Hfull. rewrite !byte_at_take by lia.
    assert (Hsig : take 4 image = [x50; x45; x00; x00] <->
                   byte_at image 0 = x50 /\ byte_at image 1 = x45
                   /\ byte_at image 2 = x00 /\ byte_at image 3 = x00).
    { unfold byte_at.
      destruct image as [|b0 [|b1 [|b2 [|b3 rest]]]]; simpl in Hlen; try lia.
      simpl. split.
      - intros [= -> -> -> ->]. auto.
      - intros (-> & -> & -> & ->). reflexivity. }
    destruct (negb (Byte.eqb (byte_at image 0) x50)) eqn:H0; simpl.
    { split; [|discriminate]. split; [discriminate|].
      intros (_ & _ & Ht). apply Hsig in Ht. destruct Ht as (Ht & _).
      apply byte_differs in Ht. congruence. }
    destruct (negb (Byte.eqb (byte_at image 1) x45)) eqn:H1; simpl.
    { split; [|discriminate]. split; [discriminate|].
      intros (_ & _ & Ht). apply Hsig in Ht. destruct Ht as (_ & Ht & _).
      apply byte_differs in Ht. congruence. }
    destruct (negb (Byte.eqb (byte_at image 2) x00)) eqn:H2; simpl.
    { split; [|discriminate]. split; [discriminate|].
      intros (_ & _ & Ht). apply Hsig in Ht. destruct Ht as (_ & _ & Ht & _).
      apply byte_differs in Ht. congruence. }
    destruct (negb (Byte.eqb (byte_at image 3) x00)) eqn:H3; simpl.
    { split; [|discriminate]. split; [discriminate|].
      intros (_ & _ & Ht). apply Hsig in Ht. destruct Ht as (_ & _ & _ & Ht).
      apply byte_differs in Ht. congruence. }
    apply byte_differs in H0, H1, H2, H3.
    split; [|intros _; split; [reflexivity|exact Hrest]].
    split; [|reflexivity]. intros _.
    split; [lia|]. split; [exact Hlen|]. apply Hsig. auto.
  - pose proof (fread_short pe_header_size f1) as Hshort.
    destruct (fread pe_header_size f1) as [buf f2]. simpl in Hshort.
    rewrite Hshort by (rewrite Hs; unfold pe_header_size; lia). simpl.
    split; [|discriminate]. split; [discriminate|]. intros (_ & Hl & _). lia.
Qed.

(** ** The optional header *)

Lemma read_directories_length (count : nat) :
  forall (f f' : FILE) (dirs dirs' : list image_data_directory) (ok : bool),
    read_directories count f dirs = (ok, f', dirs') ->
    (length dirs' <= length dirs + count)%nat
    /\ (ok = true -> length dirs' = (length dirs + count)%nat).
Proof.
  induction count as [|count IH]; intros f f' dirs dirs' ok Hrun;
    cbn [read_directories] in Hrun.
  - injection Hrun as <- _ <-. lia.
  - destruct (fread 8 f) as [buf f1].
    destruct (short 8 buf).
    + injection Hrun as <- _ <-. rewrite length_app. simpl.
      split; [lia|discriminate].
    + apply IH in Hrun. rewrite length_app in Hrun. simpl in Hrun.
      destruct Hrun as [Hle Heq]. split; [lia|].
      intros Hok. specialize (Heq Hok). lia.
Qed.

Lemma read_image_base_shape (magic : Z) (f f' : FILE) (base_of_data image_base : Z) :
  read_image_base magic f = (true, f', base_of_data, image_base) ->
  (magic = IMAGE_OPTIONAL_HEADER_MAGIC_PE32 ->
   0 <= base_of_data < 2 ^ 32 /\ 0 <= image_base < 2 ^ 32)
  /\ (magic <> IMAGE_OPTIONAL_HEADER_MAGIC_PE32 ->
      base_of_data = 0 /\ 0 <= image_base < 2 ^ 64).
Proof.
  unfold read_image_base.
  destruct (Z.eqb_spec magic IMAGE_OPTIONAL_HEADER_MAGIC_PE32) as [Hm|Hm].
  - destruct (fread 4 f) as [b1 f1].
    destruct (short 4 b1) eqn:H1; [discriminate|].
    destruct (fread 4 f1) as [b2 f2].
    destruct (short 4 b2) eqn:H2; [discriminate|].
    intros [= _ <- <-]. apply short_false in H1, H2.
    pose proof (le_decode_range b1) as R1. pose proof (le_decode_range b2) as R2.
    replace (Z.of_nat (length b1)) with 4 in R1 by lia.
    replace (Z.of_nat (length b2)) with 4 in R2 by lia.
    split; [intros _; split; [exact R1|exact R2]|contradiction].
  - destruct (fread 8 f) as [b f1].
    destruct (short 8 b) eqn:H1; [discriminate|].
    intros [= _ <- <-]. apply short_false in H1.
    pose proof (le_decode_range b) as R.
    replace (Z.of_nat (length b)) with 8 in R by lia.
    split; [contradiction|intros _; split; [reflexivity|exact R]].
Qed.

Lemma parse_image_optional_header_cases
    (h_dos h_pe : list byte) (f f' : FILE) (ok : bool)
    (ioh : image_optional_header) (x : optional_header_fields) :
  _parse_image_optional_header h_dos h_pe f = (ok, f', ioh, x) ->
  (length (directories ioh) <= 16)%nat
  /\ (ok = true ->
      (SizeOfOptionalHeader h_pe = 0
       /\ ioh = zero_ioh /\ x = zero_fields /\ f' = f)
      \/ (SizeOfOptionalHeader h_pe <> 0
          /\ (Magic ioh = IMAGE_OPTIONAL_HEADER_MAGIC_PE32
              \/ Magic ioh = IMAGE_OPTIONAL_HEADER_MAGIC_PE32plus)
          /\ Z.of_nat (length (directories ioh))
             = Z.min (NumberOfRvaAndSizes x) 0x10
          /\ (Magic ioh = IMAGE_OPTIONAL_HEADER_MAGIC_PE32 ->
              0 <= ImageBase ioh < 2 ^ 32)
          /\ (Magic ioh = IMAGE_OPTIONAL_HEADER_MAGIC_PE32plus ->
              BaseOfData x = 0 /\ 0 <= ImageBase ioh < 2 ^ 64))).
Proof.
  unfold _parse_image_optional_header.
  destruct (Z.eqb_spec (SizeOfOptionalHeader h_pe) 0) as [Hnone|Hsome].
  { intros [= <- <- <- <-]. split; [simpl; lia|]. intros _. left. auto. }
  destruct (fseek f _ SEEK_SET) as [r f1].
  destruct (negb (r =? 0)).
  { intros [= <- <- <- <-]. split; [simpl; lia|discriminate]. }
  destruct (fread 24 f1) as [prefix f2].
  destruct (short 24 prefix).
  { intros [= <- <- <- <-]. split; [simpl; lia|discriminate]. }
  set (magic := field prefix 0 2).
  destruct (negb (magic =? IMAGE_OPTIONAL_HEADER_MAGIC_PE32)
            && negb (magic =? IMAGE_OPTIONAL_HEADER_MAGIC_PE32plus)) eqn:Hmagic.
  { intros [= <- <- <- <-]. split; [simpl; lia|discriminate]. }
  assert (Hknown : magic = IMAGE_OPTIONAL_HEADER_MAGIC_PE32
                   \/ magic = IMAGE_OPTIONAL_HEADER_MAGIC_PE32plus).
  { destruct (Z.eqb_spec magic IMAGE_OPTIONAL_HEADER_MAGIC_PE32); [now left|].
    destruct (Z.eqb_spec magic IMAGE_OPTIONAL_HEADER_MAGIC_PE32plus); [now right|].
    discriminate. }
  destruct (read_image_base magic f2) as [[[okb f3] base_of_data] image_base] eqn:Hbase.
  destruct okb; simpl negb; cbv iota.
  2: { intros [= <- <- <- <-]. split; [simpl; lia|discriminate]. }
  apply read_image_base_shape in Hbase. destruct Hbase as [H32 H64].
  destruct (fread 40 f3) as [common f4].
  destruct (short 40 common).
  { intros [= <- <- <- <-]. split; [simpl; lia|discriminate]. }
  destruct (read_sizes magic f4) as [[oks f5] [[[[[s1 s2] s3] s4] flags] count]] eqn:Hsizes.
  assert (Hcount : 0 <= count).
  { unfold read_sizes in Hsizes.
    destruct (magic =? IMAGE_OPTIONAL_HEADER_MAGIC_PE32plus).
    - destruct (fread 40 f4) as [b g]. injection Hsizes as _ _ _ _ _ _ _ <-.
      apply le_decode_range.
    - destruct (fread 4 f4) as [b1 g1]. destruct (fread 4 g1) as [b2 g2].
      destruct (fread 4 g2) as [b3 g3]. destruct (fread 4 g3) as [b4 g4].
      destruct (fread 4 g4) as [b5 g5]. destruct (fread 4 g5) as [b6 g6].
      injection Hsizes as _ _ _ _ _ _ _ <-. apply le_decode_range. }
  destruct oks; simpl negb; cbv iota.
  2: { intros [= <- <- <- <-]. split; [simpl; lia|discriminate]. }
  destruct (read_directories _ f5 []) as [[okd f6] dirs] eqn:Hdirs.
  apply read_directories_length in Hdirs. simpl in Hdirs.
  intros [= <- <- <- <-]. cbn [directories Magic ImageBase NumberOfRvaAndSizes BaseOfData].
  split; [lia|]. intros ->. right.
  split; [exact Hsome|]. split; [exact Hknown|].
  split; [destruct Hdirs as [_ Hd]; rewrite (Hd eq_refl); lia|].
  split.
  - intros Hm. now apply H32.
  - intros Hm. apply H64. rewrite Hm. discriminate.
Qed.

Lemma fread_exact (bs rest : list byte) (n : Z) (f : FILE) :
  stream f = bs ++ rest -> n = Z.of_nat (length bs) ->
  fread n f = (bs, (fread n f).2)
  /\ stream (fread n f).2 = rest
  /\ eof (fread n f).2 = eof f.
Proof.
  intros Hs Hn.
  destruct (fread_app bs rest n f Hs Hn) as (f' & Hr & Hrest).
  rewrite Hr. simpl. split; [reflexivity|]. split; [exact Hrest|].
  replace f' with (fread n f).2 by now rewrite Hr.
  apply fread_full_eof. rewrite Hr. simpl. now apply short_false.
Qed.

Lemma short_encoded (w : nat) (v : Z) : short (Z.of_nat w) (le_encode w v) = false.
Proof. apply short_false. now rewrite length_le_encode. Qed.

Lemma read_image_base_encoded (magic base_of_data image_base : Z)
    (rest : list byte) (f : FILE) :
  0 <= image_base < 256 ^ Z.of_nat (shape_width magic) ->
  (if magic =? IMAGE_OPTIONAL_HEADER_MAGIC_PE32
   then 0 <= base_of_data < 2 ^ 32 else base_of_data = 0) ->
  magic = IMAGE_OPTIONAL_HEADER_MAGIC_PE32
  \/ magic = IMAGE_OPTIONAL_HEADER_MAGIC_PE32plus ->
  stream f = (if magic =? IMAGE_OPTIONAL_HEADER_MAGIC_PE32
              then le_encode 4 base_of_data else [])
             ++ le_encode (shape_width magic) image_base ++ rest ->
  exists f',
    read_image_base magic f = (true, f', base_of_data, image_base)
    /\ stream f' = rest /\ eof f' = eof f.
Proof.
  intros Hbase Hdata [->| ->]; unfold read_image_base, shape_width in *;
    simpl in Hbase, Hdata |- *; intros Hs.
  - destruct (fread_exact _ _ 4 f Hs) as (Hr1 & Hs1 & He1);
      [now rewrite length_le_encode|].
    rewrite Hr1. change 4 with (Z.of_nat 4) at 1. rewrite short_encoded.
    destruct (fread_exact _ _ 4 _ Hs1) as (Hr2 & Hs2 & He2);
      [now rewrite length_le_encode|].
    rewrite Hr2. change 4 with (Z.of_nat 4) at 1. rewrite short_encoded.
    rewrite !le_decode_encode by (simpl; lia).
    eexists. split; [reflexivity|]. split; [exact Hs2|congruence].
  - destruct (fread_exact _ _ 8 f Hs) as (Hr1 & Hs1 & He1);
      [now rewrite length_le_encode|].
    rewrite Hr1. change 8 with (Z.of_nat 8) at 1. rewrite short_encoded.
    rewrite le_decode_encode by (simpl; lia). subst base_of_data.
    eexists. split; [reflexivity|]. split; [exact Hs1|exact He1].
Qed.

Lemma read_directories_encoded (dirs : list image_data_directory) :
  forall (f : FILE) (acc : list image_data_directory) (rest : list byte),
    Forall (fun d => 0 <= VirtualAddress d < 2 ^ 32 /\ 0 <= Size d < 2 ^ 32) dirs ->
    stream f = concat (map encode_directory dirs) ++ rest ->
    exists f',
      read_directories (length dirs) f acc = (true, f', acc ++ dirs)
      /\ stream f' = rest.
Proof.
  induction dirs as [|[va size] dirs IH]; intros f acc rest Hwf Hs.
  - exists f. simpl. now rewrite app_nil_r.
  - inversion Hwf as [|? ? [Hva Hsize] Hwf']; subst. simpl in Hva, Hsize.
    cbn [map concat] in Hs. rewrite <- app_assoc in Hs.
    unfold encode_directory at 1 in Hs. cbn [VirtualAddress Size] in Hs.
    destruct (fread_exact _ _ 8 f Hs) as (Hr & Hs1 & _);
      [now rewrite length_app, !length_le_encode|].
    destruct (IH _ (acc ++ [mkDir va size]) rest Hwf' Hs1) as (f' & Hrun & Hs').
    exists f'. split; [|exact Hs'].
    cbn [read_directories length]. rewrite Hr.
    replace (short 8 _) with false
      by (symmetry; apply short_false; now rewrite length_app, !length_le_encode).
    rewrite field_head by (simpl; lia).
    rewrite <- (app_nil_r (le_encode 4 size)).
    rewrite field_after by (simpl; first [apply length_le_encode|lia]).
    rewrite Hrun. now rewrite <- app_assoc.
Qed.

Lemma read_sizes_encoded (magic s1 s2 s3 s4 flags count : Z)
    (rest : list byte) (f : FILE) :
  Forall (fun v => 0 <= v < 256 ^ Z.of_nat (shape_width magic)) [s1; s2; s3; s4] ->
  0 <= flags < 2 ^ 32 -> 0 <= count < 2 ^ 32 ->
  eof f = false ->
  stream f = encode_values (shape_width magic) [s1; s2; s3; s4]
             ++ le_encode 4 flags ++ le_encode 4 count ++ rest ->
  exists f',
    read_sizes magic f = (true, f', (s1, s2, s3, s4, flags, count))
    /\ stream f' = rest.
Proof.
  intros Hsizes Hflags Hcount Heof.
  apply Forall_cons in Hsizes. destruct Hsizes as [H1 Hsizes].
  apply Forall_cons in Hsizes. destruct Hsizes as [H2 Hsizes].
  apply Forall_cons in Hsizes. destruct Hsizes as [H3 Hsizes].
  apply Forall_cons in Hsizes. destruct Hsizes as [H4 _].
  unfold encode_values. cbn [map concat]. rewrite app_nil_r.
  unfold read_sizes, shape_width in *.
  destruct (magic =? IMAGE_OPTIONAL_HEADER_MAGIC_PE32plus); intros Hs.
  - set (b := le_encode 8 s1 ++ le_encode 8 s2 ++ le_encode 8 s3 ++ le_encode 8 s4
              ++ le_encode 4 flags ++ le_encode 4 count).
    assert (Hs' : stream f = b ++ rest)
      by (rewrite Hs; unfold b; now rewrite <- !app_assoc).
    destruct (fread_exact b rest 40 f Hs') as (Hr & Hrest & _);
      [unfold b; now rewrite !length_app, !length_le_encode|].
    rewrite Hr.
    replace (short 40 b) with false
      by (symmetry; apply short_false; unfold b;
          now rewrite !length_app, !length_le_encode).
    eexists. split; [|exact Hrest]. simpl negb.
    assert (F1 : field b 0 8 = s1) by (unfold b; now apply field_head).
    assert (F2 : field b 8 8 = s2).
    { unfold b. apply (field_after (le_encode 8 s1));
        [apply length_le_encode|assumption]. }
    assert (F3 : field b 16 8 = s3).
    { unfold b. rewrite (app_assoc (le_encode 8 s1)).
      apply field_after; [now rewrite length_app, !length_le_encode|assumption]. }
    assert (F4 : field b 24 8 = s4).
    { unfold b. rewrite (app_assoc (le_encode 8 s1)), (app_assoc (_ ++ _)).
      apply field_after; [now rewrite !length_app, !length_le_encode|assumption]. }
    assert (F5 : field b 32 4 = flags).
    { unfold b.
      rewrite (app_assoc (le_encode 8 s1)), (app_assoc (_ ++ _)), (app_assoc (_ ++ _)).
      apply field_after; [now rewrite !length_app, !length_le_encode|simpl; lia]. }
    assert (F6 : field b 36 4 = count).
    { unfold b.
      rewrite (app_assoc (le_encode 8 s1)), (app_assoc (_ ++ _)), (app_assoc (_ ++ _)),
        (app_assoc (_ ++ _)).
      rewrite <- (app_nil_r (le_encode 4 count)).
      apply field_after; [now rewrite !length_app, !length_le_encode|simpl; lia]. }
    now rewrite F1, F2, F3, F4, F5, F6.
  - rewrite <- !app_assoc in Hs.
    destruct (fread_exact _ _ 4 f Hs) as (Hr1 & Hs1 & He1);
      [now rewrite length_le_encode|].
    rewrite Hr1.
    destruct (fread_exact _ _ 4 _ Hs1) as (Hr2 & Hs2 & He2);
      [now rewrite length_le_encode|].
    rewrite Hr2.
    destruct (fread_exact _ _ 4 _ Hs2) as (Hr3 & Hs3 & He3);
      [now rewrite length_le_encode|].
    rewrite Hr3.
    destruct (fread_exact _ _ 4 _ Hs3) as (Hr4 & Hs4 & He4);
      [now rewrite length_le_encode|].
    rewrite Hr4.
    destruct (fread_exact _ _ 4 _ Hs4) as (Hr5 & Hs5 & He5);
      [now rewrite length_le_encode|].
    rewrite Hr5.
    destruct (fread_exact _ _ 4 _ Hs5) as (Hr6 & Hs6 & He6);
      [now rewrite length_le_encode|].
    rewrite Hr6.
    eexists. split; [|exact Hs6].
    unfold feof, ferror. rewrite He6, He5, He4, He3, He2, He1, Heof. simpl.
    now rewrite !le_decode_encode by (simpl; lia).
Qed.

(** X4: An optional header of either shape that is laid out on disk behind
    the PE header is read back field by field: [Magic], [ImageBase] at
    the width of the shape, the sizes, and the directory entries that
    the header declares, 16 at most; the stream is left behind the last
    entry. *)
Theorem parse_image_optional_header_encoded
    (h_dos h_pe : list byte) (f f1 : FILE)
    (ioh : image_optional_header) (x : optional_header_fields)
    (rest : list byte) :
  SizeOfOptionalHeader h_pe <> 0 ->
  fseek f (e_lfanew h_dos + pe_header_size) SEEK_SET = (0, f1) ->
  wf_optional_header ioh x ->
  stream f1 = encode_optional_header ioh x ++ rest ->
  exists f',
    _parse_image_optional_header h_dos h_pe f = (true, f', ioh, x)
    /\ stream f' = rest.
Proof.
  intros Hsome Hseek
    (Hplen & Hmagic & Hknown & Hclen & Hwide & Hdata & Hflags & Hcount & Hdlen & Hdirs)
    Hs.
  assert (Heof : eof f1 = false).
  { destruct (fseek_set_cases f (e_lfanew h_dos + pe_header_size))
      as [[_ Hok]|[_ Hko]]; rewrite Hseek in *; [|discriminate].
    now injection Hok as ->. }
  destruct ioh as [magic image_base dirs].
  destruct x as [prefix base_of_data common s1 s2 s3 s4 flags count].
  cbn [Magic ImageBase directories ioh_prefix BaseOfData ioh_common
       SizeofStackReserve SizeofStackCommit SizeofHeapReserve SizeofHeapCommit
       LoaderFlags NumberOfRvaAndSizes] in *.
  unfold encode_optional_header in Hs.
  cbn [Magic ImageBase directories ioh_prefix BaseOfData ioh_common
       SizeofStackReserve SizeofStackCommit SizeofHeapReserve SizeofHeapCommit
       LoaderFlags NumberOfRvaAndSizes] in Hs.
  rewrite <- !app_assoc in Hs.
  apply Forall_cons in Hwide. destruct Hwide as [Hbase Hsizes].
  unfold _parse_image_optional_header.
  destruct (Z.eqb_spec (SizeOfOptionalHeader h_pe) 0); [contradiction|].
  rewrite Hseek. simpl negb. cbv iota.
  destruct (fread_exact _ _ 24 f1 Hs) as (Hr1 & Hs1 & He1); [lia|].
  rewrite Hr1.
  replace (short 24 prefix) with false by (symmetry; apply short_false; lia).
  rewrite Hmagic.
  assert (Hvalid : negb (magic =? IMAGE_OPTIONAL_HEADER_MAGIC_PE32)
                   && negb (magic =? IMAGE_OPTIONAL_HEADER_MAGIC_PE32plus) = false)
    by (destruct Hknown as [-> | ->]; reflexivity).
  rewrite Hvalid.
  destruct (read_image_base_encoded magic base_of_data image_base _ _
              Hbase Hdata Hknown Hs1) as (f3 & Hr2 & Hs2 & He2).
  rewrite Hr2. simpl negb. cbv iota.
  destruct (fread_exact _ _ 40 f3 Hs2) as (Hr3 & Hs3 & He3); [lia|].
  rewrite Hr3.
  replace (short 40 common) with false by (symmetry; apply short_false; lia).
  rewrite !app_assoc in Hs3. rewrite <- !app_assoc in Hs3.
  destruct (read_sizes_encoded magic s1 s2 s3 s4 flags count _ _
              Hsizes Hflags Hcount (eq_trans He3 (eq_trans He2 (eq_trans He1 Heof)))
              Hs3) as (f5 & Hr4 & Hs4).
  rewrite Hr4. simpl negb. cbv iota.
  destruct (read_directories_encoded dirs f5 [] rest Hdirs Hs4) as (f' & Hr5 & Hs5).
  replace (Z.to_nat (count `min` 16)) with (length dirs) by lia.
  rewrite Hr5. exists f'. split; [reflexivity|exact Hs5].
Qed.

(** ** The section table *)

Lemma with_sections_twice (pe : PE) (x y : list Section) :
  with_sections (with_sections pe x) y = with_sections pe y.
Proof. reflexivity. Qed.

Lemma with_sections_same (pe : PE) : with_sections pe (_sections pe) = pe.
Proof. now destruct pe. Qed.

(** The loop appends one section for each complete record that the
    stream holds, in file order, and stops at the first incomplete
    one. *)
Lemma read_sections_records {S : SectionConstructor} (count : nat) :
  forall (f f' : FILE) (pe pe' : PE) (ok : bool),
    read_sections count f pe = (ok, f', pe') ->
    exists records tail,
      pe' = with_sections pe (_sections pe ++ map new_Section records)
      /\ Forall (fun r => length r = 40%nat) records
      /\ stream f = concat records ++ tail
      /\ contents f' = contents f
      /\ (if ok then length records = count /\ stream f' = tail
          else (length records < count)%nat /\ (length tail < 40)%nat).
Proof.
  induction count as [|count IH]; intros f f' pe pe' ok Hrun;
    cbn [read_sections] in Hrun.
  - injection Hrun as <- <- <-. exists [], (stream f).
    cbn [map concat length]. rewrite app_nil_r, with_sections_same.
    repeat split; constructor.
  - pose proof (fread_got section_header_size f) as Hgot.
    pose proof (fread_stream section_header_size f) as Hrest.
    pose proof (fread_contents section_header_size f) as Hc.
    destruct (fread section_header_size f) as [buf f1]. cbn [fst snd] in *.
    unfold section_header_size in *.
    destruct (short 40 buf) eqn:Hshort.
    + injection Hrun as <- <- <-. exists [], (stream f).
      cbn [map concat length]. rewrite app_nil_r, with_sections_same.
      repeat split; [constructor|exact Hc|lia|].
      unfold short in Hshort. apply negb_true_iff, Z.eqb_neq in Hshort.
      rewrite Hgot, length_take in Hshort. lia.
    + apply short_false in Hshort.
      apply IH in Hrun.
      destruct Hrun as (records & tail & Hpe & Hlen & Hs & Hc' & Hok).
      exists (buf :: records), tail.
      rewrite with_sections_twice in Hpe. cbn [_sections with_sections] in Hpe.
      rewrite <- app_assoc in Hpe. cbn [map concat length].
      split; [exact Hpe|]. split; [constructor; [lia|exact Hlen]|].
      split.
      { rewrite <- app_assoc, <- Hs, Hrest, Hgot. symmetry. apply take_drop. }
      split; [congruence|].
      destruct ok; [split; [lia|tauto]|split; [lia|tauto]].
Qed.

Lemma parse_section_table_cases {S : SectionConstructor}
    (h_dos h_pe : list byte) (f f' : FILE) (pe pe' : PE) (ok : bool) :
  let offset := e_lfanew h_dos + pe_header_size + SizeOfOptionalHeader h_pe in
  let count := Z.to_nat (NumberofSections h_pe) in
  let table := drop (Z.to_nat offset) (contents f) in
  _parse_section_table h_dos h_pe f pe = (ok, f', pe') ->
  exists records,
    pe' = with_sections pe (_sections pe ++ map new_Section records)
    /\ Forall (fun r => length r = 40%nat) records
    /\ (length records <= count)%nat
    /\ (ok = true <->
        offset <= seek_limit f /\ (40 * count <= length table)%nat)
    /\ (ok = true ->
        length records = count
        /\ concat records = take (40 * count) table
        /\ stream f' = drop (40 * count) table)
    /\ (offset <= seek_limit f ->
        concat records = take (40 * length records) table)
    /\ (offset <= seek_limit f ->
        length records = Nat.min count (length table / 40))
    /\ (seek_limit f < offset -> records = [] /\ f' = f).
Proof.
  intros offset count table. unfold _parse_section_table. fold offset.
  assert (Hpos : 0 <= offset).
  { unfold offset, e_lfanew, SizeOfOptionalHeader, pe_header_size.
    pose proof (le_decode_range (take 4 (drop 60 h_dos))).
    pose proof (le_decode_range (take 2 (drop 20 h_pe))).
    unfold field. lia. }
  destruct (fseek_set_cases f offset) as [[Hin Hseek]|[Hout Hseek]].
  2: { rewrite Hseek. simpl. intros [= <- <- <-]. exists [].
       cbn [map concat length]. rewrite app_nil_r, with_sections_same.
       split; [reflexivity|]. split; [constructor|]. split; [lia|].
       split; [split; [discriminate|lia]|]. split; [discriminate|].
       split; [lia|]. split; [lia|]. intros _. now split. }
  pose proof (fseek_set_stream _ _ _ Hseek) as Hs. fold table in Hs.
  rewrite Hseek. simpl negb. cbv iota. fold count.
  intros Hrun. apply read_sections_records in Hrun.
  destruct Hrun as (records & tail & Hpe & Hlen & Hst & _ & Hok).
  rewrite Hs in Hst.
  assert (Hcl : length (concat records) = (40 * length records)%nat).
  { clear -Hlen. induction Hlen as [|r records Hr _ IH]; [reflexivity|].
    cbn [concat length]. rewrite length_app. lia. }
  assert (Htake : concat records = take (40 * length records) table).
  { rewrite Hst, <- Hcl. now rewrite take_app_length. }
  assert (Hdrop : tail = drop (40 * length records) table).
  { rewrite Hst, <- Hcl. now rewrite drop_app_length. }
  assert (Htl : length table = (40 * length records + length tail)%nat).
  { rewrite Hst, length_app. lia. }
  assert (Hdiv : (length table / 40 = length records + length tail / 40)%nat).
  { rewrite Htl, (Nat.mul_comm 40). now apply Nat.div_add_l. }
  exists records. split; [exact Hpe|]. split; [exact Hlen|].
  destruct ok.
  - destruct Hok as [Hn Hf']. rewrite <- Hn.
    split; [lia|]. split; [split; [intros _; split; lia|reflexivity]|].
    split; [intros _; split; [reflexivity|split; [exact Htake|congruence]]|].
    split; [intros _; exact Htake|]. split; [lia|lia].
  - destruct Hok as [Hn Hshort].
    split; [lia|]. split; [split; [discriminate|intros [_ ?]; lia]|].
    split; [discriminate|]. split; [intros _; exact Htake|].
    split; [|lia]. intros _.
    rewrite Hdiv, (Nat.div_small (length tail) 40) by exact Hshort. lia.
Qed.

(** ** The address translator *)

Section TranslatorRange.
Context {E : Externals}.

Lemma land_32_range (z : Z) : 0 <= Z.land z 0xFFFFFFFF < 2 ^ 32.
Proof.
  change 0xFFFFFFFF with (Z.ones 32). rewrite Z.land_ones by lia.
  apply Z.mod_pos_bound. lia.
Qed.

Lemma rva_to_offset_range (pe : PE) (rva : Z) :
  0 <= _rva_to_offset pe rva < 2 ^ 32.
Proof.
  unfold _rva_to_offset.
  destruct (_ =? _)%nat; [apply land_32_range|].
  destruct (List.find _ _); [apply land_32_range|lia].
Qed.

End TranslatorRange.

(** X6: Both translations give an [unsigned int]: a value from 0 to
    [2^32 - 1], whatever the sections and the address are.  With no
    section the offset is the address modulo [2^32]; and
    [_va_to_offset] gives the sentinel 0 for every address that is not
    above the image base. *)
Theorem translations_fit_32_bits (E : Externals) (pe : PE) (address : Z) :
  0 <= _rva_to_offset pe address < 2 ^ 32
  /\ 0 <= _va_to_offset pe address < 2 ^ 32
  /\ (_sections pe = [] -> _rva_to_offset pe address = address mod 2 ^ 32)
  /\ (address <= ImageBase (_ioh pe) -> _va_to_offset pe address = 0).
Proof.
  split; [apply rva_to_offset_range|]. split; [|split].
  - unfold _va_to_offset. destruct (_ <? _); [apply rva_to_offset_range|lia].
  - intros Hnone. unfold _rva_to_offset. rewrite Hnone. simpl.
    change 0xFFFFFFFF with (Z.ones 32). now rewrite Z.land_ones by lia.
  - intros Hle. unfold _va_to_offset.
    destruct (Z.ltb_spec (ImageBase (_ioh pe)) address); [lia|reflexivity].
Qed.

(** X7: A virtual address is translated as the relative address it stands
    for: for an image base and a non-zero relative address whose sum fits
    64 bits, [_va_to_offset (ImageBase + rva)] is [_rva_to_offset rva]. *)
Theorem va_to_offset_of_rva (E : Externals) (pe : PE) (rva : Z) :
  0 <= ImageBase (_ioh pe) ->
  0 < rva ->
  ImageBase (_ioh pe) + rva < 2 ^ 64 ->
  _va_to_offset pe (ImageBase (_ioh pe) + rva) = _rva_to_offset pe rva.
Proof.
  intros Hbase Hrva Hfit. unfold _va_to_offset.
  destruct (Z.ltb_spec (ImageBase (_ioh pe)) (ImageBase (_ioh pe) + rva)); [|lia].
  f_equal. unfold u64.
  replace (ImageBase (_ioh pe) + rva - ImageBase (_ioh pe)) with rva by lia.
  apply Z.mod_small. lia.
Qed.

(** ** Loop invariants *)

Lemma loop_invariant {S R : Type} (body : S -> S + outcome R)
    (I : S -> Prop) (Q : R -> Prop) :
  (forall s s', I s -> body s = inl s' -> I s') ->
  (forall s r, I s -> body s = inr (Returns r) -> Q r) ->
  forall fuel s r, I s -> loop body fuel s = Returns r -> Q r.
Proof.
  intros Hstep Hexit fuel.
  induction fuel as [|fuel IH]; intros s r Hs Hrun; [discriminate|].
  rewrite loop_step in Hrun.
  destruct (body s) as [s'|o] eqn:Hb.
  - eapply IH; [|exact Hrun]. eapply Hstep; eassumption.
  - subst o. eapply Hexit; eassumption.
Qed.

(** ** The dispatcher and the stream *)

Section DispatcherStream.
Context {E : Externals}.

Lemma translate_and_seek_stream (pe : PE) (f f' : FILE)
    (d : image_data_directory) (log0 log : list diagnostic) (ok : bool) :
  let offset := _rva_to_offset pe (VirtualAddress d) in
  translate_and_seek pe f d log0 = (ok, f', log) ->
  (ok = true ->
   0 < offset <= seek_limit f
   /\ f' = mkFILE (contents f) (Z.to_N offset) false (seek_limit f)
   /\ stream f' = drop (Z.to_nat offset) (contents f))
  /\ (ok = false -> f' = f /\ (offset = 0 \/ seek_limit f < offset)).
Proof.
  intros offset. unfold translate_and_seek. fold offset.
  pose proof (rva_to_offset_range pe (VirtualAddress d)) as Hrange. fold offset in Hrange.
  destruct (Z.eqb_spec offset 0) as [H0|H0].
  { intros [= <- <- <-]. split; [discriminate|]. intros _. split; [reflexivity|now left]. }
  destruct (fseek_set_cases f offset) as [[Hin Hseek]|[Hout Hseek]].
  - pose proof (fseek_set_stream _ _ _ Hseek) as Hs.
    rewrite Hseek. simpl. intros [= <- <- <-].
    split; [|discriminate]. intros _. split; [lia|]. split; [reflexivity|exact Hs].
  - rewrite Hseek. simpl. intros [= <- <- <-].
    split; [discriminate|]. intros _. split; [reflexivity|]. right. lia.
Qed.

Lemma reach_directory_stream (pe : PE) (f f' : FILE) (slot : Z)
    (log : list diagnostic) (ok : bool) :
  0 <= slot <= 15 ->
  let d := directory_slot pe slot in
  let offset := _rva_to_offset pe (VirtualAddress d) in
  _reach_directory pe f slot = Returns (ok, f', log) ->
  (ok = true ->
   VirtualAddress d <> 0
   /\ 0 < offset <= seek_limit f
   /\ f' = mkFILE (contents f) (Z.to_N offset) false (seek_limit f)
   /\ stream f' = drop (Z.to_nat offset) (contents f))
  /\ (ok = false -> f' = f /\ unreachable pe f slot).
Proof.
  intros Hslot d offset. rewrite reach_directory_in_range by assumption. fold d.
  unfold unreachable. fold d. fold offset.
  destruct (Z.eqb_spec (VirtualAddress d) 0) as [Hva|Hva].
  - destruct (Size d =? 0); simpl; intros [= <- <- <-];
      (split; [discriminate|intros _; split; [reflexivity|now left]]).
  - simpl andb. cbv iota.
    assert (Hts : forall log0,
              translate_and_seek pe f d log0 = (ok, f', log) ->
              (ok = true ->
               VirtualAddress d <> 0
               /\ 0 < offset <= seek_limit f
               /\ f' = mkFILE (contents f) (Z.to_N offset) false (seek_limit f)
               /\ stream f' = drop (Z.to_nat offset) (contents f))
              /\ (ok = false ->
                  f' = f
                  /\ (VirtualAddress d = 0 \/ offset = 0 \/ seek_limit f < offset))).
    { intros log0 Hrun. apply translate_and_seek_stream in Hrun.
      destruct Hrun as [Hyes Hno]. split.
      - intros Hok. split; [exact Hva|now apply Hyes].
      - intros Hok. destruct (Hno Hok) as [Hf Hwhy]. split; [exact Hf|now right]. }
    destruct (Size d =? 0); intros [= Hrun]; eapply Hts; exact Hrun.
Qed.

Lemma unreachable_not_reached (pe : PE) (f : FILE) (slot : Z) :
  0 <= slot <= 15 -> unreachable pe f slot ->
  exists log, _reach_directory pe f slot = Returns (false, f, log).
Proof.
  intros Hslot Hun.
  destruct (reach_directory_returns pe f slot Hslot) as (ok & f' & log & Hrun & _).
  pose proof (reach_directory_stream pe f f' slot log ok Hslot Hrun) as [Hyes Hno].
  destruct ok.
  - destruct (Hyes eq_refl) as (Hva & Hoff & _).
    unfold unreachable in Hun. destruct Hun as [?|[?|?]]; lia.
  - destruct (Hno eq_refl) as [-> _]. now exists log.
Qed.

End DispatcherStream.

(** X8: After [_reach_directory] has returned true for a slot of the array,
    the stream stands at the translated address of the directory, which
    is neither 0 nor beyond what the stream accepts, with its
    end-of-file flag cleared: the next read gives the bytes of the file
    from that offset on.  After it has returned false, the stream is as
    it was. *)
Theorem reach_directory_positions_stream
    (E : Externals) (pe : PE) (f f' : FILE) (slot : Z)
    (log : list diagnostic) (ok : bool) :
  0 <= slot <= 15 ->
  let d := directory_slot pe slot in
  let offset := _rva_to_offset pe (VirtualAddress d) in
  _reach_directory pe f slot = Returns (ok, f', log) ->
  (ok = true ->
   VirtualAddress d <> 0
   /\ 0 < offset <= seek_limit f
   /\ f' = mkFILE (contents f) (Z.to_N offset) false (seek_limit f)
   /\ stream f' = drop (Z.to_nat offset) (contents f))
  /\ (ok = false -> f' = f /\ unreachable pe f slot).
Proof.
  intros Hslot d offset Hrun.
  exact (reach_directory_stream pe f f' slot log ok Hslot Hrun).
Qed.

Lemma unreachable_directories_skipped
    (E : Externals) (pe : PE) (f : FILE) (fuel : nat) :
  (unreachable pe f IMAGE_DIRECTORY_ENTRY_EXPORT ->
   _parse_exports f pe
   = Returns (true, f, with_ied pe (decode_ied [] (NameStr (_ied pe)))))
  /\ (unreachable pe f IMAGE_DIRECTORY_ENTRY_BASERELOC ->
      _parse_relocations fuel f pe = Returns (true, f, pe))
  /\ (unreachable pe f IMAGE_DIRECTORY_ENTRY_TLS ->
      _parse_tls fuel f pe = Returns (true, f, pe)).
Proof.
  split; [|split]; intros Hun.
  - unfold _parse_exports.
    set (pe0 := with_ied pe _).
    destruct (unreachable_not_reached pe0 f IMAGE_DIRECTORY_ENTRY_EXPORT)
      as [log Hrun]; [unfold IMAGE_DIRECTORY_ENTRY_EXPORT; lia|exact Hun|].
    now rewrite Hrun.
  - unfold _parse_relocations.
    destruct (unreachable_not_reached pe f IMAGE_DIRECTORY_ENTRY_BASERELOC)
      as [log Hrun]; [unfold IMAGE_DIRECTORY_ENTRY_BASERELOC; lia|exact Hun|].
    now rewrite Hrun.
  - unfold _parse_tls.
    destruct (unreachable_not_reached pe f IMAGE_DIRECTORY_ENTRY_TLS)
      as [log Hrun]; [unfold IMAGE_DIRECTORY_ENTRY_TLS; lia|exact Hun|].
    now rewrite Hrun.
Qed.

(** ** The members that a parser writes *)

Section Frames.
Context {E : Externals}.

Lemma with_exports_same (pe : PE) : pe = with_exports pe (_exports pe).
Proof. now destruct pe. Qed.

Lemma with_relocations_id (pe : PE) : pe = with_relocations pe (_relocations pe).
Proof. now destruct pe. Qed.

Lemma with_tls_same (pe : PE) : pe = with_tls pe (_tls pe).
Proof. now destruct pe. Qed.

Lemma with_certificates_same (pe : PE) :
  pe = with_certificates pe (_certificates pe).
Proof. now destruct pe. Qed.

Lemma read_functions_frame (count : nat) :
  forall (i : Z) (f f' : FILE) (pe pe' : PE) (ok : bool),
    read_functions count i f pe = (ok, f', pe') ->
    exists x, pe' = with_exports pe x.
Proof.
  induction count as [|count IH]; intros i f f' pe pe' ok Hrun;
    cbn [read_functions] in Hrun.
  - injection Hrun as _ _ <-. eexists. apply with_exports_same.
  - assert (Hfail : forall g, (false, g, pe) = (ok, f', pe') ->
              exists x, pe' = with_exports pe x).
    { intros g [= _ _ <-]. eexists. apply with_exports_same. }
    destruct (fread 4 f) as [buf f1].
    destruct (short 4 buf); [now apply (Hfail f1)|].
    destruct (_ && _).
    + destruct (_ =? 0); [now apply (Hfail f1)|].
      destruct (read_string_at_offset f1 _ EmptyString) as [[okf forward] f2].
      destruct okf; simpl in Hrun; [|now apply (Hfail f2)].
      apply IH in Hrun. destruct Hrun as [x ->]. now eexists.
    + apply IH in Hrun. destruct Hrun as [x ->]. now eexists.
Qed.

Lemma match_names_frame (table : list (Z * Z)) :
  forall (f f' : FILE) (pe pe' : PE) (ok : bool),
    match_names table f pe = Returns (ok, f', pe') ->
    exists x, pe' = with_exports pe x.
Proof.
  induction table as [|[name ord] table IH]; intros f f' pe pe' ok Hrun;
    cbn [match_names] in Hrun.
  - injection Hrun as _ _ <-. eexists. apply with_exports_same.
  - destruct (_ || _).
    { injection Hrun as _ _ <-. eexists. apply with_exports_same. }
    destruct (_exports pe !! Z.to_nat ord) as [ex|]; [|discriminate].
    destruct (read_string_at_offset f _ (Name ex)) as [[oks str] f1].
    destruct oks; simpl in Hrun.
    + apply IH in Hrun. destruct Hrun as [x ->]. now eexists.
    + injection Hrun as _ _ <-. now eexists.
Qed.

Lemma parse_exports_frame (f f' : FILE) (pe pe' : PE) (ok : bool) :
  _parse_exports f pe = Returns (ok, f', pe') ->
  exists ied x, pe' = with_exports (with_ied pe ied) x.
Proof.
  assert (Hstop : forall (b : bool) (g : FILE) ied,
            Returns (b, g, with_ied pe ied) = Returns (ok, f', pe') ->
            exists ied x, pe' = with_exports (with_ied pe ied) x).
  { intros b g ied. returned. eexists _, _. apply with_exports_same. }
  unfold _parse_exports.
  match goal with
  | |- context [_reach_directory ?p f ?slot] =>
      destruct (reach_directory_returns p f slot)
        as (reached & f1 & log & Hreach & _);
        [unfold IMAGE_DIRECTORY_ENTRY_EXPORT; lia|]
  end.
  rewrite Hreach. simpl mbind.
  destruct reached; simpl negb; cbv iota; [|apply Hstop].
  destruct (fread ied_size f1) as [buf f2].
  destruct (short ied_size buf); [apply Hstop|].
  destruct (_ =? 0); [apply Hstop|].
  destruct (read_string_at_offset f2 _ _) as [[ok1 str] f3].
  destruct ok1; simpl negb; cbv iota; [|apply Hstop].
  destruct (_ =? 0); [apply Hstop|].
  destruct (fseek f3 _ SEEK_SET) as [r f4].
  destruct (negb (r =? 0)); [apply Hstop|].
  destruct (read_functions _ 0 f4 _) as [[ok2 f5] pe4] eqn:Hfun.
  apply read_functions_frame in Hfun. destruct Hfun as [x4 Hpe4].
  assert (Hmid : forall g : FILE,
            Returns (false, g, pe4) = Returns (ok, f', pe') ->
            exists ied x, pe' = with_exports (with_ied pe ied) x).
  { intros g. returned. rewrite Hpe4. now eexists _, _. }
  destruct ok2; simpl negb; cbv iota; [|apply Hmid].
  destruct (negb (allocates _) || negb (allocates _)); [discriminate|].
  destruct (_rva_to_offset pe4 (AddressOfNames (_ied pe4)) =? 0); [apply Hmid|].
  destruct (fseek f5 _ SEEK_SET) as [r2 f6].
  destruct (negb (r2 =? 0)); [apply Hmid|].
  destruct (fread (NumberOfNames (_ied pe4) * 4) f6) as [names f7].
  destruct (short _ names); [apply Hmid|].
  destruct (_rva_to_offset pe4 (AddressOfNameOrdinals (_ied pe4)) =? 0); [apply Hmid|].
  destruct (fseek f7 _ SEEK_SET) as [r3 f8].
  destruct (negb (r3 =? 0)); [apply Hmid|].
  destruct (fread (NumberOfNames (_ied pe4) * 2) f8) as [ords f9].
  destruct (short _ ords); [apply Hmid|].
  intros Hnames. apply match_names_frame in Hnames.
  destruct Hnames as [x ->]. rewrite Hpe4. now eexists _, _.
Qed.

Lemma parse_relocations_frame (fuel : nat) (f f' : FILE) (pe pe' : PE) (ok : bool) :
  _parse_relocations fuel f pe = Returns (ok, f', pe') ->
  exists x, pe' = with_relocations pe x.
Proof.
  unfold _parse_relocations.
  destruct (reach_directory_returns pe f IMAGE_DIRECTORY_ENTRY_BASERELOC)
    as (reached & f1 & log & Hreach & _);
    [unfold IMAGE_DIRECTORY_ENTRY_BASERELOC; lia|].
  rewrite Hreach. simpl mbind.
  destruct reached; simpl negb; cbv iota.
  2: { returned. eexists. apply with_relocations_id. }
  intros Hloop.
  refine (loop_invariant relocations_body
            (fun st => exists x, st.2 = with_relocations pe x)
            (fun r => exists x, r.2 = with_relocations pe x)
            _ _ fuel _ _ _ Hloop).
  - intros [[rem g] p] [[rem' g'] p'] [x Hp]. simpl in Hp. subst p.
    unfold relocations_body.
    destruct (negb (0 <? rem)); [discriminate|].
    destruct (fread reloc_header_size g) as [buf g1].
    destruct (_ || _); [discriminate|].
    destruct (read_types_offsets _ g1 []) as [[oke g2] entries].
    destruct oke; simpl negb; cbv iota; [|discriminate].
    intros [= _ _ <-]. now eexists.
  - intros [[rem g] p] [[b g'] p'] [x Hp]. simpl in Hp. subst p.
    unfold relocations_body.
    destruct (negb (0 <? rem)); [intros [= _ _ <-]; now eexists|].
    destruct (fread reloc_header_size g) as [buf g1].
    destruct (_ || _); [intros [= _ _ <-]; now eexists|].
    destruct (read_types_offsets _ g1 []) as [[oke g2] entries].
    destruct oke; simpl negb; cbv iota; [discriminate|].
    intros [= _ _ <-]. now eexists.
  - simpl. eexists. apply with_relocations_id.
Qed.

Lemma parse_tls_frame (fuel : nat) (f f' : FILE) (pe pe' : PE) (ok : bool) :
  _parse_tls fuel f pe = Returns (ok, f', pe') ->
  exists x, pe' = with_tls pe x.
Proof.
  unfold _parse_tls.
  destruct (reach_directory_returns pe f IMAGE_DIRECTORY_ENTRY_TLS)
    as (reached & f1 & log & Hreach & _);
    [unfold IMAGE_DIRECTORY_ENTRY_TLS; lia|].
  rewrite Hreach. simpl mbind.
  destruct reached; simpl negb; cbv iota.
  2: { returned. eexists. apply with_tls_same. }
  assert (Hrec : exists x, (read_tls_record f1 pe).2 = with_tls pe x).
  { unfold read_tls_record. destruct (is_pe32plus pe).
    - destruct (fread tls_size f1). now eexists.
    - destruct (fread 4 f1) as [b1 g1]. destruct (fread 4 g1) as [b2 g2].
      destruct (fread 4 g2) as [b3 g3]. destruct (fread 4 g3) as [b4 g4].
      destruct (fread (2 * 4) g4). now eexists. }
  destruct (read_tls_record f1 pe) as [f2 pe2]. simpl in Hrec.
  destruct Hrec as [x2 ->].
  destruct (_ || _); [returned; now eexists|].
  destruct (_ =? 0); [returned; now eexists|].
  destruct (fseek f2 _ SEEK_SET) as [r f3].
  destruct (negb _); [returned; now eexists|].
  intros Hloop.
  refine (loop_invariant callbacks_body
            (fun st => exists x, st.2 = with_tls pe x)
            (fun r => exists x, r.2 = with_tls pe x)
            _ _ fuel _ _ _ Hloop).
  - intros [[a g] p] [[a' g'] p'] [x Hp]. simpl in Hp. subst p.
    unfold callbacks_body.
    destruct (fread _ g) as [buf g1].
    destruct (_ || _); [discriminate|].
    intros [= _ _ <-]. now eexists.
  - intros [[a g] p] [[b g'] p'] [x Hp]. simpl in Hp. subst p.
    unfold callbacks_body.
    destruct (fread _ g) as [buf g1].
    destruct (_ || _); [|discriminate].
    intros [= _ _ <-]. now eexists.
  - simpl. now eexists.
Qed.

Lemma parse_certificates_frame (fuel : nat) (f f' : FILE) (pe pe' : PE) (ok : bool) :
  _parse_certificates fuel f pe = Returns (ok, f', pe') ->
  exists x, pe' = with_certificates pe x.
Proof.
  unfold _parse_certificates.
  destruct (_ =? 0); [returned; eexists; apply with_certificates_same|].
  destruct (fseek f _ SEEK_SET) as [r f1].
  destruct (negb _); [returned; eexists; apply with_certificates_same|].
  intros Hloop.
  refine (loop_invariant certificates_body
            (fun st => exists x, st.2 = with_certificates pe x)
            (fun r => exists x, r.2 = with_certificates pe x)
            _ _ fuel _ _ _ Hloop).
  - intros [[rem g] p] [[rem' g'] p'] [x Hp]. simpl in Hp. subst p.
    unfold certificates_body.
    destruct (negb (cert_header_size <? rem)); [discriminate|].
    destruct (fread cert_header_size g) as [buf g1].
    destruct (short cert_header_size buf); [discriminate|].
    destruct (_ && _); [discriminate|].
    destruct (_ <? rem); [discriminate|].
    destruct (fread _ g1) as [data g2].
    destruct (short _ data); [discriminate|].
    destruct (_ && _); intros [= _ _ <-]; now eexists.
  - intros [[rem g] p] [[b g'] p'] [x Hp]. simpl in Hp. subst p.
    unfold certificates_body.
    destruct (negb (cert_header_size <? rem)); [intros [= _ _ <-]; now eexists|].
    destruct (fread cert_header_size g) as [buf g1].
    destruct (short cert_header_size buf); [intros [= _ _ <-]; now eexists|].
    destruct (_ && _); [intros [= _ _ <-]; now eexists|].
    destruct (_ <? rem); [intros [= _ _ <-]; now eexists|].
    destruct (fread _ g1) as [data g2].
    destruct (short _ data); [intros [= _ _ <-]; now eexists|].
    destruct (_ && _); discriminate.
  - simpl. eexists. apply with_certificates_same.
Qed.

End Frames.

(** X10: Each directory parser writes its own members and no other: the
    export parser [_ied] and [_exports], the relocation parser
    [_relocations], the TLS parser [_tls], the certificate parser
    [_certificates]; the optional header and the section list, which
    the address translator reads, are as they were, whatever the parser
    returns. *)
Theorem parsers_write_their_own_members
    (E : Externals) (fuel : nat) (f f' : FILE) (pe pe' : PE) (ok : bool) :
  (_parse_exports f pe = Returns (ok, f', pe') ->
   exists ied x, pe' = with_exports (with_ied pe ied) x)
  /\ (_parse_relocations fuel f pe = Returns (ok, f', pe') ->
      exists x, pe' = with_relocations pe x)
  /\ (_parse_tls fuel f pe = Returns (ok, f', pe') ->
      exists x, pe' = with_tls pe x)
  /\ (_parse_certificates fuel f pe = Returns (ok, f', pe') ->
      exists x, pe' = with_certificates pe x).
Proof.
  split; [apply parse_exports_frame|].
  split; [apply parse_relocations_frame|].
  split; [apply parse_tls_frame|apply parse_certificates_frame].
Qed.

(** ** The TLS record *)

(** The fields of a 40-byte record of four 64-bit and two 32-bit
    values. *)
Lemma fields_of_wide_record (a b c d e g : Z) :
  Forall (fun v => 0 <= v < 256 ^ Z.of_nat 8) [a; b; c; d] ->
  0 <= e < 2 ^ 32 -> 0 <= g < 2 ^ 32 ->
  let buf := le_encode 8 a ++ le_encode 8 b ++ le_encode 8 c ++ le_encode 8 d
             ++ le_encode 4 e ++ le_encode 4 g in
  length buf = 40%nat
  /\ field buf 0 8 = a /\ field buf 8 8 = b /\ field buf 16 8 = c
  /\ field buf 24 8 = d /\ field buf 32 4 = e /\ field buf 36 4 = g.
Proof.
  intros Hwide He Hg buf.
  apply Forall_cons in Hwide. destruct Hwide as [H1 Hwide].
  apply Forall_cons in Hwide. destruct Hwide as [H2 Hwide].
  apply Forall_cons in Hwide. destruct Hwide as [H3 Hwide].
  apply Forall_cons in Hwide. destruct Hwide as [H4 _].
  split; [unfold buf; now rewrite !length_app, !length_le_encode|].
  split; [unfold buf; now apply field_head|].
  split.
  { unfold buf. apply (field_after (le_encode 8 a));
      [apply length_le_encode|assumption]. }
  split.
  { unfold buf. rewrite (app_assoc (le_encode 8 a)).
    apply field_after; [now rewrite length_app, !length_le_encode|assumption]. }
  split.
  { unfold buf. rewrite (app_assoc (le_encode 8 a)), (app_assoc (_ ++ _)).
    apply field_after; [now rewrite !length_app, !length_le_encode|assumption]. }
  split.
  { unfold buf.
    rewrite (app_assoc (le_encode 8 a)), (app_assoc (_ ++ _)), (app_assoc (_ ++ _)).
    apply field_after; [now rewrite !length_app, !length_le_encode|simpl; lia]. }
  unfold buf.
  rewrite (app_assoc (le_encode 8 a)), (app_assoc (_ ++ _)), (app_assoc (_ ++ _)),
    (app_assoc (_ ++ _)).
  rewrite <- (app_nil_r (le_encode 4 g)).
  apply field_after; [now rewrite !length_app, !length_le_encode|simpl; lia].
Qed.

(** A read gives its bytes, or sets the end-of-file flag. *)
Lemma fread_consumes_or_eof (n : nat) (f : FILE) :
  eof (fread (Z.of_nat n) f).2 = true
  \/ (bytes_left (fread (Z.of_nat n) f).2 + n)%nat = bytes_left f.
Proof.
  destruct (Nat.le_gt_cases n (length (stream f))) as [Hle|Hgt].
  - right. unfold bytes_left. rewrite fread_stream, length_drop, Nat2Z.id. lia.
  - left. apply fread_short_eof; [lia|]. apply fread_short. lia.
Qed.

Section TlsRecord.
Context {E : Externals}.

Lemma read_tls_record_encoded_at (pe : PE) (f : FILE) (t : image_tls_directory)
    (rest : list byte) :
  wf_tls (pointer_width pe) t ->
  stream f = encode_tls (pointer_width pe) t ++ rest ->
  exists f',
    read_tls_record f pe = (f', with_tls pe (keep_callbacks pe t))
    /\ stream f' = rest
    /\ eof f' = eof f.
Proof.
  intros (Hwide & Hfill & Hchar).
  unfold encode_tls, encode_values. cbn [map concat]. rewrite app_nil_r.
  unfold read_tls_record, pointer_width, keep_callbacks in *.
  destruct (is_pe32plus pe); intros Hs.
  - destruct (fields_of_wide_record _ _ _ _ _ _ Hwide Hfill Hchar)
      as (Hlen & F1 & F2 & F3 & F4 & F5 & F6).
    rewrite <- !app_assoc in Hs.
    repeat rewrite (app_assoc _ _ rest) in Hs.
    rewrite <- !app_assoc in Hs. rewrite !app_assoc in Hs.
    rewrite <- !app_assoc in Hs.
    match type of Hs with
    | stream f = ?a ++ ?b ++ ?c ++ ?d ++ ?e ++ ?g ++ rest =>
        assert (Hs' : stream f = (a ++ b ++ c ++ d ++ e ++ g) ++ rest)
          by (rewrite Hs; now rewrite <- !app_assoc)
    end.
    destruct (fread_exact _ _ tls_size f Hs') as (Hr & Hrest & He);
      [now rewrite Hlen|].
    rewrite Hr. eexists. split; [|split; [exact Hrest|exact He]].
    now rewrite F1, F2, F3, F4, F5, F6.
  - apply Forall_cons in Hwide. destruct Hwide as [H1 Hwide].
    apply Forall_cons in Hwide. destruct Hwide as [H2 Hwide].
    apply Forall_cons in Hwide. destruct Hwide as [H3 Hwide].
    apply Forall_cons in Hwide. destruct Hwide as [H4 _].
    rewrite <- !app_assoc in Hs.
    destruct (fread_exact _ _ 4 f Hs) as (Hr1 & Hs1 & He1);
      [now rewrite length_le_encode|].
    rewrite Hr1.
    destruct (fread_exact _ _ 4 _ Hs1) as (Hr2 & Hs2 & He2);
      [now rewrite length_le_encode|].
    rewrite Hr2.
    destruct (fread_exact _ _ 4 _ Hs2) as (Hr3 & Hs3 & He3);
      [now rewrite length_le_encode|].
    rewrite Hr3.
    destruct (fread_exact _ _ 4 _ Hs3) as (Hr4 & Hs4 & He4);
      [now rewrite length_le_encode|].
    rewrite Hr4.
    rewrite (app_assoc (le_encode 4 (SizeOfZeroFill t))) in Hs4.
    destruct (fread_exact _ _ (2 * 4) _ Hs4) as (Hr5 & Hs5 & He5);
      [now rewrite length_app, !length_le_encode|].
    rewrite Hr5.
    eexists. split; [|split; [exact Hs5|congruence]].
    rewrite !le_decode_encode by assumption.
    rewrite field_head by (simpl; lia).
    rewrite <- (app_nil_r (le_encode 4 (tls_Characteristics t))).
    rewrite (field_after (le_encode 4 (SizeOfZeroFill t)) [] 4 4)
      by (try apply length_le_encode; simpl; lia).
    reflexivity.
Qed.

Lemma read_tls_record_eof (pe : PE) (f : FILE) :
  (bytes_left f < (if is_pe32plus pe then 40 else 24))%nat ->
  eof (read_tls_record f pe).1 = true.
Proof.
  unfold read_tls_record. destruct (is_pe32plus pe); intros Hleft.
  - destruct (fread_consumes_or_eof 40 f) as [He|Hn]; [|lia].
    change (Z.of_nat 40) with tls_size in He.
    now destruct (fread tls_size f).
  - pose proof (fread_consumes_or_eof 4 f) as H1.
    pose proof (fread_eof_sticky 4 (fread 4 f).2) as S1.
    change (Z.of_nat 4) with 4 in H1.
    destruct (fread 4 f) as [b1 f1]. cbn [fst snd] in *.
    pose proof (fread_consumes_or_eof 4 f1) as H2.
    pose proof (fread_eof_sticky 4 (fread 4 f1).2) as S2.
    change (Z.of_nat 4) with 4 in H2.
    destruct (fread 4 f1) as [b2 f2]. cbn [fst snd] in *.
    pose proof (fread_consumes_or_eof 4 f2) as H3.
    pose proof (fread_eof_sticky 4 (fread 4 f2).2) as S3.
    change (Z.of_nat 4) with 4 in H3.
    destruct (fread 4 f2) as [b3 f3]. cbn [fst snd] in *.
    pose proof (fread_consumes_or_eof 4 f3) as H4.
    pose proof (fread_eof_sticky (2 * 4) (fread 4 f3).2) as S4.
    change (Z.of_nat 4) with 4 in H4.
    destruct (fread 4 f3) as [b4 f4]. cbn [fst snd] in *.
    pose proof (fread_consumes_or_eof 8 f4) as H5.
    change (Z.of_nat 8) with (2 * 4) in H5.
    destruct (fread (2 * 4) f4) as [b5 f5]. cbn [fst snd] in *.
    destruct H1 as [H1|H1]; [auto|].
    destruct H2 as [H2|H2]; [auto|].
    destruct H3 as [H3|H3]; [auto|].
    destruct H4 as [H4|H4]; [auto|].
    destruct H5 as [H5|H5]; [exact H5|lia].
Qed.

End TlsRecord.

(** X12: A TLS directory laid out on disk at the pointer width of the image
    (four addresses of 8 bytes for PE32+, of 4 bytes zero-extended for
    PE32, then two 32-bit fields) is read back field by field; the
    callback list is not touched, the stream is left behind the record
    and the end-of-file flag is as before. *)
Theorem read_tls_record_encoded
    (E : Externals) (pe : PE) (f : FILE) (t : image_tls_directory)
    (rest : list byte) :
  wf_tls (pointer_width pe) t ->
  stream f = encode_tls (pointer_width pe) t ++ rest ->
  exists f',
    read_tls_record f pe = (f', with_tls pe (keep_callbacks pe t))
    /\ stream f' = rest
    /\ eof f' = eof f.
Proof.
  apply read_tls_record_encoded_at.
Qed.

(** X13: A TLS directory without a callback table fails the parse: when the
    [AddressOfCallbacks] that was read is not above the image base (0
    for a directory that declares no callback), [_va_to_offset] gives
    the sentinel and [_parse_tls] returns false, with the record stored
    and the callback list as it was. *)
Theorem parse_tls_without_callbacks_fails
    (E : Externals) (pe : PE) (f f1 : FILE) (log : list diagnostic) (fuel : nat) :
  let r := read_tls_record f1 pe in
  _reach_directory pe f IMAGE_DIRECTORY_ENTRY_TLS = Returns (true, f1, log) ->
  AddressOfCallbacks (_tls r.2) <= ImageBase (_ioh pe) ->
  _parse_tls fuel f pe = Returns (false, r.1, r.2)
  /\ Callbacks (_tls r.2) = Callbacks (_tls pe).
Proof.
  intros r Hreach Hnull. unfold _parse_tls. rewrite Hreach. simpl mbind.
  simpl negb. cbv iota.
  pose proof (read_tls_record_keeps f1 pe) as (Hioh & _ & Hcb).
  subst r. destruct (read_tls_record f1 pe) as [f2 pe2]. cbn [fst snd] in *.
  split; [|exact Hcb].
  destruct (_ || _); [reflexivity|].
  unfold _va_to_offset. rewrite Hioh.
  destruct (Z.ltb_spec (ImageBase (_ioh pe)) (AddressOfCallbacks (_tls pe2))); [lia|].
  reflexivity.
Qed.

(** X14: A TLS directory that is reached less than one record before the end
    of the file (40 bytes for PE32+, 24 for PE32) fails the parse: the
    unchecked reads of the record set the end-of-file flag, which is
    tested after them; the callback list is as it was. *)
Theorem parse_tls_truncated_record_fails
    (E : Externals) (pe : PE) (f f1 : FILE) (log : list diagnostic) (fuel : nat) :
  _reach_directory pe f IMAGE_DIRECTORY_ENTRY_TLS = Returns (true, f1, log) ->
  (bytes_left f1 < (if is_pe32plus pe then 40 else 24))%nat ->
  _parse_tls fuel f pe
  = Returns (false, (read_tls_record f1 pe).1, (read_tls_record f1 pe).2)
  /\ Callbacks (_tls (read_tls_record f1 pe).2) = Callbacks (_tls pe).
Proof.
  intros Hreach Hleft. unfold _parse_tls. rewrite Hreach. simpl mbind.
  simpl negb. cbv iota.
  pose proof (read_tls_record_keeps f1 pe) as (_ & _ & Hcb).
  pose proof (read_tls_record_eof pe f1 Hleft) as Heof.
  destruct (read_tls_record f1 pe) as [f2 pe2]. cbn [fst snd] in *.
  split; [|exact Hcb].
  unfold feof. now rewrite Heof.
Qed.

(** ** A relocation block smaller than its header *)

Lemma entry_count_wraps (block_size : Z) :
  0 <= block_size < reloc_header_size ->
  2 * entry_count block_size + 1 >= 2 ^ 32 + block_size - 8
  /\ 2 ^ 31 - 4 <= entry_count block_size.
Proof.
  unfold entry_count, reloc_header_size. intros Hb.
  assert (Hw : u32 (block_size - 2 * 4) = block_size - 8 + 2 ^ 32).
  { unfold u32. symmetry. apply (Z.mod_unique _ _ (-1)); lia. }
  rewrite Hw.
  pose proof (Z.div_mod (block_size - 8 + 2 ^ 32) 2 ltac:(lia)) as Hdm.
  pose proof (Z.mod_pos_bound (block_size - 8 + 2 ^ 32) 2 ltac:(lia)) as Hm.
  lia.
Qed.

(** X15: A block whose [BlockSize] is below the 8 bytes of its own header is
    not taken for an empty block: the subtraction is unsigned, so the
    entry count wraps around to [2^31 - 4] at least, and on a file that
    is shorter than 4 GiB the entry loop runs into the end of the file:
    the parse fails, with no block appended. *)
Theorem relocation_block_below_header_size
    (E : Externals) (pe : PE) (f f1 : FILE) (log : list diagnostic)
    (page block_size : Z) (rest : list byte) (fuel : nat) :
  let size := Size (directory_slot pe IMAGE_DIRECTORY_ENTRY_BASERELOC) in
  _reach_directory pe f IMAGE_DIRECTORY_ENTRY_BASERELOC = Returns (true, f1, log) ->
  stream f1 = le_encode 4 page ++ le_encode 4 block_size ++ rest ->
  0 <= page < 2 ^ 32 ->
  0 <= block_size < reloc_header_size ->
  0 < size -> block_size <= size ->
  Z.of_nat (length rest) < 2 ^ 32 - 9 ->
  (0 < fuel)%nat ->
  2 ^ 31 - 4 <= entry_count block_size
  /\ exists f', _parse_relocations fuel f pe = Returns (false, f', pe).
Proof.
  intros size Hreach Hs Hpage Hblock Hsize Hle Hrest Hfuel.
  destruct (entry_count_wraps block_size Hblock) as [Hwrap Hcount].
  split; [exact Hcount|].
  destruct (relocations_body_fails size f1 pe Hsize) as [f' Hbody].
  { right. exists page, block_size, rest. split; [exact Hs|].
    split; [exact Hpage|]. unfold reloc_header_size in Hblock.
    split; [lia|]. right. lia. }
  exists f'. unfold _parse_relocations. rewrite Hreach. simpl mbind.
  simpl negb. cbv iota. fold size.
  destruct fuel as [|fuel]; [lia|].
  now rewrite loop_step, Hbody.
Qed.

(** ** The certificates that are stored *)

Lemma field_range (buf : list byte) (off w : nat) :
  0 <= field buf off w < 256 ^ Z.of_nat w.
Proof.
  unfold field. pose proof (le_decode_range (take w (drop off buf))) as Hr.
  assert (Hlen : (length (take w (drop off buf)) <= w)%nat)
    by (rewrite length_take; lia).
  split; [lia|]. eapply Z.lt_le_trans; [apply Hr|].
  apply Z.pow_le_mono_r; lia.
Qed.

Section StoredCertificates.
Context {E : Externals}.

(** An iteration that goes on has stored one certificate, at least as
    long as the counter said, and leaves a counter that is 0 or has
    wrapped around. *)
Lemma certificates_body_appends (remaining remaining' : Z) (f f' : FILE)
    (pe pe' : PE) :
  certificates_body (remaining, f, pe) = inl (remaining', f', pe') ->
  0 <= remaining < 2 ^ 32 ->
  exists c,
    pe' = with_certificates pe (_certificates pe ++ [c])
    /\ stored_certificate c
    /\ cert_header_size < remaining <= Length c
    /\ Z.of_nat (bytes_left f') + Length c <= Z.of_nat (bytes_left f)
    /\ 0 <= remaining' < 2 ^ 32
    /\ (remaining' = 0 \/ 2 ^ 32 + remaining - Length c - 7 <= remaining').
Proof.
  intros Hrun Hrem. unfold certificates_body in Hrun.
  destruct (Z.ltb_spec cert_header_size remaining) as [Hbig|]; [|discriminate].
  simpl negb in Hrun. cbv iota in Hrun.
  pose proof (fread_full_bytes_left cert_header_size f) as Hleft1.
  destruct (fread cert_header_size f) as [buf f1]. cbn [fst snd] in Hleft1.
  destruct (short cert_header_size buf); [discriminate|].
  specialize (Hleft1 eq_refl).
  destruct (_ && _); [discriminate|].
  pose proof (field_range buf 0 4) as Hlen.
  pose proof (field_range buf 4 2) as Hrev.
  pose proof (field_range buf 6 2) as Htype.
  set (cert_length := field buf 0 4) in *.
  destruct (Z.ltb_spec cert_length remaining) as [|Hge]; [discriminate|].
  unfold cert_header_size in *.
  assert (Hu : u32 (cert_length - (4 + 2 * 2)) = cert_length - 8).
  { unfold u32. rewrite Z.mod_small; lia. }
  rewrite Hu in Hrun.
  pose proof (fread_full_bytes_left (cert_length - 8) f1) as Hleft2.
  destruct (fread (cert_length - 8) f1) as [data f2]. cbn [fst snd] in Hleft2.
  destruct (short (cert_length - 8) data) eqn:Hshort; [discriminate|].
  specialize (Hleft2 eq_refl). apply short_false in Hshort.
  set (c := mkCert cert_length (field buf 4 2) (field buf 6 2)
              (data ++ replicate (Z.to_nat (cert_length - Z.of_nat (length data))) x00))
    in *.
  assert (Hstored : stored_certificate c).
  { unfold stored_certificate, c, cert_header_size.
    cbn [Length Certificate Revision CertificateType].
    replace (Z.to_nat (cert_length - Z.of_nat (length data))) with 8%nat by lia.
    split; [lia|]. split; [rewrite length_app, length_replicate; lia|].
    split; [|split; [exact Hrev|exact Htype]].
    apply drop_app_length'. lia. }
  assert (Hwrap : 0 <= u32 (remaining - cert_length) < 2 ^ 32
                  /\ (u32 (remaining - cert_length) = 0
                      \/ u32 (remaining - cert_length)
                         = 2 ^ 32 + remaining - cert_length)).
  { unfold u32. split; [apply Z.mod_pos_bound; lia|].
    destruct (Z.eq_dec remaining cert_length) as [->|Hne].
    - left. now rewrite Z.sub_diag.
    - right. symmetry. apply (Z.mod_unique _ _ (-1)); lia. }
  set (remaining1 := u32 (remaining - cert_length)) in *.
  pose proof (Z.mod_pos_bound cert_length 8 ltac:(lia)) as Hpad.
  destruct (Z.eqb_spec (cert_length mod 8) 0) as [Hp|Hp]; simpl negb in Hrun;
    cbv iota in Hrun.
  - simpl andb in Hrun. cbv iota in Hrun. injection Hrun as <- <- <-.
    exists c. split; [reflexivity|]. split; [exact Hstored|].
    cbn [Length c]. unfold c. cbn [Length].
    split; [lia|]. split; [lia|]. split; [lia|]. lia.
  - destruct (Z.eqb_spec remaining1 0) as [Hz|Hz]; simpl andb in Hrun;
      cbv iota in Hrun; injection Hrun as <- <- <-.
    + exists c. split; [reflexivity|]. split; [exact Hstored|].
      unfold c. cbn [Length].
      split; [lia|]. split; [lia|]. split; [lia|]. now left.
    + pose proof (fseek_cur_bytes_left f2 (cert_length mod 8) ltac:(lia)) as Hseek.
      exists c. split; [reflexivity|]. split; [exact Hstored|].
      unfold c. cbn [Length].
      split; [lia|]. split; [lia|].
      assert (Hcases : u32 (remaining1 - cert_length mod 8)
                       = remaining1 - cert_length mod 8
                       \/ u32 (remaining1 - cert_length mod 8)
                          = 2 ^ 32 + remaining1 - cert_length mod 8).
      { unfold u32.
        destruct (Z.le_gt_cases (cert_length mod 8) remaining1).
        - left. apply Z.mod_small. lia.
        - right. symmetry. apply (Z.mod_unique _ _ (-1)); lia. }
      pose proof (Z.mod_pos_bound (remaining1 - cert_length mod 8) (2 ^ 32)
                    ltac:(lia)) as Hr.
      fold (u32 (remaining1 - cert_length mod 8)) in Hr.
      split; [exact Hr|]. right. lia.
Qed.

(** With a counter that is 0 or above the bytes left, an iteration
    stores nothing. *)
Lemma certificates_body_stores_nothing (remaining : Z) (f : FILE) (pe : PE) :
  0 <= remaining < 2 ^ 32 ->
  remaining = 0 \/ Z.of_nat (bytes_left f) < remaining ->
  exists ok f', certificates_body (remaining, f, pe) = inr (Returns (ok, f', pe)).
Proof.
  intros Hrem Hcase. unfold certificates_body.
  destruct (Z.ltb_spec cert_header_size remaining) as [Hbig|]; [|now eexists _, _].
  simpl negb. cbv iota.
  destruct Hcase as [->|Hleft]; [unfold cert_header_size in Hbig; lia|].
  pose proof (fread_full_bytes_left cert_header_size f) as Hleft1.
  destruct (fread cert_header_size f) as [buf f1]. cbn [fst snd] in Hleft1.
  destruct (short cert_header_size buf); [now eexists _, _|].
  specialize (Hleft1 eq_refl).
  destruct (_ && _); [now eexists _, _|].
  pose proof (field_range buf 0 4) as Hlen.
  set (cert_length := field buf 0 4) in *.
  destruct (Z.ltb_spec cert_length remaining) as [|Hge]; [now eexists _, _|].
  unfold cert_header_size in *.
  assert (Hu : u32 (cert_length - (4 + 2 * 2)) = cert_length - 8).
  { unfold u32. rewrite Z.mod_small; lia. }
  rewrite Hu.
  pose proof (fread_short (cert_length - 8) f1) as Hshort.
  destruct (fread (cert_length - 8) f1) as [data f2]. cbn [fst snd] in Hshort.
  rewrite Hshort by (fold (bytes_left f1); lia).
  now eexists _, _.
Qed.

Lemma certificates_body_exit_same (remaining : Z) (f f' : FILE) (pe pe' : PE)
    (ok : bool) :
  certificates_body (remaining, f, pe) = inr (Returns (ok, f', pe')) -> pe' = pe.
Proof.
  unfold certificates_body.
  destruct (negb _); [now intros [= _ _ <-]|].
  destruct (fread cert_header_size f) as [buf f1].
  destruct (short cert_header_size buf); [now intros [= _ _ <-]|].
  destruct (_ && _); [now intros [= _ _ <-]|].
  destruct (_ <? remaining); [now intros [= _ _ <-]|].
  destruct (fread _ f1) as [data f2].
  destruct (short _ data); [now intros [= _ _ <-]|].
  destruct (_ && _); discriminate.
Qed.

End StoredCertificates.

(** X16: On a file shorter than 4 GiB, [_parse_certificates] stores one
    certificate at most, whatever the directory declares: a certificate
    is stored only when its [Length] is not below the bytes the
    directory has left, so that the counter is 0 or wraps around after
    it, and no second certificate of that length fits the file.  The
    stored certificate has [Length] bytes: the payload read, then 8
    bytes of 0. *)
Theorem parse_certificates_stores_one_at_most
    (E : Externals) (pe pe' : PE) (f f' : FILE) (ok : bool) (fuel : nat) :
  let d := directory_slot pe IMAGE_DIRECTORY_ENTRY_SECURITY in
  0 <= Size d < 2 ^ 32 ->
  Z.of_nat (length (contents f)) < 2 ^ 32 ->
  _parse_certificates fuel f pe = Returns (ok, f', pe') ->
  pe' = pe
  \/ exists c,
      pe' = with_certificates pe (_certificates pe ++ [c])
      /\ stored_certificate c
      /\ Size d <= Length c.
Proof.
  intros d Hsize Hfile. unfold _parse_certificates. fold d.
  destruct (_ =? 0); [returned; now left|].
  pose proof (fseek_contents f (VirtualAddress d) SEEK_SET) as Hc.
  destruct (fseek f _ SEEK_SET) as [r f1]. cbn [snd] in Hc.
  destruct (negb _); [returned; now left|].
  pose proof (bytes_left_contents f1) as Hleft. rewrite Hc in Hleft.
  destruct fuel as [|fuel]; [discriminate|].
  rewrite loop_step.
  destruct (certificates_body (Size d, f1, pe)) as [[[rem2 f2] pe2]|o] eqn:Hfirst.
  - apply certificates_body_appends in Hfirst; [|exact Hsize].
    destruct Hfirst as (c & Hpe2 & Hstored & Hlen & Hbytes & Hrem2 & Hwrap).
    destruct fuel as [|fuel]; [discriminate|].
    rewrite loop_step.
    destruct (certificates_body_stores_nothing rem2 f2 pe2 Hrem2) as (b & g & Hsecond).
    { destruct Hwrap as [Hz|Hw]; [now left|right].
      unfold cert_header_size in Hlen. lia. }
    rewrite Hsecond. returned. right. exists c.
    split; [exact Hpe2|]. split; [exact Hstored|lia].
  - intros ->. left.
    exact (certificates_body_exit_same _ _ _ _ _ _ Hfirst).
Qed.

(** ** Exported functions and forwarders *)

Section Forwarders.
Context {E : Externals}.

Lemma read_functions_forwarders (d : image_data_directory) (count : nat) :
  forall (i : Z) (f f' : FILE) (pe pe' : PE) (ok : bool),
    directory_slot pe IMAGE_DIRECTORY_ENTRY_EXPORT = d ->
    read_functions count i f pe = (ok, f', pe') ->
    Forall (forwarder_in_directory d) (_exports pe) ->
    Forall (forwarder_in_directory d) (_exports pe').
Proof.
  induction count as [|count IH]; intros i f f' pe pe' ok Hd Hrun Hall;
    cbn [read_functions] in Hrun.
  - now injection Hrun as _ _ <-.
  - pose proof (fread_got 4 f) as Hgot.
    destruct (fread 4 f) as [buf f1]. cbn [fst] in Hgot.
    destruct (short 4 buf) eqn:Hshort; [now injection Hrun as _ _ <-|].
    apply short_false in Hshort.
    pose proof (le_decode_range buf) as Hrange.
    replace (Z.of_nat (length buf)) with 4 in Hrange by lia.
    rewrite Hd in Hrun.
    destruct (Z.ltb_spec (VirtualAddress d) (le_decode buf)) as [Hlow|Hlow];
      simpl andb in Hrun; cbv iota in Hrun.
    + destruct (Z.ltb_spec (le_decode buf) (u32 (VirtualAddress d + Size d)))
        as [Hhigh|Hhigh].
      * destruct (_ =? 0); [now injection Hrun as _ _ <-|].
        destruct (read_string_at_offset f1 _ EmptyString) as [[okf forward] f2].
        destruct okf; simpl in Hrun; [|now injection Hrun as _ _ <-].
        eapply IH; [|exact Hrun|]; [exact Hd|].
        cbn [_exports with_exports]. apply Forall_app. split; [exact Hall|].
        constructor; [|constructor]. split; [exact Hrange|]. intros _. cbn [Address]. lia.
      * eapply IH; [|exact Hrun|]; [exact Hd|].
        cbn [_exports with_exports]. apply Forall_app. split; [exact Hall|].
        constructor; [|constructor]. split; [exact Hrange|]. intros Hf. now destruct Hf.
    + eapply IH; [|exact Hrun|]; [exact Hd|].
      cbn [_exports with_exports]. apply Forall_app. split; [exact Hall|].
      constructor; [|constructor]. split; [exact Hrange|]. intros Hf. now destruct Hf.
Qed.

Lemma match_names_forwarders (d : image_data_directory) (table : list (Z * Z)) :
  forall (f f' : FILE) (pe pe' : PE) (ok : bool),
    match_names table f pe = Returns (ok, f', pe') ->
    Forall (forwarder_in_directory d) (_exports pe) ->
    Forall (forwarder_in_directory d) (_exports pe').
Proof.
  induction table as [|[name ord] table IH]; intros f f' pe pe' ok Hrun Hall;
    cbn [match_names] in Hrun.
  - now injection Hrun as _ _ <-.
  - destruct (_ || _); [now injection Hrun as _ _ <-|].
    destruct (_exports pe !! Z.to_nat ord) as [ex|] eqn:Hl; [|discriminate].
    destruct (read_string_at_offset f _ (Name ex)) as [[oks str] f1].
    assert (Hins : Forall (forwarder_in_directory d)
                     (<[Z.to_nat ord := set_Name ex str]> (_exports pe))).
    { apply Forall_insert; [exact Hall|].
      exact (proj1 (Forall_lookup _ _) Hall _ _ Hl). }
    destruct oks; simpl in Hrun.
    + eapply IH; [exact Hrun|exact Hins].
    + now injection Hrun as _ _ <-.
Qed.

Lemma insert_name_keeps {A : Type} (g : exported_function -> A)
    (exports : list exported_function) (n : nat) (ex : exported_function)
    (str : string) :
  (forall e s, g (set_Name e s) = g e) ->
  exports !! n = Some ex ->
  g <$> <[n := set_Name ex str]> exports = g <$> exports.
Proof.
  intros Hg Hl. rewrite list_fmap_insert, Hg. apply list_insert_id.
  rewrite list_lookup_fmap, Hl. reflexivity.
Qed.

(** The name loop writes [Name] and nothing else. *)
Lemma match_names_writes_names (table : list (Z * Z)) :
  forall (f f' : FILE) (pe pe' : PE) (ok : bool),
    match_names table f pe = Returns (ok, f', pe') ->
    Address <$> _exports pe' = Address <$> _exports pe
    /\ Ordinal <$> _exports pe' = Ordinal <$> _exports pe
    /\ ForwardName <$> _exports pe' = ForwardName <$> _exports pe.
Proof.
  induction table as [|[name ord] table IH]; intros f f' pe pe' ok Hrun;
    cbn [match_names] in Hrun.
  - now injection Hrun as _ _ <-.
  - destruct (_ || _); [now injection Hrun as _ _ <-|].
    destruct (_exports pe !! Z.to_nat ord) as [ex|] eqn:Hl; [|discriminate].
    destruct (read_string_at_offset f _ (Name ex)) as [[oks str] f1].
    set (pe1 := with_exports pe (<[Z.to_nat ord := set_Name ex str]> (_exports pe)))
      in *.
    assert (H1 : Address <$> _exports pe1 = Address <$> _exports pe
                 /\ Ordinal <$> _exports pe1 = Ordinal <$> _exports pe
                 /\ ForwardName <$> _exports pe1 = ForwardName <$> _exports pe).
    { unfold pe1. cbn [_exports with_exports].
      repeat split; now apply insert_name_keeps. }
    destruct H1 as (Ha & Ho & Hf).
    destruct oks; simpl in Hrun.
    + apply IH in Hrun. destruct Hrun as (Ha' & Ho' & Hf').
      repeat split; congruence.
    + injection Hrun as _ _ <-. now repeat split.
Qed.

Lemma parse_exports_forwarders (f f' : FILE) (pe pe' : PE) (ok : bool) :
  let d := directory_slot pe IMAGE_DIRECTORY_ENTRY_EXPORT in
  Forall (forwarder_in_directory d) (_exports pe) ->
  _parse_exports f pe = Returns (ok, f', pe') ->
  Forall (forwarder_in_directory d) (_exports pe').
Proof.
  intros d Hall.
  assert (Hstop : forall (b : bool) (g : FILE) ied,
            Returns (b, g, with_ied pe ied) = Returns (ok, f', pe') ->
            Forall (forwarder_in_directory d) (_exports pe')).
  { intros b g ied. returned. exact Hall. }
  unfold _parse_exports.
  match goal with
  | |- context [_reach_directory ?p f ?slot] =>
      destruct (reach_directory_returns p f slot)
        as (reached & f1 & log & Hreach & _);
        [unfold IMAGE_DIRECTORY_ENTRY_EXPORT; lia|]
  end.
  rewrite Hreach. simpl mbind.
  destruct reached; simpl negb; cbv iota; [|apply Hstop].
  destruct (fread ied_size f1) as [buf f2].
  destruct (short ied_size buf); [apply Hstop|].
  destruct (_ =? 0); [apply Hstop|].
  destruct (read_string_at_offset f2 _ _) as [[ok1 str] f3].
  destruct ok1; simpl negb; cbv iota; [|apply Hstop].
  destruct (_ =? 0); [apply Hstop|].
  destruct (fseek f3 _ SEEK_SET) as [r f4].
  destruct (negb (r =? 0)); [apply Hstop|].
  destruct (read_functions _ 0 f4 _) as [[ok2 f5] pe4] eqn:Hfun.
  apply (read_functions_forwarders d) in Hfun; [|reflexivity|exact Hall].
  assert (Hmid : forall g : FILE,
            Returns (false, g, pe4) = Returns (ok, f', pe') ->
            Forall (forwarder_in_directory d) (_exports pe')).
  { intros g. returned. exact Hfun. }
  destruct ok2; simpl negb; cbv iota; [|apply Hmid].
  destruct (negb (allocates _) || negb (allocates _)); [discriminate|].
  destruct (_rva_to_offset pe4 (AddressOfNames (_ied pe4)) =? 0); [apply Hmid|].
  destruct (fseek f5 _ SEEK_SET) as [r2 f6].
  destruct (negb (r2 =? 0)); [apply Hmid|].
  destruct (fread (NumberOfNames (_ied pe4) * 4) f6) as [names f7].
  destruct (short _ names); [apply Hmid|].
  destruct (_rva_to_offset pe4 (AddressOfNameOrdinals (_ied pe4)) =? 0); [apply Hmid|].
  destruct (fseek f7 _ SEEK_SET) as [r3 f8].
  destruct (negb (r3 =? 0)); [apply Hmid|].
  destruct (fread (NumberOfNames (_ied pe4) * 2) f8) as [ords f9].
  destruct (short _ ords); [apply Hmid|].
  intros Hnames. eapply match_names_forwarders; [exact Hnames|exact Hfun].
Qed.

Lemma read_functions_plain (addresses : list Z) :
  forall (i : Z) (f : FILE) (pe : PE) (rest : list byte),
    Forall (plain_address (directory_slot pe IMAGE_DIRECTORY_ENTRY_EXPORT)) addresses ->
    stream f = encode_values 4 addresses ++ rest ->
    exists f',
      read_functions (length addresses) i f pe
      = (true, f',
         with_exports pe
           (_exports pe ++ plain_exports (Base (_ied pe)) i addresses))
      /\ stream f' = rest.
Proof.
  induction addresses as [|a addresses IH]; intros i f pe rest Hplain Hs.
  - exists f. cbn [length read_functions]. unfold plain_exports. cbn [imap].
    rewrite app_nil_r, <- with_exports_same. split; [reflexivity|exact Hs].
  - apply Forall_cons in Hplain. destruct Hplain as [[Hrange Hout] Hplain].
    rewrite encode_values_cons, <- app_assoc in Hs.
    destruct (fread_app _ _ 4 f Hs) as (f1 & Hr & Hs1);
      [now rewrite length_le_encode|].
    cbn [length read_functions]. rewrite Hr.
    replace (short 4 (le_encode 4 a)) with false
      by (symmetry; apply (short_encoded 4)).
    rewrite le_decode_encode by (simpl; lia).
    set (d := directory_slot pe IMAGE_DIRECTORY_ENTRY_EXPORT) in *.
    assert (Htest : (VirtualAddress d <? a) && (a <? u32 (VirtualAddress d + Size d))
                    = false).
    { destruct (Z.ltb_spec (VirtualAddress d) a); [|reflexivity].
      destruct (Z.ltb_spec a (u32 (VirtualAddress d + Size d))); [|reflexivity].
      exfalso. apply Hout. lia. }
    rewrite Htest.
    destruct (IH (i + 1) f1
                (with_exports pe
                   (_exports pe
                    ++ [mkExport a (u32 (Base (_ied pe) + i)) EmptyString EmptyString]))
                rest Hplain Hs1) as (f' & Hrun & Hrest).
    exists f'. split; [|exact Hrest]. rewrite Hrun. f_equal.
    cbn [_exports _ied with_exports]. unfold with_exports. cbn.
    f_equal. rewrite <- app_assoc. f_equal. unfold plain_exports. cbn [imap app].
    f_equal; [now rewrite Z.add_0_r|].
    apply imap_ext. intros k x _. cbn. do 2 f_equal. lia.
Qed.

End Forwarders.

(** X17: An exported function has a forward name only if its address lies
    strictly inside the export directory, and every address is a 32-bit
    value: [_parse_exports] keeps this for the functions that were in
    the list and establishes it for those it appends, whatever it
    returns.  The name loop writes [Name] only: the addresses, the
    ordinals and the forward names of the list are the same after it,
    in the same order, whatever it returns. *)
Theorem parse_exports_forwarders_in_directory
    (E : Externals) (f f' : FILE) (pe pe' : PE) (ok : bool)
    (table : list (Z * Z)) :
  let d := directory_slot pe IMAGE_DIRECTORY_ENTRY_EXPORT in
  (Forall (forwarder_in_directory d) (_exports pe) ->
   _parse_exports f pe = Returns (ok, f', pe') ->
   Forall (forwarder_in_directory d) (_exports pe'))
  /\ (match_names table f pe = Returns (ok, f', pe') ->
      Address <$> _exports pe' = Address <$> _exports pe
      /\ Ordinal <$> _exports pe' = Ordinal <$> _exports pe
      /\ ForwardName <$> _exports pe' = ForwardName <$> _exports pe).
Proof.
  intros d. split.
  - apply parse_exports_forwarders.
  - apply match_names_writes_names.
Qed.

(** X18: The function loop reads a table of addresses back: when none of the
    addresses lies strictly inside the export directory, it appends one
    function per address, in the order of the table, with the ordinals
    [Base + i] on 32 bits and no name, and leaves the stream behind the
    table. *)
Theorem read_functions_plain_table
    (E : Externals) (addresses : list Z) (i : Z) (f : FILE) (pe : PE)
    (rest : list byte) :
  Forall (plain_address (directory_slot pe IMAGE_DIRECTORY_ENTRY_EXPORT)) addresses ->
  stream f = encode_values 4 addresses ++ rest ->
  exists f',
    read_functions (length addresses) i f pe
    = (true, f',
       with_exports pe (_exports pe ++ plain_exports (Base (_ied pe)) i addresses))
    /\ stream f' = rest.
Proof.
  apply read_functions_plain.
Qed.

(** ** The file is read, never written *)

Section Contents.
Context {E : Externals}.

Lemma relocations_body_exit_contents (remaining : Z) (f : FILE) (pe : PE)
    (r : bool * FILE * PE) :
  relocations_body (remaining, f, pe) = inr (Returns r) ->
  contents r.1.2 = contents f.
Proof.
  unfold relocations_body.
  destruct (negb _); [now intros [= <-]|].
  pose proof (fread_contents reloc_header_size f) as Hc1.
  destruct (fread reloc_header_size f) as [buf f1]. cbn [snd] in Hc1.
  destruct (_ || _); [now intros [= <-]|].
  destruct (read_types_offsets _ f1 []) as [[ok f2] entries] eqn:Hr.
  apply read_types_offsets_bytes_left in Hr. destruct Hr as [_ Hc2].
  destruct ok; simpl negb; cbv iota; [discriminate|].
  intros [= <-]. cbn [fst snd]. congruence.
Qed.

Lemma callbacks_body_exit_contents (address : Z) (f : FILE) (pe : PE)
    (r : bool * FILE * PE) :
  callbacks_body (address, f, pe) = inr (Returns r) ->
  contents r.1.2 = contents f.
Proof.
  unfold callbacks_body.
  pose proof (fread_contents (callback_size pe) f) as Hc1.
  destruct (fread (callback_size pe) f) as [buf f1]. cbn [snd] in Hc1.
  destruct (_ || _); [now intros [= <-]|discriminate].
Qed.

Lemma certificates_body_exit_contents (remaining : Z) (f : FILE) (pe : PE)
    (r : bool * FILE * PE) :
  certificates_body (remaining, f, pe) = inr (Returns r) ->
  contents r.1.2 = contents f.
Proof.
  unfold certificates_body.
  destruct (negb _); [now intros [= <-]|].
  pose proof (fread_contents cert_header_size f) as Hc1.
  destruct (fread cert_header_size f) as [buf f1]. cbn [snd] in Hc1.
  destruct (short cert_header_size buf); [now intros [= <-]|].
  destruct (_ && _); [now intros [= <-]|].
  destruct (_ <? remaining); [now intros [= <-]|].
  pose proof (fread_contents (u32 (field buf 0 4 - cert_header_size)) f1) as Hc2.
  destruct (fread _ f1) as [data f2]. cbn [snd] in Hc2.
  destruct (short _ data); [intros [= <-]; cbn [fst snd]; congruence|].
  destruct (_ && _); discriminate.
Qed.

Lemma parse_relocations_contents (fuel : nat) (f f' : FILE) (pe pe' : PE) (ok : bool) :
  _parse_relocations fuel f pe = Returns (ok, f', pe') -> contents f' = contents f.
Proof.
  unfold _parse_relocations.
  destruct (reach_directory_returns pe f IMAGE_DIRECTORY_ENTRY_BASERELOC)
    as (reached & f1 & log & Hreach & Hc);
    [unfold IMAGE_DIRECTORY_ENTRY_BASERELOC; lia|].
  rewrite Hreach. simpl mbind.
  destruct reached; simpl negb; cbv iota; [|returned; exact Hc].
  intros Hloop.
  refine (loop_invariant relocations_body
            (fun st => contents st.1.2 = contents f)
            (fun r => contents r.1.2 = contents f)
            _ _ fuel _ _ _ Hloop).
  - intros s s' Hs Hb. apply relocations_body_consumes in Hb. destruct Hb. congruence.
  - intros [[rem g] p] r Hs Hb. apply relocations_body_exit_contents in Hb.
    cbn [fst snd] in *. congruence.
  - exact Hc.
Qed.

Lemma parse_tls_contents (fuel : nat) (f f' : FILE) (pe pe' : PE) (ok : bool) :
  _parse_tls fuel f pe = Returns (ok, f', pe') -> contents f' = contents f.
Proof.
  unfold _parse_tls.
  destruct (reach_directory_returns pe f IMAGE_DIRECTORY_ENTRY_TLS)
    as (reached & f1 & log & Hreach & Hc);
    [unfold IMAGE_DIRECTORY_ENTRY_TLS; lia|].
  rewrite Hreach. simpl mbind.
  destruct reached; simpl negb; cbv iota; [|returned; exact Hc].
  pose proof (read_tls_record_contents f1 pe) as Hc2.
  destruct (read_tls_record f1 pe) as [f2 pe2]. cbn [fst] in Hc2.
  destruct (_ || _); [returned; congruence|].
  destruct (_ =? 0); [returned; congruence|].
  pose proof (fseek_contents f2 (_va_to_offset pe2 (AddressOfCallbacks (_tls pe2)))
                SEEK_SET) as Hc3.
  destruct (fseek f2 _ SEEK_SET) as [r f3]. cbn [snd] in Hc3.
  destruct (negb _); [returned; congruence|].
  intros Hloop.
  refine (loop_invariant callbacks_body
            (fun st => contents st.1.2 = contents f)
            (fun r => contents r.1.2 = contents f)
            _ _ fuel _ _ _ Hloop).
  - intros s s' Hs Hb. apply callbacks_body_consumes in Hb. destruct Hb. congruence.
  - intros [[a g] p] res Hs Hb. apply callbacks_body_exit_contents in Hb.
    cbn [fst snd] in *. congruence.
  - cbn [fst snd]. congruence.
Qed.

Lemma parse_certificates_contents (fuel : nat) (f f' : FILE) (pe pe' : PE)
    (ok : bool) :
  _parse_certificates fuel f pe = Returns (ok, f', pe') -> contents f' = contents f.
Proof.
  unfold _parse_certificates.
  destruct (_ =? 0); [now returned|].
  pose proof (fseek_contents f
                (VirtualAddress (directory_slot pe IMAGE_DIRECTORY_ENTRY_SECURITY))
                SEEK_SET) as Hc.
  destruct (fseek f _ SEEK_SET) as [r f1]. cbn [snd] in Hc.
  destruct (negb _); [returned; exact Hc|].
  intros Hloop.
  refine (loop_invariant certificates_body
            (fun st => contents st.1.2 = contents f)
            (fun r => contents r.1.2 = contents f)
            _ _ fuel _ _ _ Hloop).
  - intros s s' Hs Hb. apply certificates_body_consumes in Hb. destruct Hb. congruence.
  - intros [[rem g] p] res Hs Hb. apply certificates_body_exit_contents in Hb.
    cbn [fst snd] in *. congruence.
  - exact Hc.
Qed.

Lemma match_names_contents (table : list (Z * Z)) :
  keeps_contents E ->
  forall (f f' : FILE) (pe pe' : PE) (ok : bool),
    match_names table f pe = Returns (ok, f', pe') -> contents f' = contents f.
Proof.
  intros Hkeeps.
  induction table as [|[name ord] table IH]; intros f f' pe pe' ok Hrun;
    cbn [match_names] in Hrun.
  - now injection Hrun as _ <- _.
  - destruct (_ || _); [now injection Hrun as _ <- _|].
    destruct (_exports pe !! Z.to_nat ord) as [ex|]; [|discriminate].
    pose proof (Hkeeps f (_rva_to_offset pe name) (Name ex)) as Hc.
    destruct (read_string_at_offset f _ (Name ex)) as [[oks str] f1]. cbn [snd] in Hc.
    destruct oks; simpl in Hrun.
    + apply IH in Hrun. congruence.
    + injection Hrun as _ <- _. exact Hc.
Qed.

Lemma match_names_returns_or_throws (table : list (Z * Z)) :
  forall (f : FILE) (pe : PE),
    (exists r, match_names table f pe = Returns r)
    \/ match_names table f pe = Throws.
Proof.
  induction table as [|[name ord] table IH]; intros f pe; cbn [match_names].
  - left. now eexists.
  - destruct (_ || _); [left; now eexists|].
    destruct (_exports pe !! Z.to_nat ord) as [ex|]; [|now right].
    destruct (read_string_at_offset f _ (Name ex)) as [[oks str] f1].
    destruct oks; simpl; [apply IH|left; now eexists].
Qed.

Lemma parse_exports_returns_or_throws (f : FILE) (pe : PE) :
  (exists r, _parse_exports f pe = Returns r)
  \/ _parse_exports f pe = Throws
  \/ (_parse_exports f pe = BadAlloc
      /\ exists count,
          negb (allocates (count * 4)) || negb (allocates (count * 2)) = true).
Proof.
  unfold _parse_exports.
  match goal with
  | |- context [_reach_directory ?p f ?slot] =>
      destruct (reach_directory_returns p f slot)
        as (reached & f1 & log & Hreach & _);
        [unfold IMAGE_DIRECTORY_ENTRY_EXPORT; lia|]
  end.
  rewrite Hreach. simpl mbind.
  destruct reached; simpl negb; cbv iota; [|left; now eexists].
  destruct (fread ied_size f1) as [buf f2].
  destruct (short ied_size buf); [left; now eexists|].
  destruct (_ =? 0); [left; now eexists|].
  destruct (read_string_at_offset f2 _ _) as [[ok1 str] f3].
  destruct ok1; simpl negb; cbv iota; [|left; now eexists].
  destruct (_ =? 0); [left; now eexists|].
  destruct (fseek f3 _ SEEK_SET) as [r f4].
  destruct (negb (r =? 0)); [left; now eexists|].
  destruct (read_functions _ 0 f4 _) as [[ok2 f5] pe4].
  destruct ok2; simpl negb; cbv iota; [|left; now eexists].
  destruct (negb (allocates _) || negb (allocates _)) eqn:Halloc;
    [right; right; split; [reflexivity|eexists; exact Halloc]|].
  destruct (_rva_to_offset pe4 (AddressOfNames (_ied pe4)) =? 0); [left; now eexists|].
  destruct (fseek f5 _ SEEK_SET) as [r2 f6].
  destruct (negb (r2 =? 0)); [left; now eexists|].
  destruct (fread (NumberOfNames (_ied pe4) * 4) f6) as [names f7].
  destruct (short _ names); [left; now eexists|].
  destruct (_rva_to_offset pe4 (AddressOfNameOrdinals (_ied pe4)) =? 0);
    [left; now eexists|].
  destruct (fseek f7 _ SEEK_SET) as [r3 f8].
  destruct (negb (r3 =? 0)); [left; now eexists|].
  destruct (fread (NumberOfNames (_ied pe4) * 2) f8) as [ords f9].
  destruct (short _ ords); [left; now eexists|].
  destruct (match_names_returns_or_throws
              (zip (decode_table 4 (Z.to_nat (NumberOfNames (_ied pe4))) names)
                   (decode_table 2 (Z.to_nat (NumberOfNames (_ied pe4))) ords))
              f9 pe4) as [Hr|Ht]; [now left|right; now left].
Qed.

Lemma parse_exports_contents (f f' : FILE) (pe pe' : PE) (ok : bool) :
  keeps_contents E ->
  _parse_exports f pe = Returns (ok, f', pe') -> contents f' = contents f.
Proof.
  intros Hkeeps. unfold _parse_exports.
  match goal with
  | |- context [_reach_directory ?p f ?slot] =>
      destruct (reach_directory_returns p f slot)
        as (reached & f1 & log & Hreach & Hc1);
        [unfold IMAGE_DIRECTORY_ENTRY_EXPORT; lia|]
  end.
  rewrite Hreach. simpl mbind.
  destruct reached; simpl negb; cbv iota; [|returned; exact Hc1].
  pose proof (fread_contents ied_size f1) as Hc2.
  destruct (fread ied_size f1) as [buf f2]. cbn [snd] in Hc2.
  destruct (short ied_size buf); [returned; congruence|].
  destruct (_ =? 0); [returned; congruence|].
  match goal with
  | |- context [read_string_at_offset f2 ?o ?s] =>
      pose proof (Hkeeps f2 o s) as Hc3
  end.
  destruct (read_string_at_offset f2 _ _) as [[ok1 str] f3]. cbn [snd] in Hc3.
  destruct ok1; simpl negb; cbv iota; [|returned; congruence].
  destruct (_ =? 0); [returned; congruence|].
  match goal with
  | |- context [fseek f3 ?o SEEK_SET] =>
      pose proof (fseek_contents f3 o SEEK_SET) as Hc4
  end.
  destruct (fseek f3 _ SEEK_SET) as [r f4]. cbn [snd] in Hc4.
  destruct (negb (r =? 0)); [returned; congruence|].
  destruct (read_functions _ 0 f4 _) as [[ok2 f5] pe4] eqn:Hfun.
  apply (read_functions_keeps _ Hkeeps) in Hfun. destruct Hfun as [Hc5 _].
  destruct ok2; simpl negb; cbv iota; [|returned; congruence].
  destruct (negb (allocates _) || negb (allocates _)); [discriminate|].
  destruct (_rva_to_offset pe4 (AddressOfNames (_ied pe4)) =? 0);
    [returned; congruence|].
  match goal with
  | |- context [fseek f5 ?o SEEK_SET] =>
      pose proof (fseek_contents f5 o SEEK_SET) as Hc6
  end.
  destruct (fseek f5 _ SEEK_SET) as [r2 f6]. cbn [snd] in Hc6.
  destruct (negb (r2 =? 0)); [returned; congruence|].
  pose proof (fread_contents (NumberOfNames (_ied pe4) * 4) f6) as Hc7.
  destruct (fread (NumberOfNames (_ied pe4) * 4) f6) as [names f7]. cbn [snd] in Hc7.
  destruct (short _ names); [returned; congruence|].
  destruct (_rva_to_offset pe4 (AddressOfNameOrdinals (_ied pe4)) =? 0);
    [returned; congruence|].
  match goal with
  | |- context [fseek f7 ?o SEEK_SET] =>
      pose proof (fseek_contents f7 o SEEK_SET) as Hc8
  end.
  destruct (fseek f7 _ SEEK_SET) as [r3 f8]. cbn [snd] in Hc8.
  destruct (negb (r3 =? 0)); [returned; congruence|].
  pose proof (fread_contents (NumberOfNames (_ied pe4) * 2) f8) as Hc9.
  destruct (fread (NumberOfNames (_ied pe4) * 2) f8) as [ords f9]. cbn [snd] in Hc9.
  destruct (short _ ords); [returned; congruence|].
  intros Hnames. apply (match_names_contents _ Hkeeps) in Hnames. congruence.
Qed.

End Contents.


(** ** The header parsers, property by property *)

(** X1: The DOS header of a freshly opened file: the parse succeeds exactly
    when the file has its 64 bytes and starts with "MZ"; it then holds
    the first 64 bytes, the stream stands behind them, and [e_lfanew] is
    the little-endian value of the bytes 60 to 63.  The size of the
    file is cached in both cases. *)
Theorem parse_dos_header_fresh (bytes : list byte) (limit : Z) :
  let r := _parse_dos_header (Some bytes) (mkFILE bytes 0 false limit) (-1) in
  (r.1.1.1 = true <->
   (64 <= length bytes)%nat
   /\ bytes !! 0%nat = Some x4d /\ bytes !! 1%nat = Some x5a)
  /\ (r.1.1.1 = true ->
      r.1.2 = take 64 bytes
      /\ stream r.1.1.2 = drop 64 bytes
      /\ e_lfanew r.1.2 = field bytes 60 4)
  /\ r.2 = Z.of_nat (length bytes).
Proof.
  exact (parse_dos_header_cases bytes limit).
Qed.

(** X2: The PE header is read at [e_lfanew]: the parse succeeds exactly when
    the offset can be reached, the file holds 24 bytes from there on,
    and they start with "PE\0\0"; [_h_pe] is then these 24 bytes and
    the stream stands behind them. *)
Theorem parse_pe_header_at (h_dos : list byte) (f : FILE) :
  let image := drop (Z.to_nat (e_lfanew h_dos)) (contents f) in
  let r := _parse_pe_header h_dos f in
  (r.1.1 = true <->
   e_lfanew h_dos <= seek_limit f
   /\ (24 <= length image)%nat
   /\ take 4 image = [x50; x45; x00; x00])
  /\ (r.1.1 = true -> r.2 = take 24 image /\ stream r.1.2 = drop 24 image).
Proof.
  exact (parse_pe_header_cases h_dos f).
Qed.

(** X3: What a caller can rely on after [_parse_image_optional_header]: the
    directory array never receives more than 16 entries, whatever the
    header declares; and after a success either there is no optional
    header and [_ioh] is zero, or [Magic] is one of the two known values
    and exactly [min(NumberOfRvaAndSizes, 16)] entries were read, with a
    32-bit [ImageBase] for PE32 and no [BaseOfData] for PE32+. *)
Theorem parse_image_optional_header_shape
    (h_dos h_pe : list byte) (f f' : FILE) (ok : bool)
    (ioh : image_optional_header) (x : optional_header_fields) :
  _parse_image_optional_header h_dos h_pe f = (ok, f', ioh, x) ->
  (length (directories ioh) <= 16)%nat
  /\ (ok = true ->
      (SizeOfOptionalHeader h_pe = 0
       /\ ioh = zero_ioh /\ x = zero_fields /\ f' = f)
      \/ (SizeOfOptionalHeader h_pe <> 0
          /\ (Magic ioh = IMAGE_OPTIONAL_HEADER_MAGIC_PE32
              \/ Magic ioh = IMAGE_OPTIONAL_HEADER_MAGIC_PE32plus)
          /\ Z.of_nat (length (directories ioh))
             = Z.min (NumberOfRvaAndSizes x) 0x10
          /\ (Magic ioh = IMAGE_OPTIONAL_HEADER_MAGIC_PE32 ->
              0 <= ImageBase ioh < 2 ^ 32)
          /\ (Magic ioh = IMAGE_OPTIONAL_HEADER_MAGIC_PE32plus ->
              BaseOfData x = 0 /\ 0 <= ImageBase ioh < 2 ^ 64))).
Proof.
  exact (parse_image_optional_header_cases h_dos h_pe f f' ok ioh x).
Qed.

(** X5: The section table is the run of 40-byte records at
    [e_lfanew + sizeof(pe_header) + SizeOfOptionalHeader]: the loader
    succeeds exactly when the offset can be reached and the file holds
    the [NumberofSections] records from there on; it appends one section
    per record, in file order, to the list and changes no other member.
    When the table is cut short, it returns false and the list has
    received the sections of all the complete records that the file
    holds from the offset on: [length table / 40] of them, no fewer.
    When the offset cannot be reached nothing is appended and the
    stream is as it was. *)
Theorem parse_section_table_records {S : SectionConstructor}
    (h_dos h_pe : list byte) (f f' : FILE) (pe pe' : PE) (ok : bool) :
  let offset := e_lfanew h_dos + pe_header_size + SizeOfOptionalHeader h_pe in
  let count := Z.to_nat (NumberofSections h_pe) in
  let table := drop (Z.to_nat offset) (contents f) in
  _parse_section_table h_dos h_pe f pe = (ok, f', pe') ->
  exists records,
    pe' = with_sections pe (_sections pe ++ map new_Section records)
    /\ Forall (fun r => length r = 40%nat) records
    /\ (length records <= count)%nat
    /\ (ok = true <->
        offset <= seek_limit f /\ (40 * count <= length table)%nat)
    /\ (ok = true ->
        length records = count
        /\ concat records = take (40 * count) table
        /\ stream f' = drop (40 * count) table)
    /\ (offset <= seek_limit f ->
        concat records = take (40 * length records) table)
    /\ (offset <= seek_limit f ->
        length records = Nat.min count (length table / 40))
    /\ (seek_limit f < offset -> records = [] /\ f' = f).
Proof.
  exact (parse_section_table_cases h_dos h_pe f f' pe pe' ok).
Qed.

(** X9: A directory that cannot be reached is skipped with success, also
    when the dispatcher has reported an error for it (an address of 0
    with a size, an address that no section maps, an offset that cannot
    be sought): the export, relocation and TLS parsers return true with
    the stream as it was and nothing parsed; the export parser has
    zeroed [_ied] but for its [NameStr]. *)
Theorem unreachable_directories_are_skipped
    (E : Externals) (pe : PE) (f : FILE) (fuel : nat) :
  (unreachable pe f IMAGE_DIRECTORY_ENTRY_EXPORT ->
   _parse_exports f pe
   = Returns (true, f, with_ied pe (decode_ied [] (NameStr (_ied pe)))))
  /\ (unreachable pe f IMAGE_DIRECTORY_ENTRY_BASERELOC ->
      _parse_relocations fuel f pe = Returns (true, f, pe))
  /\ (unreachable pe f IMAGE_DIRECTORY_ENTRY_TLS ->
      _parse_tls fuel f pe = Returns (true, f, pe)).
Proof.
  exact (unreachable_directories_skipped E pe f fuel).
Qed.


(** ** The directories, one parser after the other *)

Section Directories.
Context {E : Externals} {C : Collaborators}.

Lemma parse_directories_headers (fuel : nat) (f f' : FILE) (pe pe' : PE) (ok : bool) :
  _parse_directories fuel f pe = Returns (ok, f', pe') ->
  _ioh pe' = _ioh pe /\ _sections pe' = _sections pe.
Proof.
  unfold _parse_directories.
  destruct (_parse_imports f pe) as [[ok1 f1]| | | |]; simpl mbind; try discriminate.
  destruct ok1; simpl negb; cbv iota; [|now returned].
  destruct (_parse_exports f1 pe) as [[[ok2 f2] pe2]| | | |] eqn:H2; simpl mbind;
    try discriminate.
  apply parse_exports_frame in H2. destruct H2 as (ied & x2 & ->).
  destruct ok2; simpl negb; cbv iota; [|now returned].
  destruct (_parse_resources f2 _) as [[ok3 f3]| | | |]; simpl mbind; try discriminate.
  destruct ok3; simpl negb; cbv iota; [|now returned].
  destruct (_parse_debug f3 _) as [[ok4 f4]| | | |]; simpl mbind; try discriminate.
  destruct ok4; simpl negb; cbv iota; [|now returned].
  destruct (_parse_relocations fuel f4 _) as [[[ok5 f5] pe5]| | | |] eqn:H5; simpl mbind;
    try discriminate.
  apply parse_relocations_frame in H5. destruct H5 as (x5 & ->).
  destruct ok5; simpl negb; cbv iota; [|now returned].
  destruct (_parse_tls fuel f5 _) as [[[ok6 f6] pe6]| | | |] eqn:H6; simpl mbind;
    try discriminate.
  apply parse_tls_frame in H6. destruct H6 as (x6 & ->).
  destruct ok6; simpl negb; cbv iota; [|now returned].
  intros H7. apply parse_certificates_frame in H7. destruct H7 as (x7 & ->).
  now split.
Qed.

Lemma parse_directories_total (fuel : nat) (f : FILE) (pe : PE) :
  keeps_contents E -> return_and_keep_contents C ->
  (length (contents f) < fuel)%nat ->
  (exists r, _parse_directories fuel f pe = Returns r)
  \/ _parse_directories fuel f pe = Throws
  \/ (_parse_directories fuel f pe = BadAlloc
      /\ exists count,
          negb (allocates (count * 4)) || negb (allocates (count * 2)) = true).
Proof.
  intros Hkeeps Hothers Hfuel. unfold _parse_directories.
  destruct (Hothers f pe) as ((ok1 & f1 & H1 & Hc1) & _).
  rewrite H1. simpl mbind.
  destruct ok1; simpl negb; cbv iota; [|left; now eexists].
  destruct (parse_exports_returns_or_throws f1 pe)
    as [[[[ok2 f2] pe2] H2]|[H2|[H2 Hcause]]];
    rewrite H2; simpl mbind; [|right; now left|right; right; now split].
  apply parse_exports_contents in H2; [|exact Hkeeps].
  destruct ok2; simpl negb; cbv iota; [|left; now eexists].
  destruct (Hothers f2 pe2) as (_ & (ok3 & f3 & H3 & Hc3) & _).
  rewrite H3. simpl mbind.
  destruct ok3; simpl negb; cbv iota; [|left; now eexists].
  destruct (Hothers f3 pe2) as (_ & _ & (ok4 & f4 & H4 & Hc4)).
  rewrite H4. simpl mbind.
  destruct ok4; simpl negb; cbv iota; [|left; now eexists].
  destruct (parse_relocations_returns f4 pe2) as [[[ok5 f5] pe5] H5].
  specialize (H5 fuel ltac:(congruence)).
  rewrite H5. simpl mbind.
  apply parse_relocations_contents in H5.
  destruct ok5; simpl negb; cbv iota; [|left; now eexists].
  destruct (parse_tls_returns f5 pe5) as [[[ok6 f6] pe6] H6].
  specialize (H6 fuel ltac:(congruence)).
  rewrite H6. simpl mbind.
  apply parse_tls_contents in H6.
  destruct ok6; simpl negb; cbv iota; [|left; now eexists].
  destruct (parse_certificates_returns f6 pe6) as [r H7].
  specialize (H7 fuel ltac:(congruence)).
  left. now exists r.
Qed.

End Directories.

(** X19: [_parse_directories] leaves the optional header and the section
    list as the header parsers have set them, whatever the seven parsers
    return: the translation of an address is the same before, during and
    after the parse of the directories. *)
Theorem parse_directories_keeps_headers
    (E : Externals) (C : Collaborators)
    (fuel : nat) (f f' : FILE) (pe pe' : PE) (ok : bool) :
  _parse_directories fuel f pe = Returns (ok, f', pe') ->
  _ioh pe' = _ioh pe
  /\ _sections pe' = _sections pe
  /\ (forall address,
        _rva_to_offset pe' address = _rva_to_offset pe address
        /\ _va_to_offset pe' address = _va_to_offset pe address).
Proof.
  intros Hrun. apply parse_directories_headers in Hrun.
  destruct Hrun as [Hioh Hsec]. split; [exact Hioh|]. split; [exact Hsec|].
  intros address. unfold _va_to_offset. rewrite Hioh.
  split; [now apply rva_to_offset_sections|].
  destruct (_ <? _); [now apply rva_to_offset_sections|reflexivity].
Qed.

(** ** The constructor *)

Lemma parse_dos_header_stream (disk : option (list byte)) (f : FILE) (size : Z) :
  contents (_parse_dos_header disk f size).1.1.2 = contents f
  /\ seek_limit (_parse_dos_header disk f size).1.1.2 = seek_limit f.
Proof.
  unfold _parse_dos_header. destruct (get_filesize disk size) as [filesize size'].
  destruct (_ <? _); [now split|].
  pose proof (fread_contents dos_header_size f) as Hc.
  pose proof (fread_seek_limit dos_header_size f) as Hl.
  destruct (fread dos_header_size f) as [buf f1]. cbn [snd] in Hc, Hl.
  destruct (short _ buf); [now split|].
  now destruct (_ || _).
Qed.

Lemma parse_pe_header_stream (h_dos : list byte) (f : FILE) :
  contents (_parse_pe_header h_dos f).1.2 = contents f
  /\ seek_limit (_parse_pe_header h_dos f).1.2 = seek_limit f.
Proof.
  unfold _parse_pe_header.
  destruct (fseek_set_cases f (e_lfanew h_dos)) as [[_ Hseek]|[_ Hseek]];
    rewrite Hseek; simpl negb; cbv iota; [|now split].
  set (f1 := mkFILE _ _ _ _).
  pose proof (fread_contents pe_header_size f1) as Hc.
  pose proof (fread_seek_limit pe_header_size f1) as Hl.
  destruct (fread pe_header_size f1) as [buf f2]. cbn [snd] in Hc, Hl.
  destruct (short _ buf); [now split|].
  now destruct (_ || _ || _ || _).
Qed.

Lemma read_directories_contents (count : nat) :
  forall (f : FILE) (dirs : list image_data_directory),
    contents (read_directories count f dirs).1.2 = contents f.
Proof.
  induction count as [|count IH]; intros f dirs; cbn [read_directories].
  - reflexivity.
  - pose proof (fread_contents 8 f) as Hc.
    destruct (fread 8 f) as [buf f1]. cbn [snd] in Hc.
    destruct (short 8 buf); [exact Hc|].
    rewrite IH. exact Hc.
Qed.

Lemma parse_image_optional_header_contents (h_dos h_pe : list byte) (f : FILE) :
  contents (_parse_image_optional_header h_dos h_pe f).1.1.2 = contents f.
Proof.
  unfold _parse_image_optional_header.
  destruct (_ =? 0); [reflexivity|].
  pose proof (fseek_contents f (e_lfanew h_dos + pe_header_size) SEEK_SET) as Hc0.
  destruct (fseek f _ SEEK_SET) as [r f1]. cbn [snd] in Hc0.
  destruct (negb _); [exact Hc0|].
  pose proof (fread_contents 24 f1) as Hc1.
  destruct (fread 24 f1) as [prefix f2]. cbn [snd] in Hc1.
  destruct (short 24 prefix); [cbn; congruence|].
  destruct (_ && _); [cbn; congruence|].
  assert (Hc2 : contents (read_image_base (field prefix 0 2) f2).1.1.2 = contents f2).
  { unfold read_image_base. destruct (_ =? _).
    - pose proof (fread_contents 4 f2) as Ha.
      destruct (fread 4 f2) as [b1 g1]. cbn [snd] in Ha.
      destruct (short 4 b1); [exact Ha|].
      pose proof (fread_contents 4 g1) as Hb.
      destruct (fread 4 g1) as [b2 g2]. cbn [snd] in Hb. cbn. congruence.
    - pose proof (fread_contents 8 f2) as Ha.
      now destruct (fread 8 f2) as [b1 g1]. }
  destruct (read_image_base _ f2) as [[[okb f3] base_of_data] image_base].
  cbn [fst snd] in Hc2.
  destruct okb; simpl negb; cbv iota; [|cbn; congruence].
  pose proof (fread_contents 40 f3) as Hc3.
  destruct (fread 40 f3) as [common f4]. cbn [snd] in Hc3.
  destruct (short 40 common); [cbn; congruence|].
  assert (Hc4 : contents (read_sizes (field prefix 0 2) f4).1.2 = contents f4).
  { unfold read_sizes. destruct (_ =? _).
    - pose proof (fread_contents 40 f4) as Ha. now destruct (fread 40 f4).
    - destruct (fread 4 f4) as [b1 g1] eqn:R1. destruct (fread 4 g1) as [b2 g2] eqn:R2.
      destruct (fread 4 g2) as [b3 g3] eqn:R3. destruct (fread 4 g3) as [b4 g4] eqn:R4.
      destruct (fread 4 g4) as [b5 g5] eqn:R5. destruct (fread 4 g5) as [b6 g6] eqn:R6.
      cbn [fst snd].
      replace g6 with (fread 4 g5).2 by now rewrite R6.
      replace g5 with (fread 4 g4).2 by now rewrite R5.
      replace g4 with (fread 4 g3).2 by now rewrite R4.
      replace g3 with (fread 4 g2).2 by now rewrite R3.
      replace g2 with (fread 4 g1).2 by now rewrite R2.
      replace g1 with (fread 4 f4).2 by now rewrite R1.
      now rewrite !fread_contents. }
  destruct (read_sizes _ f4) as [[oks f5] [[[[[s1 s2] s3] s4] flags] count]].
  cbn [fst snd] in Hc4.
  destruct oks; simpl negb; cbv iota; [|cbn; congruence].
  pose proof (read_directories_contents (Z.to_nat (Z.min count 16)) f5 []) as Hc5.
  destruct (read_directories _ f5 []) as [[okd f6] dirs]. cbn [fst snd] in *.
  congruence.
Qed.

Lemma parse_section_table_contents {S : SectionConstructor}
    (h_dos h_pe : list byte) (f : FILE) (pe : PE) :
  contents (_parse_section_table h_dos h_pe f pe).1.2 = contents f.
Proof.
  unfold _parse_section_table.
  match goal with
  | |- context [fseek f ?o SEEK_SET] => pose proof (fseek_contents f o SEEK_SET) as Hc
  end.
  destruct (fseek f _ SEEK_SET) as [r f1]. cbn [snd] in Hc.
  destruct (negb _); [exact Hc|].
  destruct (read_sections _ f1 pe) as [[ok f2] pe2] eqn:Hrun.
  apply read_sections_records in Hrun.
  destruct Hrun as (records & tail & _ & _ & _ & Hc2 & _).
  cbn [fst snd]. congruence.
Qed.


(** An export directory that declares [2^32 - 1] names and no function:
    the two name tables are allocated before a byte of them is read,
    and the runtime of the samples refuses the 16 GiB of the first. *)
Example parse_exports_name_tables_bad_alloc :
  _parse_exports (E := modelled) many_names_file export_pe = BadAlloc.
Proof.
  vm_compute. reflexivity.
Qed.


(** X21: What [_initialized] stands for.  An object whose flag is set was
    built from a file of 64 bytes at least that starts with "MZ" and
    holds "PE\0\0" and the rest of the PE header at [e_lfanew]; the
    size of the file is cached; the section table could be sought; the
    directory array holds 16 entries at most, and either the image has
    no optional header and [_ioh] is zero, or [Magic] is one of the two
    known values; and the section list has [NumberofSections]
    entries. *)
Theorem PE_new_initialized
    (E : Externals) (S : SectionConstructor) (C : Collaborators)
    (disk : option (list byte)) (limit : Z) (fuel : nat) (img : image) :
  PE_new disk limit fuel = Returns img ->
  _initialized img = true ->
  exists bytes,
    disk = Some bytes
    /\ _size img = Z.of_nat (length bytes)
    /\ (64 <= length bytes)%nat
    /\ bytes !! 0%nat = Some x4d /\ bytes !! 1%nat = Some x5a
    /\ _h_dos img = take 64 bytes
    /\ (let header := drop (Z.to_nat (e_lfanew (_h_dos img))) bytes in
        (24 <= length header)%nat
        /\ take 4 header = [x50; x45; x00; x00]
        /\ _h_pe img = take 24 header)
    /\ e_lfanew (_h_dos img) + pe_header_size + SizeOfOptionalHeader (_h_pe img)
       <= limit
    /\ (length (directories (_ioh (members img))) <= 16)%nat
    /\ ((SizeOfOptionalHeader (_h_pe img) = 0 /\ _ioh (members img) = zero_ioh)
        \/ Magic (_ioh (members img)) = IMAGE_OPTIONAL_HEADER_MAGIC_PE32
        \/ Magic (_ioh (members img)) = IMAGE_OPTIONAL_HEADER_MAGIC_PE32plus)
    /\ length (_sections (members img)) = Z.to_nat (NumberofSections (_h_pe img)).
Proof.
  unfold PE_new. destruct disk as [bytes|]; [|intros [= <-]; discriminate].
  set (f0 := mkFILE bytes 0 false limit).
  pose proof (parse_dos_header_cases bytes limit) as Hdos. cbv zeta in Hdos.
  fold f0 in Hdos.
  pose proof (parse_dos_header_stream (Some bytes) f0 (-1)) as [Hc1 Hl1].
  destruct (_parse_dos_header (Some bytes) f0 (-1)) as [[[ok1 f1] h_dos] size].
  cbn [fst snd] in Hdos, Hc1, Hl1.
  destruct ok1; simpl negb; cbv iota; [|intros [= <-]; discriminate].
  destruct Hdos as (Hdos1 & Hdos2 & Hsize).
  destruct (proj1 Hdos1 eq_refl) as (Hlen & HM & HZ).
  destruct (Hdos2 eq_refl) as (Hh & _ & _).
  pose proof (parse_pe_header_cases h_dos f1) as Hpe. cbv zeta in Hpe.
  pose proof (parse_pe_header_stream h_dos f1) as [Hc2 Hl2].
  destruct (_parse_pe_header h_dos f1) as [[ok2 f2] h_pe].
  cbn [fst snd] in Hpe, Hc2, Hl2.
  destruct ok2; simpl negb; cbv iota; [|intros [= <-]; discriminate].
  destruct Hpe as (Hpe1 & Hpe2).
  destruct (proj1 Hpe1 eq_refl) as (_ & Hplen & Hsig).
  destruct (Hpe2 eq_refl) as (Hhp & _).
  rewrite Hc1 in Hplen, Hsig, Hhp. cbn [contents f0] in Hplen, Hsig, Hhp.
  pose proof (parse_image_optional_header_contents h_dos h_pe f2) as Hc3.
  destruct (_parse_image_optional_header h_dos h_pe f2) as [[[ok3 f3] ioh] fields]
    eqn:Hopt.
  cbn [fst snd] in Hc3.
  pose proof (parse_image_optional_header_cases _ _ _ _ _ _ _ Hopt) as [Hdirs Hshape].
  assert (Hl3 : seek_limit f3 = seek_limit f2).
  { clear -Hopt. revert Hopt. unfold _parse_image_optional_header.
    destruct (_ =? 0); [now intros [= _ <- _ _]|].
    destruct (fseek_set_cases f2 (e_lfanew h_dos + pe_header_size))
      as [[_ Hseek]|[_ Hseek]]; rewrite Hseek; simpl negb; cbv iota;
      [|now intros [= _ <- _ _]].
    set (g := mkFILE _ _ _ _).
    assert (Hg : seek_limit g = seek_limit f2) by reflexivity.
    pose proof (fread_seek_limit 24 g) as H1.
    destruct (fread 24 g) as [prefix g1]. cbn [snd] in H1.
    destruct (short 24 prefix); [intros [= _ <- _ _]; congruence|].
    destruct (_ && _); [intros [= _ <- _ _]; congruence|].
    assert (H2 : seek_limit (read_image_base (field prefix 0 2) g1).1.1.2
                 = seek_limit g1).
    { unfold read_image_base. destruct (_ =? _).
      - pose proof (fread_seek_limit 4 g1) as Ha.
        destruct (fread 4 g1) as [b1 k1]. cbn [snd] in Ha.
        destruct (short 4 b1); [exact Ha|].
        pose proof (fread_seek_limit 4 k1) as Hb.
        destruct (fread 4 k1) as [b2 k2]. cbn [snd] in Hb. cbn. congruence.
      - pose proof (fread_seek_limit 8 g1) as Ha.
        now destruct (fread 8 g1). }
    destruct (read_image_base _ g1) as [[[okb g2] base_of_data] image_base].
    cbn [fst snd] in H2.
    destruct okb; simpl negb; cbv iota; [|intros [= _ <- _ _]; congruence].
    pose proof (fread_seek_limit 40 g2) as H3.
    destruct (fread 40 g2) as [common g3]. cbn [snd] in H3.
    destruct (short 40 common); [intros [= _ <- _ _]; congruence|].
    assert (H4 : seek_limit (read_sizes (field prefix 0 2) g3).1.2 = seek_limit g3).
    { unfold read_sizes. destruct (_ =? _).
      - pose proof (fread_seek_limit 40 g3) as Ha. now destruct (fread 40 g3).
      - destruct (fread 4 g3) as [b1 k1] eqn:R1. destruct (fread 4 k1) as [b2 k2] eqn:R2.
        destruct (fread 4 k2) as [b3 k3] eqn:R3. destruct (fread 4 k3) as [b4 k4] eqn:R4.
        destruct (fread 4 k4) as [b5 k5] eqn:R5. destruct (fread 4 k5) as [b6 k6] eqn:R6.
        cbn [fst snd].
        replace k6 with (fread 4 k5).2 by now rewrite R6.
        replace k5 with (fread 4 k4).2 by now rewrite R5.
        replace k4 with (fread 4 k3).2 by now rewrite R4.
        replace k3 with (fread 4 k2).2 by now rewrite R3.
        replace k2 with (fread 4 k1).2 by now rewrite R2.
        replace k1 with (fread 4 g3).2 by now rewrite R1.
        now rewrite !fread_seek_limit. }
    destruct (read_sizes _ g3) as [[oks g4] [[[[[s1 s2] s3] s4] flags] count]].
    cbn [fst snd] in H4.
    destruct oks; simpl negb; cbv iota; [|intros [= _ <- _ _]; congruence].
    assert (H5 : forall n g dirs,
               seek_limit (read_directories n g dirs).1.2 = seek_limit g).
    { induction n as [|n IH]; intros k dirs; cbn [read_directories]; [reflexivity|].
      pose proof (fread_seek_limit 8 k) as Ha.
      destruct (fread 8 k) as [buf k1]. cbn [snd] in Ha.
      destruct (short 8 buf); [exact Ha|]. rewrite IH. exact Ha. }
    specialize (H5 (Z.to_nat (Z.min count 16)) g4 []).
    destruct (read_directories _ g4 []) as [[okd g5] dirs]. cbn [fst snd] in H5.
    intros [= _ <- _ _]. congruence. }
  destruct ok3; simpl negb; cbv iota; [|intros [= <-]; discriminate].
  destruct (_parse_section_table h_dos h_pe f3 (with_ioh fresh_PE ioh))
    as [[ok4 f4] pe4] eqn:Hsec.
  pose proof (parse_section_table_cases _ _ _ _ _ _ _ Hsec) as Htable.
  cbv zeta in Htable.
  destruct Htable as (records & Hpe4 & _ & _ & Hiff & Hok & _).
  destruct ok4; simpl negb; cbv iota; [|intros [= <-]; discriminate].
  destruct (proj1 Hiff eq_refl) as [Hreach _].
  destruct (Hok eq_refl) as (Hcount & _).
  destruct (_parse_directories fuel f4 pe4) as [[[ok5 f5] pe5]| | | |] eqn:Hdir;
    simpl mbind; try discriminate.
  apply parse_directories_headers in Hdir. destruct Hdir as [Hioh Hsections].
  intros [= <-]. cbn [_initialized _size _h_dos _h_pe members].
  intros ->. exists bytes.
  rewrite Hioh, Hsections, Hpe4. cbn [_ioh _sections with_sections with_ioh fresh_PE].
  split; [reflexivity|]. split; [exact Hsize|]. split; [exact Hlen|].
  split; [exact HM|]. split; [exact HZ|]. split; [exact Hh|].
  split; [cbv zeta; auto|].
  split; [rewrite Hl3, Hl2, Hl1 in Hreach; exact Hreach|].
  split; [exact Hdirs|].
  split.
  - destruct (Hshape eq_refl) as [(H0 & Hz & _)|(_ & Hknown & _)]; [left|right]; auto.
  - rewrite app_nil_l, length_map. exact Hcount.
Qed.

(** X22: An image of headers only is parsed to the end: when the file starts
    with a DOS header, holds at [e_lfanew] a PE header that declares no
    optional header and no section, and the section table can be
    sought, the constructor sets [_initialized], with no section, no
    directory and nothing parsed, provided that the parsers of the other
    files take the absence of their directory for a success. *)
Theorem PE_new_headers_only
    (E : Externals) (S : SectionConstructor) (C : Collaborators)
    (bytes : list byte) (limit : Z) (fuel : nat) :
  let header := drop (Z.to_nat (field bytes 60 4)) bytes in
  succeed_without_directory C ->
  (64 <= length bytes)%nat ->
  bytes !! 0%nat = Some x4d -> bytes !! 1%nat = Some x5a ->
  field bytes 60 4 + pe_header_size <= limit ->
  (24 <= length header)%nat ->
  take 4 header = [x50; x45; x00; x00] ->
  field header 6 2 = 0 ->
  field header 20 2 = 0 ->
  PE_new (Some bytes) limit fuel
  = Returns (mkImage (take 64 bytes) (take 24 header) zero_fields
               (Z.of_nat (length bytes)) true fresh_PE).
Proof.
  intros header Hothers Hlen HM HZ Hlimit Hplen Hsig Hnsec Hopt.
  unfold PE_new. set (f0 := mkFILE bytes 0 false limit).
  pose proof (parse_dos_header_cases bytes limit) as Hdos. cbv zeta in Hdos.
  fold f0 in Hdos.
  pose proof (parse_dos_header_stream (Some bytes) f0 (-1)) as [Hc1 Hl1].
  destruct (_parse_dos_header (Some bytes) f0 (-1)) as [[[ok1 f1] h_dos] size].
  cbn [fst snd] in Hdos, Hc1, Hl1.
  destruct Hdos as (Hdos1 & Hdos2 & ->).
  assert (ok1 = true) as -> by (apply Hdos1; auto).
  destruct (Hdos2 eq_refl) as (-> & _ & Hlfanew).
  simpl negb. cbv iota.
  pose proof (parse_pe_header_cases (take 64 bytes) f1) as Hpe. cbv zeta in Hpe.
  pose proof (parse_pe_header_stream (take 64 bytes) f1) as [Hc2 Hl2].
  destruct (_parse_pe_header (take 64 bytes) f1) as [[ok2 f2] h_pe].
  cbn [fst snd] in Hpe, Hc2, Hl2.
  rewrite Hc1, Hl1, Hlfanew in Hpe. cbn [contents seek_limit f0] in Hpe.
  fold header in Hpe.
  destruct Hpe as (Hpe1 & Hpe2).
  assert (ok2 = true) as ->.
  { apply Hpe1. unfold pe_header_size in Hlimit. split; [lia|]. now split. }
  destruct (Hpe2 eq_refl) as (-> & _).
  simpl negb. cbv iota.
  assert (Hnone : SizeOfOptionalHeader (take 24 header) = 0).
  { unfold SizeOfOptionalHeader. now rewrite field_take by lia. }
  assert (Hzero : NumberofSections (take 24 header) = 0).
  { unfold NumberofSections. now rewrite field_take by lia. }
  unfold _parse_image_optional_header. rewrite Hnone. simpl Z.eqb. cbv iota.
  simpl negb. cbv iota.
  unfold _parse_section_table. rewrite Hnone, Hzero, Hlfanew, Z.add_0_r.
  destruct (fseek_set_cases f2 (field bytes 60 4 + pe_header_size))
    as [[_ Hseek]|[Hout _]].
  2: { exfalso. apply Hout. rewrite Hl2, Hl1. cbn [seek_limit f0].
       pose proof (field_range bytes 60 4). unfold pe_header_size in *. lia. }
  rewrite Hseek. simpl negb. cbv iota.
  change (Z.to_nat 0) with 0%nat. cbn [read_sections].
  simpl negb. cbv iota.
  set (f3 := mkFILE _ _ _ _).
  set (pe := with_ioh fresh_PE zero_ioh).
  unfold _parse_directories.
  destruct (Hothers f3 pe eq_refl) as ((f4 & H1) & _).
  rewrite H1. simpl mbind. simpl negb. cbv iota.
  set (pe2 := with_ied pe _).
  destruct (Hothers f4 pe2 eq_refl) as (_ & (f5 & H3) & _).
  rewrite H3. simpl mbind. simpl negb. cbv iota.
  destruct (Hothers f5 pe2 eq_refl) as (_ & _ & (f6 & H4)).
  rewrite H4. simpl mbind. simpl negb. cbv iota.
  reflexivity.
Qed.

(** X11: The directory parsers read the file and never write to it: the
    bytes of the file are the same after the relocation, TLS and
    certificate parsers, whatever they return, and after the export
    parser when the string reader does not write either. *)
Theorem parsers_keep_file_contents
    (E : Externals) (fuel : nat) (f f' : FILE) (pe pe' : PE) (ok : bool) :
  (keeps_contents E ->
   _parse_exports f pe = Returns (ok, f', pe') -> contents f' = contents f)
  /\ (_parse_relocations fuel f pe = Returns (ok, f', pe') ->
      contents f' = contents f)
  /\ (_parse_tls fuel f pe = Returns (ok, f', pe') -> contents f' = contents f)
  /\ (_parse_certificates fuel f pe = Returns (ok, f', pe') ->
      contents f' = contents f).
Proof.
  split; [intros Hkeeps; now apply parse_exports_contents|].
  split; [apply parse_relocations_contents|].
  split; [apply parse_tls_contents|apply parse_certificates_contents].
Qed.

(** ** The sample images *)

Lemma absent_collaborators_return : return_and_keep_contents absent_collaborators.
Proof.
  intros f pe. repeat split; now eexists _, _.
Qed.

Lemma absent_collaborators_succeed : succeed_without_directory absent_collaborators.
Proof.
  intros f pe _. repeat split; now eexists.
Qed.


(** ** The bytes that the optional header takes *)

Lemma read_directories_consumed (count : nat) :
  forall (f f' : FILE) (dirs dirs' : list image_data_directory),
    read_directories count f dirs = (true, f', dirs') ->
    Z.of_nat (bytes_left f) = Z.of_nat (bytes_left f') + 8 * Z.of_nat count.
Proof.
  induction count as [|count IH]; intros f f' dirs dirs' Hrun;
    cbn [read_directories] in Hrun.
  - injection Hrun as <- _. lia.
  - pose proof (fread_full_bytes_left 8 f) as Hleft.
    destruct (fread 8 f) as [buf f1]. cbn [fst snd] in Hleft.
    destruct (short 8 buf); [discriminate|].
    specialize (Hleft eq_refl). apply IH in Hrun. lia.
Qed.

Lemma fread_consumed_unless_eof (n : nat) (f : FILE) :
  eof (fread (Z.of_nat n) f).2 = false ->
  eof f = false
  /\ Z.of_nat (bytes_left f)
     = Z.of_nat (bytes_left (fread (Z.of_nat n) f).2) + Z.of_nat n.
Proof.
  intros He. split.
  - destruct (eof f) eqn:Hf; [|reflexivity].
    now rewrite (fread_eof_sticky _ _ Hf) in He.
  - destruct (fread_consumes_or_eof n f) as [Ht|Hn]; [congruence|lia].
Qed.

Lemma read_sizes_consumed (magic : Z) (f f' : FILE) (values : Z * Z * Z * Z * Z * Z) :
  read_sizes magic f = (true, f', values) ->
  Z.of_nat (bytes_left f)
  = Z.of_nat (bytes_left f')
    + (if magic =? IMAGE_OPTIONAL_HEADER_MAGIC_PE32plus then 40 else 24).
Proof.
  unfold read_sizes. destruct (_ =? _).
  - pose proof (fread_full_bytes_left 40 f) as Hleft.
    destruct (fread 40 f) as [b g]. cbn [fst snd] in Hleft.
    destruct (short 40 b); [discriminate|].
    intros [= <- _]. specialize (Hleft eq_refl). lia.
  - pose proof (fread_consumed_unless_eof 4 f) as H1.
    change (Z.of_nat 4) with 4 in H1.
    destruct (fread 4 f) as [b1 g1]. cbn [snd] in H1.
    pose proof (fread_consumed_unless_eof 4 g1) as H2.
    change (Z.of_nat 4) with 4 in H2.
    destruct (fread 4 g1) as [b2 g2]. cbn [snd] in H2.
    pose proof (fread_consumed_unless_eof 4 g2) as H3.
    change (Z.of_nat 4) with 4 in H3.
    destruct (fread 4 g2) as [b3 g3]. cbn [snd] in H3.
    pose proof (fread_consumed_unless_eof 4 g3) as H4.
    change (Z.of_nat 4) with 4 in H4.
    destruct (fread 4 g3) as [b4 g4]. cbn [snd] in H4.
    pose proof (fread_consumed_unless_eof 4 g4) as H5.
    change (Z.of_nat 4) with 4 in H5.
    destruct (fread 4 g4) as [b5 g5]. cbn [snd] in H5.
    pose proof (fread_consumed_unless_eof 4 g5) as H6.
    change (Z.of_nat 4) with 4 in H6.
    destruct (fread 4 g5) as [b6 g6]. cbn [snd] in H6.
    unfold feof, ferror. rewrite orb_false_r.
    destruct (eof g6) eqn:He6; [discriminate|].
    intros [= <- _].
    destruct (H6 eq_refl) as [He5 L6]. destruct (H5 He5) as [He4 L5].
    destruct (H4 He4) as [He3 L4]. destruct (H3 He3) as [He2 L3].
    destruct (H2 He2) as [He1 L2]. destruct (H1 He1) as [_ L1].
    lia.
Qed.

(** X23: A successful parse of an optional header has read, from
    [e_lfanew + sizeof(pe_header)] on, 96 bytes for PE32 or 112 for
    PE32+ and 8 bytes for each directory entry, whatever
    [SizeOfOptionalHeader] declares (the field is only compared with 0):
    on a file that ends before, the parse fails. *)
Theorem parse_image_optional_header_consumes
    (h_dos h_pe : list byte) (f f' : FILE)
    (ioh : image_optional_header) (x : optional_header_fields) :
  SizeOfOptionalHeader h_pe <> 0 ->
  _parse_image_optional_header h_dos h_pe f = (true, f', ioh, x) ->
  exists f1,
    fseek f (e_lfanew h_dos + pe_header_size) SEEK_SET = (0, f1)
    /\ Z.of_nat (bytes_left f1)
       = Z.of_nat (bytes_left f')
         + optional_header_fixed_size (Magic ioh)
         + 8 * Z.of_nat (length (directories ioh)).
Proof.
  intros Hsome. unfold _parse_image_optional_header.
  destruct (Z.eqb_spec (SizeOfOptionalHeader h_pe) 0); [contradiction|].
  destruct (fseek f _ SEEK_SET) as [r f1].
  destruct (Z.eqb_spec r 0) as [->|]; simpl negb; cbv iota; [|discriminate].
  intros Hrun. exists f1. split; [reflexivity|]. revert Hrun.
  pose proof (fread_full_bytes_left 24 f1) as L1.
  destruct (fread 24 f1) as [prefix f2]. cbn [fst snd] in L1.
  destruct (short 24 prefix); [discriminate|]. specialize (L1 eq_refl).
  set (magic := field prefix 0 2).
  destruct (negb (magic =? IMAGE_OPTIONAL_HEADER_MAGIC_PE32)
            && negb (magic =? IMAGE_OPTIONAL_HEADER_MAGIC_PE32plus)) eqn:Hmagic;
    [discriminate|].
  assert (L2 : forall g base_of_data image_base,
             read_image_base magic f2 = (true, g, base_of_data, image_base) ->
             Z.of_nat (bytes_left f2) = Z.of_nat (bytes_left g) + 8).
  { intros g base_of_data image_base. unfold read_image_base.
    destruct (magic =? IMAGE_OPTIONAL_HEADER_MAGIC_PE32).
    - pose proof (fread_full_bytes_left 4 f2) as La.
      destruct (fread 4 f2) as [b1 g1]. cbn [fst snd] in La.
      destruct (short 4 b1); [discriminate|]. specialize (La eq_refl).
      pose proof (fread_full_bytes_left 4 g1) as Lb.
      destruct (fread 4 g1) as [b2 g2]. cbn [fst snd] in Lb.
      destruct (short 4 b2); [discriminate|]. specialize (Lb eq_refl).
      intros [= <- _ _]. lia.
    - pose proof (fread_full_bytes_left 8 f2) as La.
      destruct (fread 8 f2) as [b1 g1]. cbn [fst snd] in La.
      destruct (short 8 b1); [discriminate|]. specialize (La eq_refl).
      intros [= <- _ _]. lia. }
  destruct (read_image_base magic f2) as [[[okb f3] base_of_data] image_base].
  destruct okb; simpl negb; cbv iota; [|discriminate].
  specialize (L2 _ _ _ eq_refl).
  pose proof (fread_full_bytes_left 40 f3) as L3.
  destruct (fread 40 f3) as [common f4]. cbn [fst snd] in L3.
  destruct (short 40 common); [discriminate|]. specialize (L3 eq_refl).
  destruct (read_sizes magic f4) as [[oks f5] [[[[[s1 s2] s3] s4] flags] count]]
    eqn:Hsizes.
  destruct oks; simpl negb; cbv iota; [|discriminate].
  apply read_sizes_consumed in Hsizes.
  destruct (read_directories _ f5 []) as [[okd f6] dirs] eqn:Hdirs.
  intros [= -> <- <- _]. cbn [Magic directories].
  pose proof (read_directories_length _ _ _ _ _ _ Hdirs) as [_ Hlen].
  specialize (Hlen eq_refl). cbn [length] in Hlen.
  apply read_directories_consumed in Hdirs.
  unfold optional_header_fixed_size.
  destruct (magic =? IMAGE_OPTIONAL_HEADER_MAGIC_PE32plus); lia.
Qed.

(** ** The first section that holds an address *)

Section FirstMatch.
Context {E : Externals}.

Lemma find_first (rva : Z) (before after : list Section) (s : Section) :
  Forall (fun t => is_address_in_section rva t false = false) before ->
  is_address_in_section rva s false = true ->
  List.find (fun t => is_address_in_section rva t false) (before ++ s :: after)
  = Some s.
Proof.
  intros Hbefore Hs.
  induction Hbefore as [|t before Ht _ IH]; cbn [app List.find].
  - now rewrite Hs.
  - now rewrite Ht.
Qed.

End FirstMatch.

(** X24: The sections are searched in the order of the table and by
    their virtual size: the address is translated by the first section
    that holds it, also when a later section holds it too, to
    [rva - VirtualAddress + PointerToRawData] modulo [2^32]. *)
Theorem rva_to_offset_first_virtual_match
    (E : Externals) (pe : PE) (before after : list Section) (s : Section)
    (rva : Z) :
  _sections pe = before ++ s :: after ->
  Forall (fun t => is_address_in_section rva t false = false) before ->
  is_address_in_section rva s false = true ->
  get_virtual_address s <= rva < get_virtual_address s + 2 ^ 64 ->
  _rva_to_offset pe rva
  = (rva - get_virtual_address s + get_pointer_to_raw_data s) mod 2 ^ 32.
Proof.
  intros Hsections Hbefore Hs Hrange.
  rewrite (rva_to_offset_virtual_match pe rva s)
    by (rewrite Hsections; now apply find_first).
  unfold section_offset, u64.
  change 0xFFFFFFFF with (Z.ones 32). rewrite Z.land_ones by lia.
  rewrite (Z.mod_small (rva - get_virtual_address s)) by lia.
  set (a := rva - get_virtual_address s + get_pointer_to_raw_data s).
  change (2 ^ 64) with (2 ^ 32 * 2 ^ 32).
  rewrite Z.rem_mul_r by lia.
  rewrite (Z.mul_comm (2 ^ 32) (a / 2 ^ 32 mod 2 ^ 32)).
  rewrite Z.mod_add by lia. apply Z.mod_mod. lia.
Qed.

(** ** The certificate that fills its directory *)

(** X25: The case the certificate loop is written for: one certificate
    whose [Length] is the size of the directory, with a known type or a
    known revision, is stored with its header fields and a
    [Certificate] of [Length] bytes, the payload followed by 8 bytes of
    0; the counter falls to 0, no padding is skipped, the parse returns
    true and the stream is left behind the payload. *)
Theorem parse_certificates_filling_certificate
    (E : Externals) (pe : PE) (f f1 : FILE) (len revision type : Z)
    (payload rest : list byte) (fuel : nat) :
  let d := directory_slot pe IMAGE_DIRECTORY_ENTRY_SECURITY in
  VirtualAddress d <> 0 ->
  fseek f (VirtualAddress d) SEEK_SET = (0, f1) ->
  stream f1
  = le_encode 4 len ++ le_encode 2 revision ++ le_encode 2 type ++ payload ++ rest ->
  Size d = len ->
  cert_header_size < len < 2 ^ 32 ->
  0 <= revision < 2 ^ 16 -> 0 <= type < 2 ^ 16 ->
  unknown type WIN_CERTIFICATE_TYPES && unknown revision WIN_CERTIFICATE_REVISIONS
  = false ->
  Z.of_nat (length payload) = len - cert_header_size ->
  (1 < fuel)%nat ->
  exists f',
    _parse_certificates fuel f pe
    = Returns (true, f',
               with_certificates pe
                 (_certificates pe
                  ++ [mkCert len revision type (payload ++ replicate 8 x00)]))
    /\ stream f' = rest.
Proof.
  intros d Hva Hseek Hs Hsize Hlen Hrev Htype Hknown Hpayload Hfuel.
  unfold _parse_certificates. fold d.
  destruct (Z.eqb_spec (VirtualAddress d) 0); [contradiction|].
  rewrite Hseek. simpl negb. cbv iota.
  destruct fuel as [|[|fuel]]; [lia|lia|].
  rewrite loop_step. unfold certificates_body at 1. rewrite Hsize.
  unfold cert_header_size in *.
  destruct (Z.ltb_spec (4 + 2 * 2) len); [|lia]. simpl negb. cbv iota.
  set (header := le_encode 4 len ++ le_encode 2 revision ++ le_encode 2 type).
  assert (Hs' : stream f1 = header ++ payload ++ rest)
    by (rewrite Hs; unfold header; now rewrite <- !app_assoc).
  destruct (fread_app _ _ (4 + 2 * 2) f1 Hs') as (f2 & Hr & Hs2);
    [unfold header; now rewrite !length_app, !length_le_encode|].
  rewrite Hr.
  replace (short (4 + 2 * 2) header) with false
    by (symmetry; apply short_false; unfold header;
        now rewrite !length_app, !length_le_encode).
  assert (F1 : field header 0 4 = len) by (unfold header; apply field_head; simpl; lia).
  assert (F2 : field header 4 2 = revision).
  { unfold header. apply (field_after (le_encode 4 len));
      [apply length_le_encode|simpl; lia]. }
  assert (F3 : field header 6 2 = type).
  { unfold header. rewrite (app_assoc (le_encode 4 len)).
    rewrite <- (app_nil_r (le_encode 2 type)).
    apply field_after; [now rewrite length_app, !length_le_encode|simpl; lia]. }
  rewrite F1, F2, F3, Hknown.
  destruct (Z.ltb_spec len len); [lia|].
  assert (Hu : u32 (len - (4 + 2 * 2)) = len - 8).
  { unfold u32. rewrite Z.mod_small; lia. }
  rewrite Hu.
  destruct (fread_app _ _ (len - 8) f2 Hs2) as (f3 & Hr3 & Hs3); [lia|].
  rewrite Hr3.
  replace (short (len - 8) payload) with false by (symmetry; apply short_false; lia).
  replace (u32 (len - len)) with 0 by (now rewrite Z.sub_diag).
  rewrite andb_false_r.
  replace (Z.to_nat (len - Z.of_nat (length payload))) with 8%nat by lia.
  rewrite loop_step. unfold certificates_body at 1.
  simpl negb. cbv iota.
  exists f3. split; [reflexivity|exact Hs3].
Qed.


(** ** What a failed parse leaves behind *)

Section FailedParsers.
Context {E : Externals}.

(** The function loop on a table that ends before the declared count:
    the functions of the complete entries are appended, and the loop
    fails. *)
Lemma read_functions_plain_short (addresses : list Z) :
  forall (count : nat) (i : Z) (f : FILE) (pe : PE) (tail : list byte),
    Forall (plain_address (directory_slot pe IMAGE_DIRECTORY_ENTRY_EXPORT)) addresses ->
    stream f = encode_values 4 addresses ++ tail ->
    (length tail < 4)%nat ->
    (length addresses < count)%nat ->
    exists f',
      read_functions count i f pe
      = (false, f',
         with_exports pe
           (_exports pe ++ plain_exports (Base (_ied pe)) i addresses)).
Proof.
  induction addresses as [|a addresses IH]; intros count i f pe tail Hplain Hs Htail Hcount.
  - destruct count as [|count]; [simpl in Hcount; lia|].
    cbn [read_functions].
    pose proof (fread_short 4 f) as Hshort.
    destruct (fread 4 f) as [buf f1]. cbn [fst] in Hshort.
    rewrite Hshort by (rewrite Hs; simpl; lia).
    exists f1. unfold plain_exports. cbn [imap].
    now rewrite app_nil_r, <- with_exports_same.
  - destruct count as [|count]; [simpl in Hcount; lia|].
    apply Forall_cons in Hplain. destruct Hplain as [[Hrange Hout] Hplain].
    rewrite encode_values_cons, <- app_assoc in Hs.
    destruct (fread_app _ _ 4 f Hs) as (f1 & Hr & Hs1);
      [now rewrite length_le_encode|].
    cbn [read_functions]. rewrite Hr.
    replace (short 4 (le_encode 4 a)) with false
      by (symmetry; apply (short_encoded 4)).
    rewrite le_decode_encode by (simpl; lia).
    set (d := directory_slot pe IMAGE_DIRECTORY_ENTRY_EXPORT) in *.
    assert (Htest : (VirtualAddress d <? a) && (a <? u32 (VirtualAddress d + Size d))
                    = false).
    { destruct (Z.ltb_spec (VirtualAddress d) a); [|reflexivity].
      destruct (Z.ltb_spec a (u32 (VirtualAddress d + Size d))); [|reflexivity].
      exfalso. apply Hout. lia. }
    rewrite Htest.
    destruct (IH count (i + 1) f1
                (with_exports pe
                   (_exports pe
                    ++ [mkExport a (u32 (Base (_ied pe) + i)) EmptyString EmptyString]))
                tail Hplain Hs1 Htail) as (f' & Hrun); [simpl in Hcount; lia|].
    exists f'. rewrite Hrun. f_equal.
    cbn [_exports _ied with_exports]. unfold with_exports. cbn.
    f_equal. rewrite <- app_assoc. f_equal. unfold plain_exports. cbn [imap app].
    f_equal; [now rewrite Z.add_0_r|].
    apply imap_ext. intros k x _. cbn. do 2 f_equal. lia.
Qed.

Lemma parse_exports_cut_table (pe : PE) (f f1 f2 f3 f4 : FILE)
    (log : list diagnostic) (buf : list byte) (str : string)
    (addresses : list Z) (tail : list byte) :
  let pe0 := with_ied pe (decode_ied [] (NameStr (_ied pe))) in
  let pe1 := with_ied pe0 (decode_ied buf (NameStr (_ied pe0))) in
  let pe2 := with_ied pe1 (set_NameStr (_ied pe1) str) in
  _reach_directory pe0 f IMAGE_DIRECTORY_ENTRY_EXPORT = Returns (true, f1, log) ->
  fread ied_size f1 = (buf, f2) ->
  short ied_size buf = false ->
  _rva_to_offset pe1 (ied_Name (_ied pe1)) <> 0 ->
  read_string_at_offset f2 (_rva_to_offset pe1 (ied_Name (_ied pe1)))
    (NameStr (_ied pe1)) = (true, str, f3) ->
  _rva_to_offset pe2 (AddressOfFunctions (_ied pe2)) <> 0 ->
  fseek f3 (_rva_to_offset pe2 (AddressOfFunctions (_ied pe2))) SEEK_SET = (0, f4) ->
  Forall (plain_address (directory_slot pe IMAGE_DIRECTORY_ENTRY_EXPORT)) addresses ->
  stream f4 = encode_values 4 addresses ++ tail ->
  (length tail < 4)%nat ->
  (length addresses < Z.to_nat (NumberOfFunctions (_ied pe2)))%nat ->
  exists f',
    _parse_exports f pe
    = Returns (false, f',
               with_exports pe2
                 (_exports pe ++ plain_exports (Base (_ied pe2)) 0 addresses)).
Proof.
  intros pe0 pe1 pe2 Hreach Hread Hfull Hname Hstr Hoff Hseek Hplain Hs Htail Hcount.
  destruct (read_functions_plain_short addresses
              (Z.to_nat (NumberOfFunctions (_ied pe2))) 0 f4 pe2 tail)
    as (f' & Hrun); try assumption.
  exists f'. subst pe0 pe1 pe2.
  unfold _parse_exports. rewrite Hreach.
  unfold mbind, outcome_bind. cbv beta iota. simpl negb. cbv iota.
  rewrite Hread. cbv beta iota zeta. rewrite Hfull.
  apply Z.eqb_neq in Hname, Hoff.
  rewrite Hname, Hstr. cbv beta iota zeta. simpl negb. cbv iota.
  rewrite Hoff, Hseek. cbv beta iota zeta. simpl negb. cbv iota.
  rewrite Hrun. reflexivity.
Qed.

Lemma parse_relocations_bad_block (pe : PE) (f f1 : FILE) (log : list diagnostic)
    (blocks : list image_base_relocation) (tail : list byte) (fuel : nat) :
  let size := Size (directory_slot pe IMAGE_DIRECTORY_ENTRY_BASERELOC) in
  _reach_directory pe f IMAGE_DIRECTORY_ENTRY_BASERELOC = Returns (true, f1, log) ->
  size < 2 ^ 32 ->
  Forall wf_block blocks ->
  stream f1 = encode_blocks blocks ++ tail ->
  sum_sizes blocks < size ->
  bad_block (size - sum_sizes blocks) tail ->
  (length blocks < fuel)%nat ->
  exists f',
    _parse_relocations fuel f pe
    = Returns (false, f', with_relocations pe (_relocations pe ++ blocks)).
Proof.
  intros size Hreach Hsize Hwf Hs Hsum Hbad Hfuel.
  destruct (relocations_loop_blocks blocks size f1 pe (fuel - length blocks) tail Hwf Hs)
    as (f' & Hs' & Hloop); [lia|].
  destruct (relocations_body_fails (size - sum_sizes blocks) f'
              (with_relocations pe (_relocations pe ++ blocks)))
    as (f'' & Hbody); [lia|now rewrite Hs'|].
  exists f''. unfold _parse_relocations. rewrite Hreach. simpl. fold size.
  replace fuel with (length blocks + (fuel - length blocks))%nat at 1 by lia.
  rewrite Hloop.
  destruct (fuel - length blocks)%nat as [|k] eqn:Hk; [lia|].
  now rewrite loop_step, Hbody.
Qed.

Lemma parse_tls_record_without_callbacks (pe : PE) (f f1 : FILE)
    (log : list diagnostic) (t : image_tls_directory) (rest : list byte)
    (fuel : nat) :
  _reach_directory pe f IMAGE_DIRECTORY_ENTRY_TLS = Returns (true, f1, log) ->
  wf_tls (pointer_width pe) t ->
  stream f1 = encode_tls (pointer_width pe) t ++ rest ->
  AddressOfCallbacks t <= ImageBase (_ioh pe) ->
  exists f',
    _parse_tls fuel f pe = Returns (false, f', with_tls pe (keep_callbacks pe t)).
Proof.
  intros Hreach Hwf Hs Hnull.
  destruct (read_tls_record_encoded_at pe f1 t rest Hwf Hs) as (f2 & Hrec & _ & _).
  unfold _parse_tls. rewrite Hreach. simpl mbind. simpl negb. cbv iota.
  rewrite Hrec. exists f2.
  destruct (_ || _); [reflexivity|].
  unfold _va_to_offset. cbn [_ioh with_tls _tls keep_callbacks AddressOfCallbacks].
  destruct (Z.ltb_spec (ImageBase (_ioh pe)) (AddressOfCallbacks t)); [lia|].
  reflexivity.
Qed.

End FailedParsers.



(** ** The properties on the sample images *)


(** The PE32 sample: its optional header declares two directories and
    both are read. *)
Lemma parse_image_optional_header_shape_witness :
  Z.of_nat (length (directories sample_ioh))
  = Z.min (NumberOfRvaAndSizes sample_fields) 0x10.
Proof.
  pose (r := _parse_image_optional_header (sample_dos_header 64)
               (sample_pe_header 1 112) (sample_file sample_image)).
  assert (Hrun : r = (true, r.1.1.2, sample_ioh, sample_fields))
    by (vm_compute; reflexivity).
  destruct (proj2 (parse_image_optional_header_shape _ _ _ _ _ _ _ Hrun) eq_refl)
    as [(Hnone & _)|(_ & _ & Hcount & _)].
  - vm_compute in Hnone. discriminate.
  - exact Hcount.
Defined.

(** The PE32+ sample: an image base above 32 bits and one directory. *)
Lemma parse_image_optional_header_encoded_witness :
  exists f',
    _parse_image_optional_header (sample_dos_header 64) (sample_pe_header 0 120)
      (sample_file sample_image64)
    = (true, f', sample_ioh64, sample_fields64)
    /\ stream f' = [].
Proof.
  refine (parse_image_optional_header_encoded (sample_dos_header 64)
            (sample_pe_header 0 120) (sample_file sample_image64) _
            sample_ioh64 sample_fields64 [] _ _ _ _).
  - vm_compute. discriminate.
  - vm_compute. reflexivity.
  - unfold wf_optional_header.
    split; [reflexivity|]. split; [vm_compute; reflexivity|].
    split; [right; reflexivity|]. split; [reflexivity|].
    split; [repeat constructor; vm_compute; congruence|].
    split; [reflexivity|]. split; [vm_compute; split; congruence|].
    split; [vm_compute; split; congruence|]. split; [reflexivity|].
    repeat constructor; vm_compute; congruence.
  - vm_compute. reflexivity.
Defined.

(** A table of two records that ends 20 bytes into the second: the
    loader fails, and the list has the section of the first record. *)
Lemma parse_section_table_records_witness :
  let r := _parse_section_table (S := section_of_record) (sample_dos_header 64)
             (sample_pe_header 2 112) (sample_file cut_table_image)
             (with_ioh fresh_PE sample_ioh) in
  r.1.1 = false
  /\ exists record,
      _sections r.2 = [new_Section (SectionConstructor := section_of_record) record]
      /\ record = take 40 (drop 200 cut_table_image).
Proof.
  intros r.
  assert (Hrun : r = (false, r.1.2, r.2)) by (vm_compute; reflexivity).
  split; [vm_compute; reflexivity|].
  destruct (parse_section_table_records _ _ _ _ _ _ _ Hrun)
    as (records & Hpe & _ & _ & _ & _ & Hbytes & Hcount & _).
  assert (Hlimit : e_lfanew (sample_dos_header 64) + pe_header_size
                   + SizeOfOptionalHeader (sample_pe_header 2 112)
                   <= seek_limit (sample_file cut_table_image))
    by (vm_compute; congruence).
  specialize (Hbytes Hlimit). specialize (Hcount Hlimit).
  assert (Hone : length records = 1%nat) by (rewrite Hcount; vm_compute; reflexivity).
  destruct records as [|record [|? ?]]; try discriminate Hone.
  exists record. rewrite Hpe. split; [reflexivity|].
  cbn [concat length] in Hbytes. rewrite app_nil_r in Hbytes. exact Hbytes.
Defined.

(** The image base 0x400000 and the relative address 0x1008. *)
Lemma va_to_offset_of_rva_witness :
  _va_to_offset (E := modelled) undershoot_pe (0x400000 + 0x1008)
  = _rva_to_offset (E := modelled) undershoot_pe 0x1008.
Proof.
  refine (va_to_offset_of_rva modelled undershoot_pe 0x1008 _ _ _).
  - vm_compute. congruence.
  - lia.
  - vm_compute. reflexivity.
Defined.

(** The TLS directory of the sample image, at offset 0x10. *)
Lemma reach_directory_positions_stream_witness :
  stream (mkFILE (contents tls_file) 16 false (2 ^ 63 - 1))
  = drop 16 (contents tls_file).
Proof.
  assert (Hslot : 0 <= 9 <= 15) by lia.
  assert (Hrun : _reach_directory (E := modelled) tls_pe tls_file 9
                 = Returns (true, mkFILE (contents tls_file) 16 false (2 ^ 63 - 1), []))
    by (vm_compute; reflexivity).
  destruct (proj1 (reach_directory_positions_stream modelled tls_pe tls_file _ 9
                     [] true Hslot Hrun) eq_refl) as (_ & _ & _ & Hstream).
  exact Hstream.
Defined.

(** A relocation directory with a size and no address: the dispatcher
    reports an error, the parser a success. *)
Lemma unreachable_directories_are_skipped_witness :
  let pe := sample_pe IMAGE_OPTIONAL_HEADER_MAGIC_PE32 []
              (replicate 5 zero_directory ++ [mkDir 0 12]) in
  _reach_directory (E := modelled) pe reloc_file IMAGE_DIRECTORY_ENTRY_BASERELOC
  = Returns (false, reloc_file, [error_rva_zero])
  /\ _parse_relocations (E := modelled) 3 reloc_file pe = Returns (true, reloc_file, pe).
Proof.
  intros pe. split; [vm_compute; reflexivity|].
  refine (proj1 (proj2 (unreachable_directories_are_skipped modelled pe reloc_file 3)) _).
  left. vm_compute. reflexivity.
Defined.

(** The two relocation blocks of the sample file. *)
Lemma parsers_write_their_own_members_witness :
  exists x,
    returned_object (_parse_relocations (E := modelled) 3 reloc_file (reloc_pe 22))
      (reloc_pe 22)
    = with_relocations (reloc_pe 22) x.
Proof.
  refine (proj1 (proj2 (parsers_write_their_own_members modelled 3 reloc_file
                          (returned_file
                             (_parse_relocations (E := modelled) 3 reloc_file
                                (reloc_pe 22)) reloc_file)
                          (reloc_pe 22) _ true)) _).
  vm_compute. reflexivity.
Defined.

(** A PE32 record: four addresses of 4 bytes. *)
Lemma read_tls_record_encoded_witness :
  exists f',
    read_tls_record (fseek tls_without_callbacks_file 0x10 SEEK_SET).2 tls_pe
    = (f', with_tls tls_pe (keep_callbacks tls_pe tls_without_callbacks))
    /\ stream f' = []
    /\ eof f' = false.
Proof.
  refine (read_tls_record_encoded modelled tls_pe
            (fseek tls_without_callbacks_file 0x10 SEEK_SET).2
            tls_without_callbacks [] _ _).
  - split; [repeat constructor; vm_compute; congruence|].
    split; vm_compute; split; congruence.
  - vm_compute. reflexivity.
Defined.

(** A TLS directory whose [AddressOfCallbacks] is 0. *)
Lemma parse_tls_without_callbacks_fails_witness :
  exists f' pe',
    _parse_tls (E := modelled) 3 tls_without_callbacks_file tls_pe
    = Returns (false, f', pe')
    /\ Callbacks (_tls pe') = [].
Proof.
  eexists _, _.
  refine (parse_tls_without_callbacks_fails modelled tls_pe
            tls_without_callbacks_file _ [] 3 _ _).
  - vm_compute. reflexivity.
  - vm_compute. congruence.
Defined.

(** A TLS directory 16 bytes before the end of the file. *)
Lemma parse_tls_truncated_record_fails_witness :
  exists f' pe',
    _parse_tls (E := modelled) 3 tls_short_file tls_pe = Returns (false, f', pe')
    /\ Callbacks (_tls pe') = [].
Proof.
  eexists _, _.
  refine (parse_tls_truncated_record_fails modelled tls_pe tls_short_file _ [] 3 _ _).
  - vm_compute. reflexivity.
  - vm_compute. lia.
Defined.

(** A block that declares 4 bytes in a directory of 12. *)
Lemma relocation_block_below_header_size_witness :
  2 ^ 31 - 4 <= entry_count 4
  /\ exists f',
      _parse_relocations (E := modelled) 1 small_block_file (reloc_pe 12)
      = Returns (false, f', reloc_pe 12).
Proof.
  refine (relocation_block_below_header_size modelled (reloc_pe 12)
            small_block_file _ [] 0x1000 4 (encode_values 2 [0x3001; 0x3004]) 1
            _ _ _ _ _ _ _ _).
  - vm_compute. reflexivity.
  - vm_compute. reflexivity.
  - lia.
  - vm_compute. split; congruence.
  - vm_compute. reflexivity.
  - vm_compute. congruence.
  - vm_compute. reflexivity.
  - lia.
Defined.

(** The certificate that fills its directory. *)
Lemma parse_certificates_stores_one_at_most_witness :
  let o := _parse_certificates (E := modelled) 5 single_certificate_file
             single_certificate_pe in
  length (_certificates (returned_object o single_certificate_pe)) = 1%nat.
Proof.
  intros o.
  assert (Hrun : o = Returns (true, returned_file o single_certificate_file,
                              returned_object o single_certificate_pe))
    by (vm_compute; reflexivity).
  pose proof (parse_certificates_stores_one_at_most modelled single_certificate_pe
                (returned_object o single_certificate_pe) single_certificate_file
                (returned_file o single_certificate_file) true 5) as Hone.
  cbv zeta in Hone.
  destruct Hone as [Hsame|(c & -> & _)].
  - vm_compute. split; congruence.
  - vm_compute. reflexivity.
  - exact Hrun.
  - vm_compute in Hsame. discriminate.
  - reflexivity.
Defined.

(** Three functions, the second a forwarder; and the name loop on two
    functions, which names the first one. *)
Lemma parse_exports_forwarders_in_directory_witness :
  Forall (forwarder_in_directory (mkDir 0x10 0x80))
    (_exports
       (returned_object (_parse_exports (E := modelled) forwarder_file forwarder_pe)
          forwarder_pe))
  /\ (let o := match_names (E := modelled) [(0x68, 0)] forwarder_file
                 two_functions_pe in
      Name <$> _exports (returned_object o two_functions_pe)
      = ["g"%string; EmptyString]
      /\ ForwardName <$> _exports (returned_object o two_functions_pe)
         = ForwardName <$> _exports two_functions_pe).
Proof.
  split.
  - refine (proj1 (parse_exports_forwarders_in_directory modelled forwarder_file
                     (returned_file
                        (_parse_exports (E := modelled) forwarder_file forwarder_pe)
                        forwarder_file)
                     forwarder_pe _ true []) _ _).
    + constructor.
    + vm_compute. reflexivity.
  - intros o. split; [vm_compute; reflexivity|].
    refine (proj2 (proj2 (proj2 (parse_exports_forwarders_in_directory modelled
                                   forwarder_file (returned_file o forwarder_file)
                                   two_functions_pe _ true [(0x68, 0)]) _))).
    vm_compute. reflexivity.
Defined.

(** The two addresses of the sample export table, at offset 0x40. *)
Lemma read_functions_plain_table_witness :
  exists f',
    read_functions (E := modelled) 2 0 (fseek one_name_file 0x40 SEEK_SET).2 export_pe
    = (true, f',
       with_exports export_pe
         [mkExport 0x1000 0 EmptyString EmptyString;
          mkExport 0x2000 1 EmptyString EmptyString]).
Proof.
  destruct (read_functions_plain_table modelled [0x1000; 0x2000] 0
              (fseek one_name_file 0x40 SEEK_SET).2 export_pe
              (drop 0x48 (contents one_name_file))) as (f' & Hrun & _).
  - repeat constructor; try (vm_compute; congruence);
      vm_compute; intros [_ H]; discriminate H.
  - vm_compute. reflexivity.
  - exists f'. exact Hrun.
Defined.

(** The directories of the relocation sample. *)
Lemma parse_directories_keeps_headers_witness :
  let o := _parse_directories (E := modelled) (C := absent_collaborators) 5
             reloc_file (reloc_pe 22) in
  _ioh (returned_object o (reloc_pe 22)) = _ioh (reloc_pe 22)
  /\ _relocations (returned_object o (reloc_pe 22)) = sample_blocks.
Proof.
  intros o.
  assert (Hrun : o = Returns (true, returned_file o reloc_file,
                              returned_object o (reloc_pe 22)))
    by (vm_compute; reflexivity).
  destruct (parse_directories_keeps_headers modelled absent_collaborators 5
              reloc_file _ (reloc_pe 22) _ true Hrun) as (Hioh & _).
  split; [exact Hioh|vm_compute; reflexivity].
Defined.

(** The file of the relocation sample after its parse. *)
Lemma parsers_keep_file_contents_witness :
  contents
    (returned_file (_parse_relocations (E := modelled) 3 reloc_file (reloc_pe 22))
       reloc_file)
  = contents reloc_file.
Proof.
  refine (proj1 (proj2 (parsers_keep_file_contents modelled 3 reloc_file _
                          (reloc_pe 22)
                          (returned_object
                             (_parse_relocations (E := modelled) 3 reloc_file
                                (reloc_pe 22)) (reloc_pe 22))
                          true)) _).
  vm_compute. reflexivity.
Defined.


(** The PE32 sample is initialized, with its one section. *)
Lemma PE_new_initialized_witness :
  let img :=
    returned_image
      (PE_new (E := modelled) (S := section_of_record) (C := absent_collaborators)
         (Some sample_image) (2 ^ 63 - 1) 241) in
  _size img = 240
  /\ length (_sections (members img)) = Z.to_nat (NumberofSections (_h_pe img)).
Proof.
  intros img.
  destruct (PE_new_initialized modelled section_of_record absent_collaborators
              (Some sample_image) (2 ^ 63 - 1) 241 img)
    as (bytes & Hdisk & Hsize & _ & _ & _ & _ & _ & _ & _ & _ & Hsections).
  - vm_compute. reflexivity.
  - vm_compute. reflexivity.
  - injection Hdisk as <-. split; [exact Hsize|exact Hsections].
Defined.

(** The 88 bytes of a DOS header and a PE header. *)
Lemma PE_new_headers_only_witness :
  PE_new (E := modelled) (S := section_of_record) (C := absent_collaborators)
    (Some headers_only_image) (2 ^ 63 - 1) 0
  = Returns (mkImage (take 64 headers_only_image)
               (take 24 (drop 64 headers_only_image)) zero_fields 88 true fresh_PE).
Proof.
  refine (PE_new_headers_only modelled section_of_record absent_collaborators
            headers_only_image (2 ^ 63 - 1) 0 _ _ _ _ _ _ _ _ _).
  - exact absent_collaborators_succeed.
  - vm_compute. lia.
  - reflexivity.
  - reflexivity.
  - vm_compute. congruence.
  - vm_compute. lia.
  - reflexivity.
  - vm_compute. reflexivity.
  - vm_compute. reflexivity.
Defined.

(** The PE32 sample: 40 bytes of section record are left behind its
    optional header of 112 bytes. *)
Lemma parse_image_optional_header_consumes_witness :
  exists f1,
    fseek (sample_file sample_image) (64 + 24) SEEK_SET = (0, f1)
    /\ Z.of_nat (bytes_left f1) = 40 + 96 + 8 * 2.
Proof.
  pose (r := _parse_image_optional_header (sample_dos_header 64)
               (sample_pe_header 1 112) (sample_file sample_image)).
  assert (Hrun : r = (true, r.1.1.2, sample_ioh, sample_fields))
    by (vm_compute; reflexivity).
  assert (Hsome : SizeOfOptionalHeader (sample_pe_header 1 112) <> 0)
    by (vm_compute; discriminate).
  destruct (parse_image_optional_header_consumes (sample_dos_header 64)
              (sample_pe_header 1 112) (sample_file sample_image) r.1.1.2
              sample_ioh sample_fields Hsome Hrun) as (f1 & Hseek & Hbytes).
  exists f1. split; [exact Hseek|]. rewrite Hbytes. vm_compute. reflexivity.
Defined.

(** 0x1900 lies in both sections; the first one translates it. *)
Lemma rva_to_offset_first_virtual_match_witness :
  _rva_to_offset (E := modelled) overlapping_pe 0x1900 = 0xd00.
Proof.
  rewrite (rva_to_offset_first_virtual_match modelled overlapping_pe []
             [mkSection 0x1800 0x1000 0x2000 0x1000]
             (mkSection 0x1000 0x1000 0x400 0x1000) 0x1900).
  - reflexivity.
  - reflexivity.
  - constructor.
  - reflexivity.
  - vm_compute. split; congruence.
Defined.

(** The certificate of 24 bytes in a directory of 24 bytes. *)
Lemma parse_certificates_filling_certificate_witness :
  exists f',
    _parse_certificates (E := modelled) 2 single_certificate_file
      single_certificate_pe
    = Returns (true, f',
               with_certificates single_certificate_pe
                 (_certificates single_certificate_pe
                  ++ [mkCert 24 0x0200 2 (replicate 16 x07 ++ replicate 8 x00)]))
    /\ stream f' = [].
Proof.
  refine (parse_certificates_filling_certificate modelled single_certificate_pe
            single_certificate_file _ 24 0x0200 2 (replicate 16 x07) [] 2
            _ _ _ _ _ _ _ _ _ _).
  - vm_compute. discriminate.
  - vm_compute. reflexivity.
  - vm_compute. reflexivity.
  - reflexivity.
  - vm_compute. split; reflexivity.
  - vm_compute. split; congruence.
  - vm_compute. split; congruence.
  - vm_compute. reflexivity.
  - vm_compute. reflexivity.
  - lia.
Defined.
